(** * UVM channel management: ring protocol, fault escalation, engine selection

    A shallow embedding of [uvm8_channel.c]
    ([src/general_evaluation/cflow/14.c]) and the properties of its GPFIFO
    ring protocol, its error propagation and its copy-engine selection
    heuristic.

    Conventions of the embedding.
    - [NvU32] and [NvU64] values are integers of [Z]; every arithmetic
      operation the C code performs on them has its wrap-around written out
      with [NvU32] / [NvU64] below.
    - Each critical section (everything between [uvm_spin_lock] and
      [uvm_spin_unlock] on the pool lock) is one atomic state transformer.
    - Calls into collaborators that the file only uses (pushbuffer, HAL,
      memory barriers) are recorded, in program order, as a list of [event]s.
    - Code whose behaviour is undefined in C (a read or write outside an
      array, a dereference of a NULL [push_info]) yields [Fault]. The
      engine selection is also given as a build without bounds checks
      executes it, its one stray write landing behind the array. *)

From Stdlib Require Import ZArith Lia Bool List.
From stdpp Require Import base option list.

Open Scope Z_scope.

(** ** Machine integers *)

(** The value an [NvU32] variable holds after being assigned [x]. *)
Definition NvU32 (x : Z) : Z := x mod 2^32.

(** The value an [NvU64] variable holds after being assigned [x]. *)
Definition NvU64 (x : Z) : Z := x mod 2^64.

(** Conversion of an [NvU32] to [int] (two's complement), as performed when
    an unsigned difference is returned from a function of type [int]. *)
Definition int_of_NvU32 (x : Z) : Z :=
  let y := x mod 2^32 in if y <? 2^31 then y else y - 2^32.

Arguments NvU32 : simpl never.
Arguments NvU64 : simpl never.
Arguments int_of_NvU32 : simpl never.

(** ** Results of code that may go wrong *)

Inductive fault : Type :=
| OutOfBounds (index : Z)   (* array access outside the array *)
| NullPointer               (* dereference of a NULL pointer *)
| OutOfFuel.                (* a polling loop did not exit within the fuel given *)

Inductive result (A : Type) : Type :=
| Ok (a : A)
| Fault (f : fault).

Arguments Ok {A} a.
Arguments Fault {A} f.

Definition bind {A B : Type} (k : A -> result B) (r : result A) : result B :=
  match r with
  | Ok a => k a
  | Fault f => Fault f
  end.

(** Sequencing is written [x ← r; k] and ['(x, y) ← r; k]. *)
#[global] Instance result_bind : MBind result := @bind.

(** ** Status codes *)

Inductive NV_STATUS : Type :=
| NV_OK
| NV_ERR_GENERIC
| NV_ERR_NO_MEMORY
| NV_ERR_NOT_SUPPORTED
| NV_ERR_OPERATING_SYSTEM
| NV_ERR_ECC_ERROR
| NV_ERR_RC_ERROR.

(** ** Channel types *)

(** Enumerators in the order [uvm_channel_type_to_string] lists them. *)
Inductive uvm_channel_type_t : Type :=
| UVM_CHANNEL_TYPE_CPU_TO_GPU
| UVM_CHANNEL_TYPE_GPU_TO_CPU
| UVM_CHANNEL_TYPE_GPU_INTERNAL
| UVM_CHANNEL_TYPE_MEMOPS
| UVM_CHANNEL_TYPE_GPU_TO_GPU
| UVM_CHANNEL_TYPE_ANY.

Definition uvm_channel_type_eqb (a b : uvm_channel_type_t) : bool :=
  match a, b with
  | UVM_CHANNEL_TYPE_CPU_TO_GPU, UVM_CHANNEL_TYPE_CPU_TO_GPU
  | UVM_CHANNEL_TYPE_GPU_TO_CPU, UVM_CHANNEL_TYPE_GPU_TO_CPU
  | UVM_CHANNEL_TYPE_GPU_INTERNAL, UVM_CHANNEL_TYPE_GPU_INTERNAL
  | UVM_CHANNEL_TYPE_MEMOPS, UVM_CHANNEL_TYPE_MEMOPS
  | UVM_CHANNEL_TYPE_GPU_TO_GPU, UVM_CHANNEL_TYPE_GPU_TO_GPU
  | UVM_CHANNEL_TYPE_ANY, UVM_CHANNEL_TYPE_ANY => true
  | _, _ => false
  end.

(** ** Ring entries, tracking semaphore, channel *)

(** [uvm_gpfifo_entry_t]. [push_info] points into the channel's [push_infos]
    array; it is recorded as the index of the slot, [None] being the NULL of
    an entry that was zero-allocated and never written. *)
Record uvm_gpfifo_entry_t : Type := mk_entry {
  tracking_semaphore_value : Z;
  pushbuffer_offset : Z;
  pushbuffer_size : Z;
  push_info : option Z
}.

(** The tracking semaphore of a channel. [queued_value] is the CPU-side
    counter incremented by [uvm_channel_end_push]; [completed_value] is what
    [uvm_gpu_tracking_semaphore_update_completed_value] returns in this
    state (the device writes it). *)
Record uvm_gpu_tracking_semaphore_t : Type := mk_sem {
  queued_value : Z;
  completed_value : Z
}.

(** Calls made on behalf of a channel into the pushbuffer, the HAL and the
    barrier primitives, with the arguments that matter to the protocol. *)
Inductive event : Type :=
| ce_semaphore_release (payload : Z)
| host_set_gpfifo_entry (index pushbuffer_va push_size : Z)
| mb
| host_write_gpu_put (gpu_put : Z)
| uvm_pushbuffer_end_push (entry : uvm_gpfifo_entry_t)
| wmb
| uvm_pushbuffer_mark_completed (entry : uvm_gpfifo_entry_t).

(** [uvm_channel_t], restricted to the fields the protocol reads or writes.
    [calls] is not a field of the C structure: it is the record, oldest
    first, of the collaborator calls made for this channel. *)
Record uvm_channel_t : Type := mk_channel {
  channel_type : uvm_channel_type_t;   (* channel->pool->channel_type *)
  numGpFifoEntries : Z;                (* channel_info.numGpFifoEntries *)
  errorNotifier_status : Z;            (* channel_info.errorNotifier->status *)
  cpu_put : Z;
  gpu_get : Z;
  current_pushes_count : Z;
  gpfifo_entries : list uvm_gpfifo_entry_t;
  available_push_infos : list Z;       (* free push_info slots, head first *)
  tracking_sem : uvm_gpu_tracking_semaphore_t;
  calls : list event
}.

Definition set_current_pushes_count (v : Z) (c : uvm_channel_t) : uvm_channel_t :=
  mk_channel (channel_type c) (numGpFifoEntries c) (errorNotifier_status c)
             (cpu_put c) (gpu_get c) v
             (gpfifo_entries c) (available_push_infos c) (tracking_sem c) (calls c).

Definition set_available_push_infos (l : list Z) (c : uvm_channel_t) : uvm_channel_t :=
  mk_channel (channel_type c) (numGpFifoEntries c) (errorNotifier_status c)
             (cpu_put c) (gpu_get c) (current_pushes_count c)
             (gpfifo_entries c) l (tracking_sem c) (calls c).

Definition set_gpu_get (v : Z) (c : uvm_channel_t) : uvm_channel_t :=
  mk_channel (channel_type c) (numGpFifoEntries c) (errorNotifier_status c)
             (cpu_put c) v (current_pushes_count c)
             (gpfifo_entries c) (available_push_infos c) (tracking_sem c) (calls c).

Definition set_cpu_put (v : Z) (c : uvm_channel_t) : uvm_channel_t :=
  mk_channel (channel_type c) (numGpFifoEntries c) (errorNotifier_status c)
             v (gpu_get c) (current_pushes_count c)
             (gpfifo_entries c) (available_push_infos c) (tracking_sem c) (calls c).

Definition set_gpfifo_entries (l : list uvm_gpfifo_entry_t) (c : uvm_channel_t)
  : uvm_channel_t :=
  mk_channel (channel_type c) (numGpFifoEntries c) (errorNotifier_status c)
             (cpu_put c) (gpu_get c) (current_pushes_count c)
             l (available_push_infos c) (tracking_sem c) (calls c).

Definition set_tracking_sem (t : uvm_gpu_tracking_semaphore_t) (c : uvm_channel_t)
  : uvm_channel_t :=
  mk_channel (channel_type c) (numGpFifoEntries c) (errorNotifier_status c)
             (cpu_put c) (gpu_get c) (current_pushes_count c)
             (gpfifo_entries c) (available_push_infos c) t (calls c).

Definition set_errorNotifier_status (v : Z) (c : uvm_channel_t) : uvm_channel_t :=
  mk_channel (channel_type c) (numGpFifoEntries c) v
             (cpu_put c) (gpu_get c) (current_pushes_count c)
             (gpfifo_entries c) (available_push_infos c) (tracking_sem c) (calls c).

Definition call (e : event) (c : uvm_channel_t) : uvm_channel_t :=
  mk_channel (channel_type c) (numGpFifoEntries c) (errorNotifier_status c)
             (cpu_put c) (gpu_get c) (current_pushes_count c)
             (gpfifo_entries c) (available_push_infos c) (tracking_sem c)
             (calls c ++ [e]).

(** ** Progress reclamation *)

Inductive uvm_channel_update_mode_t : Type :=
| UVM_CHANNEL_UPDATE_MODE_COMPLETED
| UVM_CHANNEL_UPDATE_MODE_FORCE_ALL.

Definition mode_is_completed (mode : uvm_channel_update_mode_t) : bool :=
  match mode with
  | UVM_CHANNEL_UPDATE_MODE_COMPLETED => true
  | UVM_CHANNEL_UPDATE_MODE_FORCE_ALL => false
  end.

Definition uvm_channel_update_completed_value (channel : uvm_channel_t) : Z :=
  completed_value (tracking_sem channel).

(** The [while] loop of [uvm_channel_update_progress_with_max]. [budget] is
    [max_to_complete - completed_count]; the loop carries the local
    [gpu_get] and the channel (free list and pushbuffer calls change). *)
Fixpoint update_progress_loop (budget : nat) (mode : uvm_channel_update_mode_t)
    (completed cpu_put gpu_get : Z) (channel : uvm_channel_t)
  : result (Z * uvm_channel_t) :=
  match budget with
  | O => Ok (gpu_get, channel)
  | S budget' =>
    if gpu_get =? cpu_put then Ok (gpu_get, channel)
    else
      match gpfifo_entries channel !! Z.to_nat gpu_get with
      | None => Fault (OutOfBounds gpu_get)
      | Some entry =>
        if mode_is_completed mode && (completed <? tracking_semaphore_value entry)
        then Ok (gpu_get, channel)
        else
          match push_info entry with
          | None => Fault NullPointer
          | Some info =>
            let channel := call (uvm_pushbuffer_mark_completed entry) channel in
            let channel :=
              set_available_push_infos (available_push_infos channel ++ [info]) channel in
            update_progress_loop budget' mode completed cpu_put
              (NvU32 (gpu_get + 1) mod numGpFifoEntries channel) channel
          end
      end
  end.

Definition uvm_channel_update_progress_with_max (channel : uvm_channel_t)
    (max_to_complete : Z) (mode : uvm_channel_update_mode_t)
  : result (Z * uvm_channel_t) :=
  let completed := uvm_channel_update_completed_value channel in
  let put := cpu_put channel in
  '(get, channel) ← update_progress_loop (Z.to_nat max_to_complete) mode completed
                      put (gpu_get channel) channel;
  let channel := set_gpu_get get channel in
  let pending_gpfifos :=
    if put >=? get then NvU32 (put - get)
    else NvU32 (NvU32 (numGpFifoEntries channel - get) + put) in
  Ok (pending_gpfifos, channel).

Definition uvm_channel_update_progress (channel : uvm_channel_t)
  : result (Z * uvm_channel_t) :=
  uvm_channel_update_progress_with_max channel 8 UVM_CHANNEL_UPDATE_MODE_COMPLETED.

Definition channel_update_progress_all (channel : uvm_channel_t)
    (mode : uvm_channel_update_mode_t) : result (Z * uvm_channel_t) :=
  uvm_channel_update_progress_with_max channel (numGpFifoEntries channel) mode.

Definition uvm_channel_update_progress_all (channel : uvm_channel_t)
  : result (Z * uvm_channel_t) :=
  channel_update_progress_all channel UVM_CHANNEL_UPDATE_MODE_COMPLETED.

(** ** Claiming a ring slot *)

Definition is_channel_available (channel : uvm_channel_t) : bool :=
  let next_put :=
    NvU32 (NvU32 (cpu_put channel + current_pushes_count channel) + 1)
      mod numGpFifoEntries channel in
  negb (next_put =? gpu_get channel).

Definition try_claim_channel (channel : uvm_channel_t) : bool * uvm_channel_t :=
  if is_channel_available channel
  then (true, set_current_pushes_count
                (NvU32 (current_pushes_count channel + 1)) channel)
  else (false, channel).

(** ** Submission *)

(** [uvm_push_t]. The last three fields are what the collaborators report
    for the push: [uvm_push_get_size] (read after the semaphore release was
    appended), [uvm_pushbuffer_get_offset_for_push] and
    [uvm_pushbuffer_get_gpu_va_for_push]. *)
Record uvm_push_t : Type := mk_push {
  push_info_index : Z;
  channel_tracking_value : Z;
  uvm_push_get_size : Z;
  uvm_pushbuffer_get_offset_for_push : Z;
  uvm_pushbuffer_get_gpu_va_for_push : Z
}.

(** Takes the head of the free list; with an empty list the code reads
    through the NULL that [list_first_entry_or_null] returned. *)
Definition channel_get_available_push_info_index (channel : uvm_channel_t)
  : result (Z * uvm_channel_t) :=
  match available_push_infos channel with
  | [] => Fault NullPointer
  | info :: rest => Ok (info, set_available_push_infos rest channel)
  end.

(** [pushbuffer_status] is the status [uvm_pushbuffer_begin_push] returns. *)
Definition uvm_channel_begin_push (pushbuffer_status : NV_STATUS)
    (channel : uvm_channel_t) (push : uvm_push_t)
  : result (NV_STATUS * uvm_channel_t * uvm_push_t) :=
  match pushbuffer_status with
  | NV_OK =>
    '(index, channel) ← channel_get_available_push_info_index channel;
    Ok (NV_OK, channel,
        mk_push index 0 (uvm_push_get_size push)
                (uvm_pushbuffer_get_offset_for_push push)
                (uvm_pushbuffer_get_gpu_va_for_push push))
  | status => Ok (status, channel, push)
  end.

Definition uvm_channel_end_push (channel : uvm_channel_t) (push : uvm_push_t)
  : result (uvm_channel_t * uvm_push_t) :=
  let new_tracking_value := NvU64 (queued_value (tracking_sem channel) + 1) in
  let channel :=
    set_tracking_sem (mk_sem new_tracking_value (completed_value (tracking_sem channel)))
                     channel in
  let new_payload := NvU32 new_tracking_value in
  let channel := call (ce_semaphore_release new_payload) channel in
  let push_size := uvm_push_get_size push in
  let put := cpu_put channel in
  let new_cpu_put := NvU32 (put + 1) mod numGpFifoEntries channel in
  let entry := mk_entry new_tracking_value (uvm_pushbuffer_get_offset_for_push push)
                        push_size (Some (push_info_index push)) in
  if negb (Z.to_nat put <? length (gpfifo_entries channel))%nat
  then Fault (OutOfBounds put)
  else
    let channel :=
      set_gpfifo_entries (<[Z.to_nat put := entry]> (gpfifo_entries channel)) channel in
    let pushbuffer_va := uvm_pushbuffer_get_gpu_va_for_push push in
    let channel :=
      set_current_pushes_count (NvU32 (current_pushes_count channel - 1)) channel in
    let channel := call (host_set_gpfifo_entry put pushbuffer_va push_size) channel in
    let channel := call mb channel in
    let channel := set_cpu_put new_cpu_put channel in
    let channel := call (host_write_gpu_put new_cpu_put) channel in
    let channel := call (uvm_pushbuffer_end_push entry) channel in
    let channel := call wmb channel in
    Ok (channel,
        mk_push (-1) new_tracking_value push_size
                (uvm_pushbuffer_get_offset_for_push push) pushbuffer_va).

(** ** Health checks and the global fatal status *)

(** Modelled from the spec: the declaration of [UvmGpuCopyEngineCaps]
    ([nv_uvm_interface.h]) is not among the sources. The capability flags
    the code tests are one-bit booleans, [cePceMask] is a 32-bit mask of the
    physical copy engines behind a logical one. *)
Record UvmGpuCopyEngineCaps : Type := mk_caps {
  supported : bool;
  grce : bool;
  shared : bool;
  sysmemRead : bool;
  sysmemWrite : bool;
  sysmem : bool;
  nvlinkP2p : bool;
  p2p : bool;
  cePceMask : Z
}.

(** [uvm_gpu_t], restricted to what this file reads. [ecc_error_notifier]
    is the value behind the pointer [gpu->ecc.error_notifier]; [ce_caps] is
    the array of [UVM_COPY_ENGINE_COUNT_MAX] capability records. *)
Record uvm_gpu_t : Type := mk_gpu {
  ecc_enabled : bool;
  ecc_error_notifier : Z;
  ce_caps : list UvmGpuCopyEngineCaps
}.

Definition uvm_channel_get_status (gpu : uvm_gpu_t) (channel : uvm_channel_t)
  : NV_STATUS :=
  if errorNotifier_status channel =? 0 then NV_OK
  else if ecc_enabled gpu && negb (ecc_error_notifier gpu =? 0) then NV_ERR_ECC_ERROR
  else NV_ERR_RC_ERROR.

(** Modelled from the spec: [uvm_global_set_fatal_error] and
    [uvm_global_get_status] ([uvm8_global.h]) are not among the sources. The
    spec describes the global fatal status as a single shared cell with
    set-once-wins semantics; [fatal] is the content of that cell. *)
Definition uvm_global_set_fatal_error (error : NV_STATUS) (fatal : NV_STATUS)
  : NV_STATUS :=
  match fatal with
  | NV_OK => error
  | _ => fatal
  end.

(** Modelled from the spec: reads the cell written by
    [uvm_global_set_fatal_error]. *)
Definition uvm_global_get_status (fatal : NV_STATUS) : NV_STATUS := fatal.

(** Returns the entry at [gpu_get] when something is still pending. *)
Definition uvm_channel_get_first_pending_entry (channel : uvm_channel_t)
  : result (option uvm_gpfifo_entry_t * uvm_channel_t) :=
  '(pending_count, channel) ←
     channel_update_progress_all channel UVM_CHANNEL_UPDATE_MODE_COMPLETED;
  if pending_count =? 0 then Ok (None, channel)
  else if negb (gpu_get channel =? cpu_put channel) then
    match gpfifo_entries channel !! Z.to_nat (gpu_get channel) with
    | Some entry => Ok (Some entry, channel)
    | None => Fault (OutOfBounds (gpu_get channel))
    end
  else Ok (None, channel).

Definition uvm_channel_get_fatal_entry (channel : uvm_channel_t)
  : result (option uvm_gpfifo_entry_t * uvm_channel_t) :=
  uvm_channel_get_first_pending_entry channel.

(** Returns the status, the channel and the new content of the global fatal
    cell. The error print reads through [fatal_entry->push_info]. *)
Definition uvm_channel_check_errors (gpu : uvm_gpu_t) (channel : uvm_channel_t)
    (fatal : NV_STATUS) : result (NV_STATUS * uvm_channel_t * NV_STATUS) :=
  match uvm_channel_get_status gpu channel with
  | NV_OK => Ok (NV_OK, channel, fatal)
  | status =>
    '(fatal_entry, channel) ← uvm_channel_get_fatal_entry channel;
    match fatal_entry with
    | Some entry =>
      match push_info entry with
      | Some _ => Ok (status, channel, uvm_global_set_fatal_error status fatal)
      | None => Fault NullPointer
      end
    | None => Ok (status, channel, uvm_global_set_fatal_error status fatal)
    end
  end.

(** ** Waiting for a slot *)

(** The [while] loop of [uvm_channel_reserve]: the condition first attempts
    a claim, then tests [status]; one unit of [fuel] is one execution of the
    body. The device-written fields are whatever the channel state holds. *)
Fixpoint reserve_loop (fuel : nat) (gpu : uvm_gpu_t) (channel : uvm_channel_t)
    (fatal : NV_STATUS) (status : NV_STATUS)
  : result (NV_STATUS * uvm_channel_t * NV_STATUS) :=
  let '(claimed, channel) := try_claim_channel channel in
  if claimed then Ok (status, channel, fatal)
  else
    match status with
    | NV_OK =>
      match fuel with
      | O => Fault OutOfFuel
      | S fuel' =>
        '(status, channel, fatal) ← uvm_channel_check_errors gpu channel fatal;
        '(_, channel) ← uvm_channel_update_progress channel;
        reserve_loop fuel' gpu channel fatal status
      end
    | _ => Ok (status, channel, fatal)
    end.

Definition uvm_channel_reserve (fuel : nat) (gpu : uvm_gpu_t)
    (channel : uvm_channel_t) (fatal : NV_STATUS)
  : result (NV_STATUS * uvm_channel_t * NV_STATUS) :=
  let '(claimed, channel') := try_claim_channel channel in
  if claimed then Ok (NV_OK, channel', fatal)
  else
    '(_, channel) ← uvm_channel_update_progress channel;
    reserve_loop fuel gpu channel fatal NV_OK.

(** ** The channel manager *)

(** [uvm_channel_manager_t]: the GPU, every channel in creation order
    ([all_channels_list]; the channels of a pool are those of its type, in
    the same order), and the engine chosen for each type. *)
Record uvm_channel_manager_t : Type := mk_manager {
  manager_gpu : uvm_gpu_t;
  all_channels_list : list uvm_channel_t;
  ce_to_use_by_type : uvm_channel_type_t -> nat
}.

Definition set_all_channels_list (l : list uvm_channel_t) (m : uvm_channel_manager_t)
  : uvm_channel_manager_t :=
  mk_manager (manager_gpu m) l (ce_to_use_by_type m).

(** [uvm_channel_manager_update_progress] over the channel list. *)
Fixpoint manager_update_progress_loop (channels : list uvm_channel_t) (pending_gpfifos : Z)
  : result (Z * list uvm_channel_t) :=
  match channels with
  | [] => Ok (pending_gpfifos, [])
  | channel :: rest =>
    '(pending, channel) ← uvm_channel_update_progress channel;
    '(total, rest) ← manager_update_progress_loop rest (NvU32 (pending_gpfifos + pending));
    Ok (total, channel :: rest)
  end.

Definition uvm_channel_manager_update_progress (manager : uvm_channel_manager_t)
  : result (Z * uvm_channel_manager_t) :=
  '(pending_gpfifos, channels) ←
     manager_update_progress_loop (all_channels_list manager) 0;
  Ok (pending_gpfifos, set_all_channels_list channels manager).

(** The [uvm_for_each_channel] loop of [uvm_channel_manager_check_errors]. *)
Fixpoint manager_check_errors_loop (gpu : uvm_gpu_t) (channels : list uvm_channel_t)
    (fatal : NV_STATUS) : result (NV_STATUS * list uvm_channel_t * NV_STATUS) :=
  match channels with
  | [] => Ok (NV_OK, [], fatal)
  | channel :: rest =>
    '(status, channel, fatal) ← uvm_channel_check_errors gpu channel fatal;
    match status with
    | NV_OK =>
      '(status, rest, fatal) ← manager_check_errors_loop gpu rest fatal;
      Ok (status, channel :: rest, fatal)
    | _ => Ok (status, channel :: rest, fatal)
    end
  end.

Definition uvm_channel_manager_check_errors (manager : uvm_channel_manager_t)
    (fatal : NV_STATUS) : result (NV_STATUS * uvm_channel_manager_t * NV_STATUS) :=
  match uvm_global_get_status fatal with
  | NV_OK =>
    '(status, channels, fatal) ←
       manager_check_errors_loop (manager_gpu manager) (all_channels_list manager) fatal;
    Ok (status, set_all_channels_list channels manager, fatal)
  | status => Ok (status, manager, fatal)
  end.

(** First loop of [uvm_channel_reserve_type]: claim on the first channel of
    the type that has room. [index] is the position of the head of
    [channels] in [all_channels_list]; the result names the claimed channel
    by its position. *)
Fixpoint reserve_type_scan (type : uvm_channel_type_t) (index : nat)
    (channels : list uvm_channel_t) : option nat * list uvm_channel_t :=
  match channels with
  | [] => (None, [])
  | channel :: rest =>
    if uvm_channel_type_eqb (channel_type channel) type then
      let '(claimed, channel') := try_claim_channel channel in
      if claimed then (Some index, channel' :: rest)
      else
        let '(found, rest) := reserve_type_scan type (S index) rest in
        (found, channel :: rest)
    else
      let '(found, rest) := reserve_type_scan type (S index) rest in
      (found, channel :: rest)
  end.

(** One pass of the inner [uvm_for_each_channel_of_type] loop of the
    [while (1)] of [uvm_channel_reserve_type]. [Some (status, out)] is a
    [return]; [None] means the pass ended without returning. *)
Fixpoint reserve_type_pass (gpu : uvm_gpu_t) (type : uvm_channel_type_t) (index : nat)
    (channels : list uvm_channel_t) (fatal : NV_STATUS)
  : result (option (NV_STATUS * option nat) * list uvm_channel_t * NV_STATUS) :=
  match channels with
  | [] => Ok (None, [], fatal)
  | channel :: rest =>
    if uvm_channel_type_eqb (channel_type channel) type then
      '(_, channel) ← uvm_channel_update_progress channel;
      let '(claimed, channel) := try_claim_channel channel in
      if claimed then Ok (Some (NV_OK, Some index), channel :: rest, fatal)
      else
        '(status, channel, fatal) ← uvm_channel_check_errors gpu channel fatal;
        match status with
        | NV_OK =>
          '(ret, rest, fatal) ← reserve_type_pass gpu type (S index) rest fatal;
          Ok (ret, channel :: rest, fatal)
        | _ => Ok (Some (status, None), channel :: rest, fatal)
        end
    else
      '(ret, rest, fatal) ← reserve_type_pass gpu type (S index) rest fatal;
      Ok (ret, channel :: rest, fatal)
  end.

(** The [while (1)] loop; one unit of [fuel] is one pass over the pool. *)
Fixpoint reserve_type_loop (fuel : nat) (gpu : uvm_gpu_t) (type : uvm_channel_type_t)
    (channels : list uvm_channel_t) (fatal : NV_STATUS)
  : result (NV_STATUS * option nat * list uvm_channel_t * NV_STATUS) :=
  match fuel with
  | O => Fault OutOfFuel
  | S fuel' =>
    '(ret, channels, fatal) ← reserve_type_pass gpu type 0 channels fatal;
    match ret with
    | Some (status, channel_out) => Ok (status, channel_out, channels, fatal)
    | None => reserve_type_loop fuel' gpu type channels fatal
    end
  end.

(** Returns the status, [channel_out] (position in [all_channels_list]), the
    manager and the global fatal cell. *)
Definition uvm_channel_reserve_type (fuel : nat) (channel_manager : uvm_channel_manager_t)
    (type : uvm_channel_type_t) (fatal : NV_STATUS)
  : result (NV_STATUS * option nat * uvm_channel_manager_t * NV_STATUS) :=
  match reserve_type_scan type 0 (all_channels_list channel_manager) with
  | (Some index, channels) =>
    Ok (NV_OK, Some index, set_all_channels_list channels channel_manager, fatal)
  | (None, channels) =>
    '(status, channel_out, channels, fatal) ←
       reserve_type_loop fuel (manager_gpu channel_manager) type channels fatal;
    Ok (status, channel_out, set_all_channels_list channels channel_manager, fatal)
  end.

(** ** Copy-engine selection *)

(** [UVM_COPY_ENGINE_COUNT_MAX] is declared outside this file. [ce_caps] is
    an array of exactly that many records, so the number of records of the
    capability table stands for the constant. *)
Definition UVM_COPY_ENGINE_COUNT_MAX (gpu : uvm_gpu_t) : nat := length (ce_caps gpu).

#[global] Instance UvmGpuCopyEngineCaps_inhabited : Inhabited UvmGpuCopyEngineCaps :=
  populate (mk_caps false false false false false false false false 0).

(** Number of bits set in a 32-bit word. *)
Definition hweight32 (w : Z) : Z :=
  fold_right (fun i acc => Z.b2z (Z.testbit w (Z.of_nat i)) + acc) 0 (seq 0 32).

Definition ce_usable_for_channel_type (type : uvm_channel_type_t)
    (cap : UvmGpuCopyEngineCaps) : bool :=
  if negb (supported cap) || grce cap then false
  else
    match type with
    | UVM_CHANNEL_TYPE_CPU_TO_GPU | UVM_CHANNEL_TYPE_GPU_TO_CPU => sysmem cap
    | UVM_CHANNEL_TYPE_GPU_INTERNAL | UVM_CHANNEL_TYPE_MEMOPS => true
    | UVM_CHANNEL_TYPE_GPU_TO_GPU => p2p cap
    | UVM_CHANNEL_TYPE_ANY => false
    end.

(** The stages every type falls through to: usage count, shared, index.
    The differences of [NvU32] values are converted to the [int] returned. *)
Definition compare_ce_default (cap1 cap2 : UvmGpuCopyEngineCaps)
    (ce_index1 ce_index2 : nat) (usage_count : list Z) : Z :=
  let usage1 := usage_count !!! ce_index1 in
  let usage2 := usage_count !!! ce_index2 in
  if negb (usage1 =? usage2) then int_of_NvU32 (NvU32 (usage1 - usage2))
  else if negb (eqb (shared cap1) (shared cap2))
       then Z.b2z (shared cap1) - Z.b2z (shared cap2)
  else int_of_NvU32 (NvU32 (Z.of_nat ce_index1 - Z.of_nat ce_index2)).

(** Negative when the first engine is to be preferred to the second. Both
    indices are below [UVM_COPY_ENGINE_COUNT_MAX] (the code asserts it), so
    the lookups into [ce_caps] and [usage_count] stay inside the arrays. *)
Definition compare_ce_for_channel_type (gpu : uvm_gpu_t) (type : uvm_channel_type_t)
    (ce_index1 ce_index2 : nat) (usage_count : list Z) : Z :=
  let cap1 := ce_caps gpu !!! ce_index1 in
  let cap2 := ce_caps gpu !!! ce_index2 in
  let default := compare_ce_default cap1 cap2 ce_index1 ce_index2 usage_count in
  match type with
  | UVM_CHANNEL_TYPE_CPU_TO_GPU =>
    if negb (eqb (sysmemRead cap1) (sysmemRead cap2))
    then Z.b2z (sysmemRead cap2) - Z.b2z (sysmemRead cap1)
    else if negb (eqb (nvlinkP2p cap1) (nvlinkP2p cap2))
    then Z.b2z (nvlinkP2p cap1) - Z.b2z (nvlinkP2p cap2)
    else default
  | UVM_CHANNEL_TYPE_GPU_TO_CPU =>
    if negb (eqb (sysmemWrite cap1) (sysmemWrite cap2))
    then Z.b2z (sysmemWrite cap2) - Z.b2z (sysmemWrite cap1)
    else if negb (eqb (nvlinkP2p cap1) (nvlinkP2p cap2))
    then Z.b2z (nvlinkP2p cap1) - Z.b2z (nvlinkP2p cap2)
    else default
  | UVM_CHANNEL_TYPE_GPU_TO_GPU =>
    if negb (eqb (nvlinkP2p cap1) (nvlinkP2p cap2))
    then Z.b2z (nvlinkP2p cap2) - Z.b2z (nvlinkP2p cap1)
    else
      let pce_diff := hweight32 (cePceMask cap2) - hweight32 (cePceMask cap1) in
      if nvlinkP2p cap1 && negb (pce_diff =? 0) then pce_diff
      else default
  | UVM_CHANNEL_TYPE_GPU_INTERNAL =>
    let pce_diff := hweight32 (cePceMask cap2) - hweight32 (cePceMask cap1) in
    if negb (pce_diff =? 0) then pce_diff
    else if negb (eqb (nvlinkP2p cap1) (nvlinkP2p cap2))
    then Z.b2z (nvlinkP2p cap1) - Z.b2z (nvlinkP2p cap2)
    else default
  | UVM_CHANNEL_TYPE_MEMOPS => default
  | UVM_CHANNEL_TYPE_ANY => 0
  end.

(** One iteration of the [for] loop of [pick_ce_for_channel_type], for the
    engine [i] and the best engine found so far. *)
Definition pick_ce_step (gpu : uvm_gpu_t) (type : uvm_channel_type_t)
    (usage_count : list Z) (best_ce i : nat) : nat :=
  if negb (ce_usable_for_channel_type type (ce_caps gpu !!! i)) then best_ce
  else if (best_ce =? UVM_COPY_ENGINE_COUNT_MAX gpu)%nat then i
  else if compare_ce_for_channel_type gpu type i best_ce usage_count <? 0 then i
  else best_ce.

(** The value of [best_ce] when the loop ends. *)
Definition pick_best_ce (gpu : uvm_gpu_t) (type : uvm_channel_type_t)
    (usage_count : list Z) : nat :=
  fold_left (pick_ce_step gpu type usage_count)
            (seq 0 (UVM_COPY_ENGINE_COUNT_MAX gpu)) (UVM_COPY_ENGINE_COUNT_MAX gpu).

Definition set_ce_to_use (type : uvm_channel_type_t) (ce : nat)
    (ce_to_use : uvm_channel_type_t -> nat) : uvm_channel_type_t -> nat :=
  fun t => if uvm_channel_type_eqb t type then ce else ce_to_use t.

(** [usage_count] is the caller's array of [UVM_COPY_ENGINE_COUNT_MAX]
    counters; the increment [++usage_count[best_ce]] comes before the store
    into [ce_to_use_by_type]. *)
Definition pick_ce_for_channel_type (gpu : uvm_gpu_t)
    (ce_to_use : uvm_channel_type_t -> nat) (type : uvm_channel_type_t)
    (usage_count : list Z) : result ((uvm_channel_type_t -> nat) * list Z) :=
  let best_ce := pick_best_ce gpu type usage_count in
  match usage_count !! best_ce with
  | None => Fault (OutOfBounds (Z.of_nat best_ce))
  | Some count =>
    Ok (set_ce_to_use type best_ce ce_to_use,
        <[best_ce := NvU32 (count + 1)]> usage_count)
  end.

(** The channel types other than [UVM_CHANNEL_TYPE_ANY], in enumeration
    order: the types the final check and the pool creation loop visit. *)
Definition channel_types : list uvm_channel_type_t :=
  [UVM_CHANNEL_TYPE_CPU_TO_GPU; UVM_CHANNEL_TYPE_GPU_TO_CPU;
   UVM_CHANNEL_TYPE_GPU_INTERNAL; UVM_CHANNEL_TYPE_MEMOPS;
   UVM_CHANNEL_TYPE_GPU_TO_GPU].

(** The order in which [channel_manager_pick_copy_engines] picks. *)
Definition pick_order : list uvm_channel_type_t :=
  [UVM_CHANNEL_TYPE_CPU_TO_GPU; UVM_CHANNEL_TYPE_GPU_TO_CPU;
   UVM_CHANNEL_TYPE_GPU_INTERNAL; UVM_CHANNEL_TYPE_GPU_TO_GPU;
   UVM_CHANNEL_TYPE_MEMOPS].

(** The five calls of [pick_ce_for_channel_type], in sequence. *)
Fixpoint pick_all (gpu : uvm_gpu_t) (types : list uvm_channel_type_t)
    (ce_to_use : uvm_channel_type_t -> nat) (usage_count : list Z)
  : result ((uvm_channel_type_t -> nat) * list Z) :=
  match types with
  | [] => Ok (ce_to_use, usage_count)
  | type :: rest =>
    '(ce_to_use, usage_count) ← pick_ce_for_channel_type gpu ce_to_use type usage_count;
    pick_all gpu rest ce_to_use usage_count
  end.

(** Returns the status and the content of [manager->ce_to_use_by_type]. *)
Definition channel_manager_pick_copy_engines (gpu : uvm_gpu_t)
  : result (NV_STATUS * (uvm_channel_type_t -> nat)) :=
  let usage_count := replicate (UVM_COPY_ENGINE_COUNT_MAX gpu) 0 in
  let ce_to_use := fun _ : uvm_channel_type_t => UVM_COPY_ENGINE_COUNT_MAX gpu in
  '(ce_to_use, _) ← pick_all gpu pick_order ce_to_use usage_count;
  if forallb (fun type => negb (ce_to_use type =? UVM_COPY_ENGINE_COUNT_MAX gpu)%nat)
             channel_types
  then Ok (NV_OK, ce_to_use)
  else Ok (NV_ERR_NOT_SUPPORTED, ce_to_use).

(** ** Manager construction *)

(** What the allocation, pushbuffer, procfs and channel-creation
    collaborators answer during one construction. [create_channel_pool]
    gives, for a type and the engines chosen, the status and the channels
    that were linked into the manager before it returned. *)
Record construction_env : Type := mk_env {
  uvm_kvmalloc_zero_ok : bool;
  uvm_pushbuffer_create_common : NV_STATUS;
  manager_create_procfs_dirs : NV_STATUS;
  create_channel_pool :
    uvm_channel_type_t -> (uvm_channel_type_t -> nat) -> NV_STATUS * list uvm_channel_t;
  init_channels : list uvm_channel_t -> NV_STATUS * list uvm_channel_t;
  manager_create_procfs : NV_STATUS
}.

(** The pool creation loop of [uvm_channel_manager_create_common]. *)
Fixpoint create_pools (env : construction_env) (types : list uvm_channel_type_t)
    (ce_to_use : uvm_channel_type_t -> nat) (channels : list uvm_channel_t)
  : NV_STATUS * list uvm_channel_t :=
  match types with
  | [] => (NV_OK, channels)
  | type :: rest =>
    match create_channel_pool env type ce_to_use with
    | (NV_OK, created) => create_pools env rest ce_to_use (channels ++ created)
    | (status, created) => (status, channels ++ created)
    end
  end.

(** Returns the status and [*channel_manager_out]; on every error path the
    partially built manager is destroyed and nothing is returned. *)
Definition uvm_channel_manager_create_common (env : construction_env) (gpu : uvm_gpu_t)
    (with_procfs : bool) : result (NV_STATUS * option uvm_channel_manager_t) :=
  if negb (uvm_kvmalloc_zero_ok env) then Ok (NV_ERR_NO_MEMORY, None)
  else
    match uvm_pushbuffer_create_common env with
    | NV_OK =>
      match (if with_procfs then manager_create_procfs_dirs env else NV_OK) with
      | NV_OK =>
        '(status, ce_to_use) ← channel_manager_pick_copy_engines gpu;
        match status with
        | NV_OK =>
          match create_pools env channel_types ce_to_use [] with
          | (NV_OK, channels) =>
            match init_channels env channels with
            | (NV_OK, channels) =>
              match (if with_procfs then manager_create_procfs env else NV_OK) with
              | NV_OK => Ok (NV_OK, Some (mk_manager gpu channels ce_to_use))
              | status => Ok (status, None)
              end
            | (status, _) => Ok (status, None)
            end
          | (status, _) => Ok (status, None)
          end
        | _ => Ok (status, None)
        end
      | status => Ok (status, None)
      end
    | status => Ok (status, None)
    end.

(** ** Selection and construction past the stray increment

    The same selection as a build without bounds checking executes it.
    [usage_count] is a local array of [UVM_COPY_ENGINE_COUNT_MAX] words;
    when no engine is usable for a type the increment
    [++usage_count[best_ce]] is made at index [UVM_COPY_ENGINE_COUNT_MAX]
    and falls on the word that follows the array in the frame. [past_end]
    is that word: the increment changes it and leaves the array, the
    capability table and [ce_to_use_by_type] alone, and the store into
    [ce_to_use_by_type] that follows is executed. *)
Definition pick_ce_for_channel_type_unchecked (gpu : uvm_gpu_t)
    (ce_to_use : uvm_channel_type_t -> nat) (type : uvm_channel_type_t)
    (usage_count : list Z) (past_end : Z)
  : (uvm_channel_type_t -> nat) * list Z * Z :=
  let best_ce := pick_best_ce gpu type usage_count in
  match usage_count !! best_ce with
  | Some count =>
    (set_ce_to_use type best_ce ce_to_use,
     <[best_ce := NvU32 (count + 1)]> usage_count, past_end)
  | None =>
    (set_ce_to_use type best_ce ce_to_use, usage_count, NvU32 (past_end + 1))
  end.

Fixpoint pick_all_unchecked (gpu : uvm_gpu_t) (types : list uvm_channel_type_t)
    (ce_to_use : uvm_channel_type_t -> nat) (usage_count : list Z) (past_end : Z)
  : (uvm_channel_type_t -> nat) * list Z * Z :=
  match types with
  | [] => (ce_to_use, usage_count, past_end)
  | type :: rest =>
    let '(ce_to_use, usage_count, past_end) :=
      pick_ce_for_channel_type_unchecked gpu ce_to_use type usage_count past_end in
    pick_all_unchecked gpu rest ce_to_use usage_count past_end
  end.

(** [channel_manager_pick_copy_engines], with its final check. *)
Definition channel_manager_pick_copy_engines_unchecked (gpu : uvm_gpu_t) (past_end : Z)
  : NV_STATUS * (uvm_channel_type_t -> nat) :=
  let usage_count := replicate (UVM_COPY_ENGINE_COUNT_MAX gpu) 0 in
  let ce_to_use := fun _ : uvm_channel_type_t => UVM_COPY_ENGINE_COUNT_MAX gpu in
  let '(ce_to_use, _, _) :=
    pick_all_unchecked gpu pick_order ce_to_use usage_count past_end in
  if forallb (fun type => negb (ce_to_use type =? UVM_COPY_ENGINE_COUNT_MAX gpu)%nat)
             channel_types
  then (NV_OK, ce_to_use)
  else (NV_ERR_NOT_SUPPORTED, ce_to_use).


(** ** Waiting for the manager, probing, teardown *)

(** The [while] loop of [uvm_channel_manager_wait]: the condition first
    runs a reclamation over every channel, then tests [status]; one unit of
    [fuel] is one execution of the body. *)
Fixpoint manager_wait_loop (fuel : nat) (manager : uvm_channel_manager_t)
    (fatal : NV_STATUS) (status : NV_STATUS)
  : result (NV_STATUS * uvm_channel_manager_t * NV_STATUS) :=
  '(pending_gpfifos, manager) ← uvm_channel_manager_update_progress manager;
  if 0 <? pending_gpfifos then
    match status with
    | NV_OK =>
      match fuel with
      | O => Fault OutOfFuel
      | S fuel' =>
        '(status, manager, fatal) ← uvm_channel_manager_check_errors manager fatal;
        manager_wait_loop fuel' manager fatal status
      end
    | _ => Ok (status, manager, fatal)
    end
  else Ok (status, manager, fatal).

Definition uvm_channel_manager_wait (fuel : nat) (manager : uvm_channel_manager_t)
    (fatal : NV_STATUS) : result (NV_STATUS * uvm_channel_manager_t * NV_STATUS) :=
  '(pending_gpfifos, manager) ← uvm_channel_manager_update_progress manager;
  if pending_gpfifos =? 0 then uvm_channel_manager_check_errors manager fatal
  else manager_wait_loop fuel manager fatal NV_OK.

(** The scan of [uvm_channel_manager_find_available_channel]; the channel
    found is named by its position in [all_channels_list]. *)
Fixpoint find_available_channel (index : nat) (channels : list uvm_channel_t)
  : option nat :=
  match channels with
  | [] => None
  | channel :: rest =>
    if is_channel_available channel then Some index
    else find_available_channel (S index) rest
  end.

Definition uvm_channel_manager_find_available_channel
    (channel_manager : uvm_channel_manager_t) : option nat :=
  find_available_channel 0 (all_channels_list channel_manager).

(** [destroy_channel], as far as the channel's bookkeeping goes: a channel
    that ever queued work has its remaining entries forced out of the
    pushbuffer. The result is the structure as it stands when it is freed
    ([None] for the NULL argument); the releases of the procfs entries, of
    the RM channel and of the semaphore are not part of it. *)
Definition destroy_channel (channel : option uvm_channel_t)
  : result (option uvm_channel_t) :=
  match channel with
  | None => Ok None
  | Some channel =>
    if 0 <? queued_value (tracking_sem channel) then
      '(_, channel) ←
         channel_update_progress_all channel UVM_CHANNEL_UPDATE_MODE_FORCE_ALL;
      Ok (Some channel)
    else Ok (Some channel)
  end.

(** The [list_for_each_entry_safe] loop of [uvm_channel_manager_destroy]:
    the channels, each as it stood when freed. *)
Fixpoint manager_destroy_loop (channels : list uvm_channel_t)
  : result (list uvm_channel_t) :=
  match channels with
  | [] => Ok []
  | channel :: rest =>
    freed ← destroy_channel (Some channel);
    rest ← manager_destroy_loop rest;
    Ok (match freed with Some channel => channel :: rest | None => rest end)
  end.

Definition uvm_channel_manager_destroy (channel_manager : option uvm_channel_manager_t)
  : result (list uvm_channel_t) :=
  match channel_manager with
  | None => Ok []
  | Some channel_manager => manager_destroy_loop (all_channels_list channel_manager)
  end.

(** ** Listing pushes *)

(** One line printed by [channel_print_pushes]: the label ("finished" when
    [true], "pending" otherwise), the push-info slot whose description and
    source location are printed, and the value released. *)
Record printed_push : Type := mk_printed {
  printed_finished : bool;
  printed_push_info : Z;
  printed_value : Z
}.

(** The [for] loop of [channel_print_pushes], from [gpu_get] to [cpu_put];
    one unit of [fuel] is one iteration. The sum compared with the completed
    value is an [NvU64] sum. *)
Fixpoint print_pushes_loop (fuel : nat) (completed finished_pushes_count : Z)
    (cpu_put gpu_get : Z) (channel : uvm_channel_t) : result (list printed_push) :=
  if gpu_get =? cpu_put then Ok []
  else
    match fuel with
    | O => Fault OutOfFuel
    | S fuel' =>
      match gpfifo_entries channel !! Z.to_nat gpu_get with
      | None => Fault (OutOfBounds gpu_get)
      | Some entry =>
        let next := NvU32 (gpu_get + 1) mod numGpFifoEntries channel in
        if NvU64 (tracking_semaphore_value entry + finished_pushes_count) <=? completed
        then print_pushes_loop fuel' completed finished_pushes_count cpu_put next channel
        else
          match push_info entry with
          | None => Fault NullPointer
          | Some info =>
            lines ← print_pushes_loop fuel' completed finished_pushes_count
                      cpu_put next channel;
            Ok (mk_printed (tracking_semaphore_value entry <=? completed) info
                           (tracking_semaphore_value entry) :: lines)
          end
      end
    end.

Definition channel_print_pushes (fuel : nat) (channel : uvm_channel_t)
    (finished_pushes_count : Z) : result (list printed_push) :=
  let completed := uvm_channel_update_completed_value channel in
  print_pushes_loop fuel completed finished_pushes_count
                    (cpu_put channel) (gpu_get channel) channel.

Definition uvm_channel_print_pending_pushes (fuel : nat) (channel : uvm_channel_t)
  : result (list printed_push) :=
  channel_print_pushes fuel channel 0.

(** [nv_procfs_read_channel_pushes]: up to five finished pushes for context. *)
Definition nv_procfs_read_channel_pushes (fuel : nat) (channel : uvm_channel_t)
  : result (list printed_push) :=
  channel_print_pushes fuel channel 5.

(** * Vocabulary of the properties *)

(** ** Ring geometry *)

(** Number of entries between [gpu_get] and [cpu_put]. *)
Definition pending_count (c : uvm_channel_t) : Z :=
  (cpu_put c - gpu_get c) mod numGpFifoEntries c.

(** The ring array has [numGpFifoEntries] cells and both cursors index it. *)
Definition ring_wf (c : uvm_channel_t) : Prop :=
  0 < numGpFifoEntries c < 2^32 /\
  Z.of_nat (length (gpfifo_entries c)) = numGpFifoEntries c /\
  0 <= cpu_put c < numGpFifoEntries c /\
  0 <= gpu_get c < numGpFifoEntries c.

(** The cells at ring indices [start], [start + 1], ... ([n] of them). *)
Definition ring_window (entries : list uvm_gpfifo_entry_t) (N start : Z) (n : nat)
  : list (option uvm_gpfifo_entry_t) :=
  map (fun k => entries !! Z.to_nat ((start + Z.of_nat k) mod N)) (seq 0 n).

(** [pend] is the content of the ring from [gpu_get] up to [cpu_put],
    oldest entry first. *)
Definition pending_entries (c : uvm_channel_t) (pend : list uvm_gpfifo_entry_t) : Prop :=
  Z.of_nat (length pend) = pending_count c /\
  ring_window (gpfifo_entries c) (numGpFifoEntries c) (gpu_get c) (length pend)
  = map Some pend.

Definition bound (e : uvm_gpfifo_entry_t) : Prop := is_Some (push_info e).

(** The channel after the entries [done] were retired, apart from
    [gpu_get]: their slots are appended to the free list and the pushbuffer
    is told about each of them, in order. *)
Definition retire_entries (done : list uvm_gpfifo_entry_t) (c : uvm_channel_t)
  : uvm_channel_t :=
  mk_channel (channel_type c) (numGpFifoEntries c) (errorNotifier_status c)
             (cpu_put c) (gpu_get c) (current_pushes_count c)
             (gpfifo_entries c)
             (available_push_infos c ++ omap push_info done)
             (tracking_sem c)
             (calls c ++ map uvm_pushbuffer_mark_completed done).

(** How many of the pending entries one reclamation retires. *)
Fixpoint retire_count (budget : nat) (mode : uvm_channel_update_mode_t) (completed : Z)
    (pend : list uvm_gpfifo_entry_t) : nat :=
  match budget, pend with
  | S budget', e :: rest =>
    if mode_is_completed mode && (completed <? tracking_semaphore_value e) then O
    else S (retire_count budget' mode completed rest)
  | _, _ => O
  end.

(** ** Histories *)

(** Entries handed to [uvm_pushbuffer_end_push], in submission order. *)
Definition submitted (tr : list event) : list uvm_gpfifo_entry_t :=
  omap (fun ev => match ev with uvm_pushbuffer_end_push e => Some e | _ => None end) tr.

(** Entries handed to [uvm_pushbuffer_mark_completed], in retirement order. *)
Definition retired (tr : list event) : list uvm_gpfifo_entry_t :=
  omap (fun ev => match ev with uvm_pushbuffer_mark_completed e => Some e | _ => None end) tr.

(** ** Reachable channel states *)

(** The channel [create_channel] hands out when RM reports [N] ring
    entries: a zeroed structure, zeroed [gpfifo_entries], and every
    [push_infos] slot linked into the free list in index order. *)
Definition created_channel (type : uvm_channel_type_t) (N : Z) : uvm_channel_t :=
  mk_channel type N 0 0 0 0
             (replicate (Z.to_nat N) (mk_entry 0 0 0 None))
             (map Z.of_nat (seq 0 (Z.to_nat N)))
             (mk_sem 0 0) [].

(** What the device may do on its own: write the tracking semaphore and
    the error notifier. *)
Definition device_writes (completed status : Z) (c : uvm_channel_t) : uvm_channel_t :=
  set_errorNotifier_status status
    (set_tracking_sem (mk_sem (queued_value (tracking_sem c)) completed) c).

(** One operation on a channel. A push is ended only on a channel that was
    claimed for it (the [UVM_ASSERT] before the decrement). *)
Inductive step : uvm_channel_t -> uvm_channel_t -> Prop :=
| step_claim c :
    step c (snd (try_claim_channel c))
| step_begin_push c pushbuffer_status push status c' push' :
    uvm_channel_begin_push pushbuffer_status c push = Ok (status, c', push') ->
    step c c'
| step_end_push c push c' push' :
    0 < current_pushes_count c ->
    uvm_channel_end_push c push = Ok (c', push') ->
    step c c'
| step_update_progress c max_to_complete mode pending c' :
    uvm_channel_update_progress_with_max c max_to_complete mode = Ok (pending, c') ->
    step c c'
| step_device c completed status :
    step c (device_writes completed status c).

Inductive reachable (type : uvm_channel_type_t) (N : Z) : uvm_channel_t -> Prop :=
| reachable_created :
    0 < N -> 2 * N <= 2^32 ->
    reachable type N (created_channel type N)
| reachable_step c c' :
    reachable type N c -> step c c' -> reachable type N c'.

(** The tracking values handed out so far are 1, 2, 3, ... (as [NvU64]),
    and every submitted entry carries a slot. *)
Definition tracking_values_ok (c : uvm_channel_t) : Prop :=
  queued_value (tracking_sem c) = NvU64 (Z.of_nat (length (submitted (calls c)))) /\
  forall i e, submitted (calls c) !! i = Some e ->
              tracking_semaphore_value e = NvU64 (Z.of_nat i + 1) /\ bound e.

Definition channel_inv (c : uvm_channel_t) : Prop :=
  ring_wf c /\
  2 * numGpFifoEntries c <= 2^32 /\
  0 <= current_pushes_count c /\
  current_pushes_count c + pending_count c <= numGpFifoEntries c - 1 /\
  (exists pend, pending_entries c pend /\
                submitted (calls c) = retired (calls c) ++ pend) /\
  tracking_values_ok c.

(** ** Engine ranking *)

(** Engine [i] exists and may back a channel of type [type]. *)
Definition eligible (gpu : uvm_gpu_t) (type : uvm_channel_type_t) (i : nat) : Prop :=
  (i < UVM_COPY_ENGINE_COUNT_MAX gpu)%nat /\
  ce_usable_for_channel_type type (ce_caps gpu !!! i) = true.

(** Lexicographic order on rank vectors: the first component that differs
    decides. *)
Fixpoint lex_lt (a b : list Z) : Prop :=
  match a, b with
  | x :: a', y :: b' => x < y \/ (x = y /\ lex_lt a' b')
  | _, _ => False
  end.

(** The rank of engine [i] for a type, smaller being better, one component
    per stage of the comparison as the code performs it. *)
Definition ce_rank (gpu : uvm_gpu_t) (type : uvm_channel_type_t) (usage_count : list Z)
    (i : nat) : list Z :=
  let cap := ce_caps gpu !!! i in
  let default := [usage_count !!! i; Z.b2z (shared cap); Z.of_nat i] in
  match type with
  | UVM_CHANNEL_TYPE_CPU_TO_GPU =>
    Z.b2z (negb (sysmemRead cap)) :: Z.b2z (nvlinkP2p cap) :: default
  | UVM_CHANNEL_TYPE_GPU_TO_CPU =>
    Z.b2z (negb (sysmemWrite cap)) :: Z.b2z (nvlinkP2p cap) :: default
  | UVM_CHANNEL_TYPE_GPU_INTERNAL =>
    - hweight32 (cePceMask cap) :: Z.b2z (nvlinkP2p cap) :: default
  | UVM_CHANNEL_TYPE_GPU_TO_GPU =>
    Z.b2z (negb (nvlinkP2p cap))
      :: (if nvlinkP2p cap then - hweight32 (cePceMask cap) else 0) :: default
  | UVM_CHANNEL_TYPE_MEMOPS => default
  | UVM_CHANNEL_TYPE_ANY => []
  end.

(** The usage counters after the engines [assigned] were picked: for each
    engine, the number of times it occurs in [assigned]. *)
Definition usage_after (gpu : uvm_gpu_t) (assigned : list nat) : list Z :=
  (fun j => Z.of_nat (count_occ Nat.eq_dec assigned j))
    <$> seq 0 (UVM_COPY_ENGINE_COUNT_MAX gpu).

(** [best] is eligible and ranks strictly before every other eligible
    engine. *)
Definition winner (gpu : uvm_gpu_t) (type : uvm_channel_type_t) (usage_count : list Z)
    (best : nat) : Prop :=
  eligible gpu type best /\
  forall j, eligible gpu type j -> j <> best ->
            lex_lt (ce_rank gpu type usage_count best) (ce_rank gpu type usage_count j).

(** State of the scan of [pick_ce_for_channel_type] after the engines
    below [n]: either none of them is usable and [best] still holds
    [UVM_COPY_ENGINE_COUNT_MAX], or [best] is the usable engine that ranks
    before the other usable ones below [n]. *)
Definition best_of_prefix (gpu : uvm_gpu_t) (type : uvm_channel_type_t)
    (usage_count : list Z) (n best : nat) : Prop :=
  (best = UVM_COPY_ENGINE_COUNT_MAX gpu /\
   forall j, (j < n)%nat ->
             ce_usable_for_channel_type type (ce_caps gpu !!! j) = false) \/
  ((best < n)%nat /\
   ce_usable_for_channel_type type (ce_caps gpu !!! best) = true /\
   forall j, (j < n)%nat ->
             ce_usable_for_channel_type type (ce_caps gpu !!! j) = true ->
             j <> best ->
             lex_lt (ce_rank gpu type usage_count best) (ce_rank gpu type usage_count j)).

(** *** The ranking in the words of the specification

    "Ranking, evaluated stage by stage until one discriminates:
    type-specific primary metric (fastest relevant throughput capability,
    or most physical copy units for GpuInternal, or peer-link preference
    for GpuToGpu), secondary preference against consuming peer-capable
    engines, ascending global usage count, preference for engines that do
    not share physical units with others, lowest index as final tie-break."
    Each stage is negative when it prefers the first engine. *)
Definition spec_stage_primary (type : uvm_channel_type_t)
    (cap1 cap2 : UvmGpuCopyEngineCaps) : Z :=
  match type with
  | UVM_CHANNEL_TYPE_CPU_TO_GPU => Z.b2z (sysmemRead cap2) - Z.b2z (sysmemRead cap1)
  | UVM_CHANNEL_TYPE_GPU_TO_CPU => Z.b2z (sysmemWrite cap2) - Z.b2z (sysmemWrite cap1)
  | UVM_CHANNEL_TYPE_GPU_INTERNAL =>
    hweight32 (cePceMask cap2) - hweight32 (cePceMask cap1)
  | UVM_CHANNEL_TYPE_GPU_TO_GPU => Z.b2z (nvlinkP2p cap2) - Z.b2z (nvlinkP2p cap1)
  | UVM_CHANNEL_TYPE_MEMOPS | UVM_CHANNEL_TYPE_ANY => 0
  end.

Definition spec_stage_against_peer (cap1 cap2 : UvmGpuCopyEngineCaps) : Z :=
  Z.b2z (nvlinkP2p cap1) - Z.b2z (nvlinkP2p cap2).

Definition spec_stage_usage (usage_count : list Z) (i1 i2 : nat) : Z :=
  usage_count !!! i1 - usage_count !!! i2.

Definition spec_stage_not_shared (cap1 cap2 : UvmGpuCopyEngineCaps) : Z :=
  Z.b2z (shared cap1) - Z.b2z (shared cap2).

Definition spec_stage_index (i1 i2 : nat) : Z := Z.of_nat i1 - Z.of_nat i2.

(** The verdict of the first stage that discriminates. *)
Fixpoint first_discriminating (stages : list Z) : Z :=
  match stages with
  | [] => 0
  | verdict :: rest => if verdict =? 0 then first_discriminating rest else verdict
  end.

Definition spec_compare_ce (gpu : uvm_gpu_t) (type : uvm_channel_type_t)
    (i1 i2 : nat) (usage_count : list Z) : Z :=
  let cap1 := ce_caps gpu !!! i1 in
  let cap2 := ce_caps gpu !!! i2 in
  first_discriminating
    [spec_stage_primary type cap1 cap2;
     spec_stage_against_peer cap1 cap2;
     spec_stage_usage usage_count i1 i2;
     spec_stage_not_shared cap1 cap2;
     spec_stage_index i1 i2].

(** The winner of the specification's ranking among the eligible engines,
    found by the same scan as the code's. *)
Definition spec_pick_best_ce (gpu : uvm_gpu_t) (type : uvm_channel_type_t)
    (usage_count : list Z) : nat :=
  fold_left
    (fun best_ce i =>
       if negb (ce_usable_for_channel_type type (ce_caps gpu !!! i)) then best_ce
       else if (best_ce =? UVM_COPY_ENGINE_COUNT_MAX gpu)%nat then i
       else if spec_compare_ce gpu type i best_ce usage_count <? 0 then i
       else best_ce)
    (seq 0 (UVM_COPY_ENGINE_COUNT_MAX gpu)) (UVM_COPY_ENGINE_COUNT_MAX gpu).

(** ** Example states *)

Definition example_gpu : uvm_gpu_t := mk_gpu false 0 [].

(** A fresh channel of capacity 4 on which one slot was claimed. *)
Definition example_claimed : uvm_channel_t :=
  snd (try_claim_channel (created_channel UVM_CHANNEL_TYPE_CPU_TO_GPU 4)).

Definition example_push : uvm_push_t := mk_push 0 0 16 0 4096.

(** A fresh channel of capacity 4 whose error notifier the device has set. *)
Definition example_faulted : uvm_channel_t :=
  device_writes 0 1 (created_channel UVM_CHANNEL_TYPE_CPU_TO_GPU 4).

(** A ring of capacity 16 with ten pending entries that wrap around the end
    of the array (cells 14, 15, 0, ..., 7), all of them complete. *)
Definition example_ten_pending : list uvm_gpfifo_entry_t :=
  map (fun k => mk_entry (Z.of_nat k + 1) 0 16 (Some (Z.of_nat k))) (seq 0 10).

Definition example_ten : uvm_channel_t :=
  mk_channel UVM_CHANNEL_TYPE_CPU_TO_GPU 16 0 8 14 0
    (map (fun i => mk_entry ((Z.of_nat i + 2) mod 16 + 1) 0 16
                            (Some ((Z.of_nat i + 2) mod 16)))
         (seq 0 16))
    [10; 11; 12; 13; 14; 15]
    (mk_sem 10 10) [].

(** Two claims and two submissions on a fresh channel of capacity 4, then
    the device completes the first submission and a reclamation runs. *)
Definition example_claimed_twice : uvm_channel_t :=
  snd (try_claim_channel example_claimed).

Definition example_submitted_once : uvm_channel_t :=
  match uvm_channel_end_push example_claimed_twice example_push with
  | Ok (c, _) => c
  | Fault _ => example_claimed_twice
  end.

Definition example_submitted : uvm_channel_t :=
  match uvm_channel_end_push example_submitted_once example_push with
  | Ok (c, _) => c
  | Fault _ => example_submitted_once
  end.

Definition example_retired : uvm_channel_t :=
  match uvm_channel_update_progress (device_writes 1 0 example_submitted) with
  | Ok (_, c) => c
  | Fault _ => example_submitted
  end.

(** A manager with the faulted channel and a healthy one. *)
Definition example_manager : uvm_channel_manager_t :=
  mk_manager example_gpu
             [example_faulted; created_channel UVM_CHANNEL_TYPE_GPU_TO_CPU 4]
             (fun _ => 0%nat).

(** Two engines fit for every type; engine 0 alone is NVLINK-capable. *)
Definition example_two_engines : uvm_gpu_t :=
  mk_gpu false 0
         [mk_caps true false false true true true true true 1;
          mk_caps true false false true true true false true 1].

(** Two engines, both unsupported: no type has an eligible engine. *)
Definition example_no_engine : uvm_gpu_t :=
  mk_gpu false 0
         [mk_caps false false false false false false false false 0;
          mk_caps false false false false false false false false 0].

(** Allocation, pushbuffer, procfs and channel creation all succeed. *)
Definition example_env : construction_env :=
  mk_env true NV_OK NV_OK
         (fun type _ => (NV_OK, [created_channel type 4; created_channel type 4]))
         (fun channels => (NV_OK, channels))
         NV_OK.

(** Three claims and three submissions on a fresh channel of capacity 4,
    nothing completed. *)
Definition example_full : uvm_channel_t :=
  let claim := fun c => snd (try_claim_channel c) in
  let submit := fun c => match uvm_channel_end_push c example_push with
                         | Ok (c', _) => c'
                         | Fault _ => c
                         end in
  submit (submit (submit (claim (claim example_claimed)))).

(** Six engines fit for every type; engine 2 alone reads system memory
    fast and shares no physical engine. *)
Definition example_six_engines : uvm_gpu_t :=
  let plain := mk_caps true false true false true true false true 1 in
  mk_gpu false 0
         [plain; plain; mk_caps true false false true true true false true 1;
          plain; plain; plain].

(** Two claims on a fresh channel of capacity 4, a push begun and ended on
    the first, a push begun on the second: slot 0 is held by the pending
    entry, slot 1 by the push in flight. *)
Definition example_begun (c : uvm_channel_t) : uvm_channel_t * uvm_push_t :=
  match uvm_channel_begin_push NV_OK c example_push with
  | Ok (_, c', push') => (c', push')
  | Fault _ => (c, example_push)
  end.

Definition example_ended (s : uvm_channel_t * uvm_push_t) : uvm_channel_t :=
  match uvm_channel_end_push (fst s) (snd s) with
  | Ok (c', _) => c'
  | Fault _ => fst s
  end.

Definition example_busy : uvm_channel_t :=
  fst (example_begun (example_ended (example_begun example_claimed_twice))).

(** ** Vocabulary of the further properties *)

(** [k] claim attempts in a row. *)
Definition claim_times (k : nat) (c : uvm_channel_t) : uvm_channel_t :=
  Nat.iter k (fun c => snd (try_claim_channel c)) c.

(** What a reclamation or a health check leaves alone: everything but
    [gpu_get], the free list and the record of calls. *)
Definition same_ring (c c' : uvm_channel_t) : Prop :=
  channel_type c' = channel_type c /\
  numGpFifoEntries c' = numGpFifoEntries c /\
  errorNotifier_status c' = errorNotifier_status c /\
  cpu_put c' = cpu_put c /\
  current_pushes_count c' = current_pushes_count c /\
  gpfifo_entries c' = gpfifo_entries c /\
  tracking_sem c' = tracking_sem c.

(** What a successful claim changes: the count of claimed slots, by one. *)
Definition claimed_on (c c' : uvm_channel_t) : Prop :=
  channel_type c' = channel_type c /\
  numGpFifoEntries c' = numGpFifoEntries c /\
  errorNotifier_status c' = errorNotifier_status c /\
  cpu_put c' = cpu_put c /\
  current_pushes_count c' = NvU32 (current_pushes_count c + 1) /\
  gpfifo_entries c' = gpfifo_entries c /\
  tracking_sem c' = tracking_sem c.

(** A channel in a state the protocol can produce, whatever its type and
    capacity. *)
Definition reachable_channel (c : uvm_channel_t) : Prop :=
  exists type N, reachable type N c.

(** A ring with nothing pending. *)
Definition idle (c : uvm_channel_t) : Prop := gpu_get c = cpu_put c.


(** The push-info slots held by the entries that are submitted and not yet
    retired, oldest first. *)
Definition pending_slots (c : uvm_channel_t) : list Z :=
  omap push_info (drop (length (retired (calls c))) (submitted (calls c))).


(** The line [channel_print_pushes] prints for an entry, and the lines it
    prints for a run of entries: those whose value, advanced by
    [finished_pushes_count], is beyond the completed value. *)
Definition print_line (completed : Z) (e : uvm_gpfifo_entry_t) : printed_push :=
  mk_printed (tracking_semaphore_value e <=? completed)
             (default 0 (push_info e))
             (tracking_semaphore_value e).

Definition printed_lines (completed finished_pushes_count : Z)
    (pend : list uvm_gpfifo_entry_t) : list printed_push :=
  map (print_line completed)
      (List.filter
         (fun e => negb (tracking_semaphore_value e + finished_pushes_count <=? completed))
         pend).

(** The protocol with its pushes: [protocol type N c fl] when the channel
    state [c] is produced by a run in which every push is begun on a slot
    claimed for it and ended once, and [fl] lists the [push_info_index] of
    the pushes that were begun and not yet ended. *)
Inductive protocol (type : uvm_channel_type_t) (N : Z)
  : uvm_channel_t -> list Z -> Prop :=
| protocol_created :
    0 < N -> 2 * N <= 2^32 ->
    protocol type N (created_channel type N) []
| protocol_claim c fl :
    protocol type N c fl ->
    protocol type N (snd (try_claim_channel c)) fl
| protocol_begin_push c fl push c' push' :
    protocol type N c fl ->
    Z.of_nat (length fl) < current_pushes_count c ->
    uvm_channel_begin_push NV_OK c push = Ok (NV_OK, c', push') ->
    protocol type N c' (push_info_index push' :: fl)
| protocol_end_push c fl1 fl2 push c' push' :
    protocol type N c (fl1 ++ push_info_index push :: fl2) ->
    uvm_channel_end_push c push = Ok (c', push') ->
    protocol type N c' (fl1 ++ fl2)
| protocol_update_progress c fl max_to_complete mode pending c' :
    protocol type N c fl ->
    uvm_channel_update_progress_with_max c max_to_complete mode = Ok (pending, c') ->
    protocol type N c' fl
| protocol_device c fl completed status :
    protocol type N c fl ->
    protocol type N (device_writes completed status c) fl.

(** * Properties *)

(** ** Machine integers *)

Lemma NvU32_small x : 0 <= x < 2^32 -> NvU32 x = x.
Proof. intros H. unfold NvU32. apply Z.mod_small. exact H. Qed.

Lemma NvU64_small x : 0 <= x < 2^64 -> NvU64 x = x.
Proof. intros H. unfold NvU64. apply Z.mod_small. exact H. Qed.

Lemma int_of_NvU32_small x : - 2^31 <= x < 2^31 -> int_of_NvU32 (NvU32 x) = x.
Proof.
  intros H. unfold int_of_NvU32, NvU32. rewrite Z.mod_mod by lia.
  destruct (Z_lt_le_dec x 0) as [Hneg|Hpos].
  - replace (x mod 2^32) with (x + 2^32).
    + destruct (Z.ltb_spec (x + 2^32) (2^31)); lia.
    + apply Z.mod_unique with (q := -1); lia.
  - rewrite Z.mod_small by lia.
    destruct (Z.ltb_spec x (2^31)); lia.
Qed.

(** ** Ring windows *)

Lemma ring_window_length es N s n : length (ring_window es N s n) = n.
Proof. unfold ring_window. rewrite length_map, length_seq. reflexivity. Qed.

Lemma ring_window_cons es N s n :
  ring_window es N s (S n) = es !! Z.to_nat (s mod N) :: ring_window es N (s + 1) n.
Proof.
  unfold ring_window. cbn [seq map]. rewrite <- seq_shift, map_map. f_equal.
  - do 3 f_equal. lia.
  - apply map_ext. intros k. do 3 f_equal. lia.
Qed.

Lemma ring_window_mod es N s n : ring_window es N (s mod N) n = ring_window es N s n.
Proof.
  unfold ring_window. apply map_ext. intros k.
  rewrite Zplus_mod_idemp_l. reflexivity.
Qed.

Lemma ring_window_snoc es N s n :
  ring_window es N s (S n)
  = ring_window es N s n ++ [es !! Z.to_nat ((s + Z.of_nat n) mod N)].
Proof. unfold ring_window. rewrite seq_S, map_app. reflexivity. Qed.

Lemma pending_count_zero put get N :
  0 < N -> 0 <= put < N -> 0 <= get < N ->
  ((put - get) mod N = 0 <-> get = put).
Proof.
  intros HN Hp Hg. split.
  - intros H. destruct (Z_le_gt_dec get put).
    + rewrite Z.mod_small in H by lia. lia.
    + replace ((put - get) mod N) with (put - get + N) in H; [lia|].
      apply Z.mod_unique with (q := -1); lia.
  - intros ->. rewrite Z.sub_diag. apply Z.mod_0_l. lia.
Qed.

Lemma pending_count_advance_get put get N :
  0 < N -> 0 <= put < N -> 0 <= get < N -> get <> put ->
  (put - (get + 1) mod N) mod N = (put - get) mod N - 1.
Proof.
  intros HN Hp Hg Hne.
  rewrite Zminus_mod_idemp_r.
  destruct (Z_le_gt_dec get put).
  - rewrite !Z.mod_small by lia. lia.
  - replace ((put - get) mod N) with (put - get + N)
      by (apply Z.mod_unique with (q := -1); lia).
    replace ((put - (get + 1)) mod N) with (put - (get + 1) + N)
      by (apply Z.mod_unique with (q := -1); lia).
    lia.
Qed.

Lemma pending_count_advance put get N k :
  0 < N -> 0 <= k <= (put - get) mod N ->
  (put - (get + k) mod N) mod N = (put - get) mod N - k.
Proof.
  intros HN Hk.
  rewrite Zminus_mod_idemp_r.
  replace (put - (get + k)) with (put - get - k) by lia.
  rewrite <- Zminus_mod_idemp_l.
  apply Z.mod_small.
  pose proof (Z.mod_pos_bound (put - get) N HN). lia.
Qed.

Lemma ring_window_drop es N pend : forall s k,
  ring_window es N s (length pend) = map Some pend ->
  ring_window es N (s + Z.of_nat k) (length (drop k pend)) = map Some (drop k pend).
Proof.
  induction pend as [|e rest IH]; intros s k H.
  - rewrite drop_nil. reflexivity.
  - destruct k as [|k].
    + rewrite Z.add_0_r. exact H.
    + cbn [drop]. cbn [length] in H. rewrite ring_window_cons in H.
      cbn [map] in H. injection H as _ H.
      replace (s + Z.of_nat (S k)) with (s + 1 + Z.of_nat k) by lia.
      apply IH. exact H.
Qed.

(** ** The reclamation loop *)

Lemma retire_entries_nil c : retire_entries [] c = c.
Proof. destruct c. unfold retire_entries. simpl. rewrite !app_nil_r. reflexivity. Qed.

Lemma retire_entries_cons e info done c :
  push_info e = Some info ->
  retire_entries done
    (set_available_push_infos
       (available_push_infos (call (uvm_pushbuffer_mark_completed e) c) ++ [info])
       (call (uvm_pushbuffer_mark_completed e) c))
  = retire_entries (e :: done) c.
Proof.
  intros H. unfold retire_entries, set_available_push_infos, call. simpl.
  rewrite H. rewrite <- !app_assoc. reflexivity.
Qed.

Lemma retire_count_le_budget budget mode completed pend :
  (retire_count budget mode completed pend <= budget)%nat.
Proof.
  revert pend. induction budget as [|b IH]; intros [|e rest]; simpl; try lia.
  destruct (mode_is_completed mode && (completed <? tracking_semaphore_value e)); [lia|].
  specialize (IH rest). lia.
Qed.

Lemma retire_count_le_length budget mode completed pend :
  (retire_count budget mode completed pend <= length pend)%nat.
Proof.
  revert pend. induction budget as [|b IH]; intros [|e rest]; simpl; try lia.
  destruct (mode_is_completed mode && (completed <? tracking_semaphore_value e)); [lia|].
  specialize (IH rest). lia.
Qed.

(** In completed mode every retired entry has a completed tracking value. *)
Lemma retire_count_completed budget completed pend :
  Forall (fun e => tracking_semaphore_value e <= completed)
         (take (retire_count budget UVM_CHANNEL_UPDATE_MODE_COMPLETED completed pend) pend).
Proof.
  revert pend. induction budget as [|b IH]; intros [|e rest]; simpl; try constructor.
  destruct (Z.ltb_spec completed (tracking_semaphore_value e)); simpl.
  - constructor.
  - constructor; [lia | apply IH].
Qed.

(** In completed mode the walk stops short of the budget only at the end
    of the pending entries or in front of one that is not complete. *)
Lemma retire_count_stops budget completed pend :
  let k := retire_count budget UVM_CHANNEL_UPDATE_MODE_COMPLETED completed pend in
  (k < budget)%nat ->
  k = length pend \/
  exists e, pend !! k = Some e /\ completed < tracking_semaphore_value e.
Proof.
  revert pend. induction budget as [|b IH]; intros pend; simpl; [lia|].
  destruct pend as [|e rest]; [intros _; left; reflexivity|].
  destruct (Z.ltb_spec completed (tracking_semaphore_value e)); simpl.
  - intros _. right. exists e. split; [reflexivity | assumption].
  - intros Hk. destruct (IH rest) as [Hl | (e' & Hl & Hc)]; [lia | |].
    + left. simpl. lia.
    + right. exists e'. split; assumption.
Qed.

(** In force mode only the budget and the end of the ring stop the walk. *)
Lemma retire_count_force budget completed pend :
  retire_count budget UVM_CHANNEL_UPDATE_MODE_FORCE_ALL completed pend
  = Nat.min budget (length pend).
Proof.
  revert pend. induction budget as [|b IH]; intros [|e rest]; simpl; try reflexivity.
  rewrite IH. reflexivity.
Qed.

(** When every pending entry is complete, likewise. *)
Lemma retire_count_all_completed budget mode completed pend :
  Forall (fun e => tracking_semaphore_value e <= completed) pend ->
  retire_count budget mode completed pend = Nat.min budget (length pend).
Proof.
  revert pend. induction budget as [|b IH]; intros [|e rest] H; simpl; try reflexivity.
  inversion H as [|? ? He Hrest]; subst.
  destruct (Z.ltb_spec completed (tracking_semaphore_value e)); [lia|].
  rewrite andb_false_r. rewrite IH by assumption. reflexivity.
Qed.

Lemma update_progress_loop_spec budget mode completed put :
  forall pend get c,
    0 < numGpFifoEntries c < 2^32 ->
    0 <= put < numGpFifoEntries c ->
    0 <= get < numGpFifoEntries c ->
    Z.of_nat (length pend) = (put - get) mod numGpFifoEntries c ->
    ring_window (gpfifo_entries c) (numGpFifoEntries c) get (length pend)
    = map Some pend ->
    Forall bound pend ->
    update_progress_loop budget mode completed put get c
    = Ok ((get + Z.of_nat (retire_count budget mode completed pend))
            mod numGpFifoEntries c,
          retire_entries (take (retire_count budget mode completed pend) pend) c).
Proof.
  induction budget as [|b IH]; intros pend get c HN Hput Hget Hlen Hwin Hbound.
  - simpl. rewrite Z.add_0_r, Z.mod_small by lia.
    rewrite take_0, retire_entries_nil. reflexivity.
  - destruct pend as [|e rest].
    + simpl in Hlen. symmetry in Hlen.
      apply pending_count_zero in Hlen; [|lia..]. subst put.
      simpl. rewrite Z.eqb_refl.
      rewrite Z.add_0_r, Z.mod_small by lia.
      rewrite retire_entries_nil. reflexivity.
    + assert (Hne : get <> put).
      { intros ->. rewrite Z.sub_diag, Z.mod_0_l in Hlen by lia.
        simpl in Hlen. lia. }
      cbn [length] in Hwin. rewrite ring_window_cons in Hwin.
      cbn [map] in Hwin. injection Hwin as Hhead Hwin.
      rewrite Z.mod_small in Hhead by lia.
      cbn [update_progress_loop retire_count].
      destruct (Z.eqb_spec get put) as [|_]; [contradiction|].
      rewrite Hhead.
      destruct (mode_is_completed mode && (completed <? tracking_semaphore_value e)).
      * rewrite Z.add_0_r, Z.mod_small by lia.
        rewrite take_0, retire_entries_nil. reflexivity.
      * inversion Hbound as [|? ? [info Hinfo] Hrest]; subst.
        rewrite Hinfo. rewrite NvU32_small by lia.
        set (c1 := set_available_push_infos _ (call _ c)).
        assert (HN1 : numGpFifoEntries c1 = numGpFifoEntries c) by reflexivity.
        assert (He1 : gpfifo_entries c1 = gpfifo_entries c) by reflexivity.
        rewrite HN1.
        rewrite (IH rest); rewrite ?HN1, ?He1; try assumption.
        -- rewrite Zplus_mod_idemp_l. cbn [take]. subst c1.
           rewrite (retire_entries_cons e info) by exact Hinfo.
           do 3 f_equal. lia.
        -- apply Z.mod_pos_bound. lia.
        -- rewrite pending_count_advance_get by lia.
           cbn [length] in Hlen. lia.
        -- rewrite ring_window_mod. exact Hwin.
Qed.

Lemma pending_gpfifos_formula put get N :
  0 < N < 2^32 -> 0 <= put < N -> 0 <= get < N ->
  (if put >=? get then NvU32 (put - get) else NvU32 (NvU32 (N - get) + put))
  = (put - get) mod N.
Proof.
  intros HN Hp Hg. destruct (Z.geb_spec put get).
  - rewrite NvU32_small by lia. rewrite Z.mod_small by lia. reflexivity.
  - rewrite !NvU32_small by (rewrite ?NvU32_small; lia).
    apply Z.mod_unique with (q := -1); lia.
Qed.

Lemma update_progress_with_max_spec c pend max_to_complete mode :
  ring_wf c -> pending_entries c pend -> Forall bound pend ->
  let k := retire_count (Z.to_nat max_to_complete) mode
                        (completed_value (tracking_sem c)) pend in
  uvm_channel_update_progress_with_max c max_to_complete mode
  = Ok (Z.of_nat (length pend) - Z.of_nat k,
        set_gpu_get ((gpu_get c + Z.of_nat k) mod numGpFifoEntries c)
                    (retire_entries (take k pend) c)).
Proof.
  intros (HN & Hlen & Hput & Hget) (Hcount & Hwin) Hbound k.
  unfold uvm_channel_update_progress_with_max, uvm_channel_update_completed_value.
  rewrite (update_progress_loop_spec _ _ _ _ pend) by assumption.
  fold k. cbn [mbind result_bind bind].
  cbn [numGpFifoEntries set_gpu_get retire_entries].
  assert (Hk : (k <= length pend)%nat) by apply retire_count_le_length.
  rewrite pending_gpfifos_formula; [| lia | lia | apply Z.mod_pos_bound; lia].
  rewrite pending_count_advance by (unfold pending_count in Hcount; lia).
  unfold pending_count in Hcount. rewrite <- Hcount. reflexivity.
Qed.

(** What is left pending after [k] entries were retired. *)
Lemma pending_entries_after_retire c pend k :
  ring_wf c -> pending_entries c pend -> (k <= length pend)%nat ->
  let c' := set_gpu_get ((gpu_get c + Z.of_nat k) mod numGpFifoEntries c)
                        (retire_entries (take k pend) c) in
  ring_wf c' /\ pending_entries c' (drop k pend) /\
  pending_count c' = pending_count c - Z.of_nat k.
Proof.
  intros (HN & Hlen & Hput & Hget) (Hcount & Hwin) Hk c'.
  assert (Hpc : pending_count c' = pending_count c - Z.of_nat k).
  { unfold pending_count, c'. cbn [cpu_put gpu_get numGpFifoEntries set_gpu_get retire_entries].
    apply pending_count_advance; [lia|]. unfold pending_count in Hcount. lia. }
  split; [|split].
  - unfold ring_wf, c'. cbn [cpu_put gpu_get numGpFifoEntries gpfifo_entries
                              set_gpu_get retire_entries].
    repeat split; try lia; apply Z.mod_pos_bound; lia.
  - split.
    + rewrite Hpc, <- Hcount, length_drop. lia.
    + unfold c'. cbn [cpu_put gpu_get numGpFifoEntries gpfifo_entries
                       set_gpu_get retire_entries].
      rewrite ring_window_mod. apply ring_window_drop. exact Hwin.
  - exact Hpc.
Qed.

(** C2. Reclamation with a budget, on a well-formed ring whose pending
    entries are [pend]: it returns normally; it retires a prefix of [pend]
    of some length [k], at most the budget; in completed mode every
    retired entry is complete and the walk stops short of the budget only
    at the end of the ring or in front of the first entry whose tracking
    value exceeds the completed value; in force mode [k] is the smaller of
    the budget and the number pending; each retired entry is reported to
    the pushbuffer and its slot appended to the free list; [gpu_get]
    advances by [k] modulo [N]; the value returned is the number still
    pending. With ten pending entries, all complete,
    [uvm_channel_update_progress] (budget 8) retires the first eight and
    returns 2, and a second call retires the other two and returns 0. *)
Theorem update_progress_with_max_retires
    (c : uvm_channel_t) (pend : list uvm_gpfifo_entry_t)
    (max_to_complete : Z) (mode : uvm_channel_update_mode_t) :
  ring_wf c -> pending_entries c pend -> Forall bound pend ->
  (exists (k : nat) (c' : uvm_channel_t),
     uvm_channel_update_progress_with_max c max_to_complete mode
     = Ok (Z.of_nat (length pend - k), c') /\
     (k <= Z.to_nat max_to_complete)%nat /\ (k <= length pend)%nat /\
     (mode = UVM_CHANNEL_UPDATE_MODE_COMPLETED ->
      Forall (fun e => tracking_semaphore_value e <= uvm_channel_update_completed_value c)
             (take k pend) /\
      ((k < Z.to_nat max_to_complete)%nat ->
       k = length pend \/
       exists e, pend !! k = Some e /\
                 uvm_channel_update_completed_value c < tracking_semaphore_value e)) /\
     (mode = UVM_CHANNEL_UPDATE_MODE_FORCE_ALL ->
      k = Nat.min (Z.to_nat max_to_complete) (length pend)) /\
     calls c' = calls c ++ map uvm_pushbuffer_mark_completed (take k pend) /\
     available_push_infos c' = available_push_infos c ++ omap push_info (take k pend) /\
     length (omap push_info (take k pend)) = k /\
     gpu_get c' = (gpu_get c + Z.of_nat k) mod numGpFifoEntries c /\
     cpu_put c' = cpu_put c /\
     current_pushes_count c' = current_pushes_count c /\
     gpfifo_entries c' = gpfifo_entries c /\
     pending_entries c' (drop k pend) /\
     pending_count c' = Z.of_nat (length pend - k)) /\
  (length pend = 10%nat ->
   Forall (fun e => tracking_semaphore_value e <= uvm_channel_update_completed_value c)
          pend ->
   exists c1 c2,
     uvm_channel_update_progress c = Ok (2, c1) /\
     calls c1 = calls c ++ map uvm_pushbuffer_mark_completed (take 8 pend) /\
     uvm_channel_update_progress c1 = Ok (0, c2) /\
     calls c2 = calls c1 ++ map uvm_pushbuffer_mark_completed (drop 8 pend) /\
     gpu_get c2 = cpu_put c2).
Proof.
  intros Hwf Hpend Hbound. split.
  - pose proof (update_progress_with_max_spec c pend max_to_complete mode
                  Hwf Hpend Hbound) as Hrun.
    cbv zeta in Hrun.
    set (k := retire_count (Z.to_nat max_to_complete) mode
                           (completed_value (tracking_sem c)) pend) in *.
    assert (Hkb : (k <= Z.to_nat max_to_complete)%nat) by apply retire_count_le_budget.
    assert (Hkl : (k <= length pend)%nat) by apply retire_count_le_length.
    destruct (pending_entries_after_retire c pend k Hwf Hpend Hkl) as (_ & Hpend' & Hpc).
    exists k, (set_gpu_get ((gpu_get c + Z.of_nat k) mod numGpFifoEntries c)
                           (retire_entries (take k pend) c)).
    split; [rewrite Hrun; do 2 f_equal; lia|].
    split; [exact Hkb|]. split; [exact Hkl|].
    split; [intros ->; split; [apply retire_count_completed | apply retire_count_stops]|].
    split; [intros ->; apply retire_count_force|].
    split; [reflexivity|]. split; [reflexivity|].
    split.
    { assert (Hb : Forall bound (take k pend)) by (apply Forall_take; exact Hbound).
      rewrite <- (length_take_le pend k Hkl) at 2.
      clear -Hb. induction Hb as [|e l [info He] _ IH]; [reflexivity|].
      cbn [omap list_omap]. rewrite He. cbn [length]. f_equal. exact IH. }
    split; [reflexivity|]. split; [reflexivity|]. split; [reflexivity|].
    split; [reflexivity|]. split; [exact Hpend'|].
    rewrite Hpc. destruct Hpend as [Hcount _]. lia.
  - intros Hten Hall.
    unfold uvm_channel_update_progress.
    pose proof (update_progress_with_max_spec c pend 8 UVM_CHANNEL_UPDATE_MODE_COMPLETED
                  Hwf Hpend Hbound) as Hrun1.
    cbv zeta in Hrun1.
    rewrite retire_count_all_completed in Hrun1 by exact Hall.
    rewrite Hten in Hrun1. change (Nat.min (Z.to_nat 8) 10) with 8%nat in Hrun1.
    destruct (pending_entries_after_retire c pend 8 Hwf Hpend ltac:(lia))
      as (Hwf1 & Hpend1 & Hpc1).
    set (c1 := set_gpu_get ((gpu_get c + Z.of_nat 8) mod numGpFifoEntries c)
                           (retire_entries (take 8 pend) c)) in *.
    assert (Hbound1 : Forall bound (drop 8 pend)) by (apply Forall_drop; exact Hbound).
    assert (Hall1 : Forall (fun e => tracking_semaphore_value e
                                     <= completed_value (tracking_sem c1)) (drop 8 pend)).
    { apply Forall_drop. exact Hall. }
    pose proof (update_progress_with_max_spec c1 (drop 8 pend) 8
                  UVM_CHANNEL_UPDATE_MODE_COMPLETED Hwf1 Hpend1 Hbound1) as Hrun2.
    cbv zeta in Hrun2.
    rewrite retire_count_all_completed in Hrun2 by exact Hall1.
    assert (Hlen2 : length (drop 8 pend) = 2%nat) by (rewrite length_drop; lia).
    rewrite Hlen2 in Hrun2. change (Nat.min (Z.to_nat 8) 2) with 2%nat in Hrun2.
    exists c1, (set_gpu_get ((gpu_get c1 + Z.of_nat 2) mod numGpFifoEntries c1)
                            (retire_entries (take 2 (drop 8 pend)) c1)).
    split; [exact Hrun1|]. split; [reflexivity|]. split; [exact Hrun2|].
    split.
    { cbn [calls set_gpu_get retire_entries]. do 2 f_equal.
      apply take_ge. lia. }
    destruct (pending_entries_after_retire c1 (drop 8 pend) 2 Hwf1 Hpend1 ltac:(lia))
      as ((HN2 & _ & Hput2 & Hget2) & _ & Hpc2).
    destruct Hpend1 as [Hcount1 _]. rewrite Hlen2 in Hcount1.
    rewrite <- Hcount1 in Hpc2. unfold pending_count in Hpc2.
    apply pending_count_zero in Hpc2; [exact Hpc2 | lia..].
Qed.

(** ** Histories *)

Lemma submitted_app tr1 tr2 : submitted (tr1 ++ tr2) = submitted tr1 ++ submitted tr2.
Proof. apply omap_app. Qed.

Lemma retired_app tr1 tr2 : retired (tr1 ++ tr2) = retired tr1 ++ retired tr2.
Proof. apply omap_app. Qed.

Lemma submitted_mark_completed l : submitted (map uvm_pushbuffer_mark_completed l) = [].
Proof. induction l as [|e l IH]; [reflexivity | exact IH]. Qed.

Lemma retired_mark_completed l : retired (map uvm_pushbuffer_mark_completed l) = l.
Proof.
  induction l as [|e l IH]; [reflexivity|].
  cbn [map]. unfold retired in *. cbn [omap list_omap]. rewrite IH. reflexivity.
Qed.

(** ** Ending a push *)

Lemma end_push_spec c push :
  (Z.to_nat (cpu_put c) < length (gpfifo_entries c))%nat ->
  let v := NvU64 (queued_value (tracking_sem c) + 1) in
  let entry := mk_entry v (uvm_pushbuffer_get_offset_for_push push)
                        (uvm_push_get_size push) (Some (push_info_index push)) in
  let put' := NvU32 (cpu_put c + 1) mod numGpFifoEntries c in
  uvm_channel_end_push c push
  = Ok (mk_channel (channel_type c) (numGpFifoEntries c) (errorNotifier_status c)
          put' (gpu_get c) (NvU32 (current_pushes_count c - 1))
          (<[Z.to_nat (cpu_put c) := entry]> (gpfifo_entries c))
          (available_push_infos c)
          (mk_sem v (completed_value (tracking_sem c)))
          (calls c ++ [ce_semaphore_release (NvU32 v);
                       host_set_gpfifo_entry (cpu_put c)
                         (uvm_pushbuffer_get_gpu_va_for_push push)
                         (uvm_push_get_size push);
                       mb;
                       host_write_gpu_put put';
                       uvm_pushbuffer_end_push entry;
                       wmb]),
        mk_push (-1) v (uvm_push_get_size push)
                (uvm_pushbuffer_get_offset_for_push push)
                (uvm_pushbuffer_get_gpu_va_for_push push)).
Proof.
  intros Hin v entry put'. unfold uvm_channel_end_push.
  cbn [cpu_put gpfifo_entries set_tracking_sem call].
  destruct (Nat.ltb_spec (Z.to_nat (cpu_put c)) (length (gpfifo_entries c))) as [_|Hge];
    [|lia].
  cbn [negb]. destruct c.
  lazy beta iota zeta delta
    [set_gpfifo_entries set_current_pushes_count set_cpu_put set_tracking_sem call
     channel_type numGpFifoEntries errorNotifier_status cpu_put gpu_get
     current_pushes_count gpfifo_entries available_push_infos tracking_sem calls
     queued_value completed_value].
  rewrite <- !app_assoc. reflexivity.
Qed.

Lemma ring_index_distinct put get N k :
  0 < N -> 0 <= put < N -> 0 <= get < N ->
  0 <= k < (put - get) mod N ->
  (get + k) mod N <> put.
Proof.
  intros HN Hp Hg Hk Heq.
  assert (H : (put - get) mod N = k).
  { rewrite <- Heq. rewrite Zminus_mod_idemp_l.
    replace (get + k - get) with k by lia.
    pose proof (Z.mod_pos_bound (put - get) N HN).
    apply Z.mod_small. lia. }
  lia.
Qed.

Lemma ring_index_put put get N :
  0 < N -> 0 <= put < N ->
  (get + (put - get) mod N) mod N = put.
Proof.
  intros HN Hp. rewrite Zplus_mod_idemp_r.
  replace (get + (put - get)) with put by lia.
  apply Z.mod_small. lia.
Qed.

Lemma pending_count_advance_put put get N :
  0 < N -> 0 <= put < N -> (put - get) mod N + 1 < N ->
  ((put + 1) mod N - get) mod N = (put - get) mod N + 1.
Proof.
  intros HN Hp Hroom. rewrite Zminus_mod_idemp_l.
  replace (put + 1 - get) with (put - get + 1) by lia.
  rewrite <- Zplus_mod_idemp_l.
  pose proof (Z.mod_pos_bound (put - get) N HN).
  apply Z.mod_small. lia.
Qed.

(** Writing the cell at [cpu_put] appends to the pending entries. *)
Lemma ring_window_insert_put es N put get pend entry :
  0 < N -> 0 <= put < N -> 0 <= get < N ->
  Z.of_nat (length es) = N ->
  Z.of_nat (length pend) = (put - get) mod N ->
  ring_window es N get (length pend) = map Some pend ->
  ring_window (<[Z.to_nat put := entry]> es) N get (length (pend ++ [entry]))
  = map Some (pend ++ [entry]).
Proof.
  intros HN Hp Hg Hlen Hcount Hwin.
  rewrite length_app. cbn [length]. rewrite Nat.add_1_r.
  rewrite ring_window_snoc, map_app. cbn [map]. f_equal.
  - rewrite <- Hwin. unfold ring_window. apply map_ext_in.
    intros k Hk. apply in_seq in Hk.
    apply list_lookup_insert_ne. intros Heq.
    apply Z2Nat.inj in Heq; [| lia | apply Z.mod_pos_bound; lia].
    symmetry in Heq. revert Heq. apply ring_index_distinct; lia.
  - rewrite Hcount, ring_index_put by lia.
    rewrite list_lookup_insert_eq by lia. reflexivity.
Qed.

(** ** Claims *)

Lemma next_put_no_wrap (c : uvm_channel_t) :
  0 <= cpu_put c -> 0 <= current_pushes_count c ->
  cpu_put c + current_pushes_count c + 1 < 2^32 ->
  is_channel_available c =
  negb ((cpu_put c + current_pushes_count c + 1) mod numGpFifoEntries c =? gpu_get c).
Proof.
  intros Hp Hc Hnw. unfold is_channel_available.
  rewrite !NvU32_small by (rewrite ?NvU32_small; lia). reflexivity.
Qed.

(** A ring with [N - 1] slots taken, claimed or pending, refuses a claim. *)
Lemma full_ring_not_available put get cnt N :
  0 < N -> 0 <= get < N ->
  cnt + (put - get) mod N = N - 1 ->
  (put + cnt + 1) mod N = get.
Proof.
  intros HN Hg Hfull.
  replace (put + cnt + 1) with (put - (put - get) mod N + 1 * N) by lia.
  rewrite Z.mod_add by lia.
  rewrite Zminus_mod_idemp_r.
  replace (put - (put - get)) with get by lia.
  apply Z.mod_small. lia.
Qed.

(** ** The channel invariant *)

Lemma channel_inv_created type N :
  0 < N -> 2 * N <= 2^32 -> channel_inv (created_channel type N).
Proof.
  intros HN H2N. unfold channel_inv, ring_wf, pending_count, tracking_values_ok.
  cbn [created_channel numGpFifoEntries gpfifo_entries cpu_put gpu_get
       current_pushes_count calls tracking_sem queued_value].
  rewrite length_replicate, Z.sub_diag, Z.mod_0_l by lia.
  split; [lia|]. split; [lia|]. split; [lia|]. split; [lia|].
  split.
  - exists []. split; [|reflexivity]. split; [|reflexivity].
    unfold pending_count.
    cbn [created_channel numGpFifoEntries cpu_put gpu_get length].
    rewrite Z.sub_diag, Z.mod_0_l by lia. reflexivity.
  - split; [reflexivity|]. intros i e H. discriminate H.
Qed.

Lemma channel_inv_claim c :
  channel_inv c -> channel_inv (snd (try_claim_channel c)).
Proof.
  intros Hinv. unfold try_claim_channel.
  destruct (is_channel_available c) eqn:Havail; [|exact Hinv].
  destruct Hinv as (Hwf & H2N & Hcnt & Hroom & Hpend & Htv).
  cbn [snd].
  destruct Hwf as (HN & Hlen & Hput & Hget).
  pose proof (Z.mod_pos_bound (cpu_put c - gpu_get c) (numGpFifoEntries c)
                ltac:(lia)) as Hp.
  unfold pending_count in Hroom.
  rewrite next_put_no_wrap in Havail by lia.
  assert (Hlt : current_pushes_count c + pending_count c < numGpFifoEntries c - 1).
  { unfold pending_count.
    destruct (Z.eq_dec (current_pushes_count c
                        + (cpu_put c - gpu_get c) mod numGpFifoEntries c)
                       (numGpFifoEntries c - 1)) as [Hfull|Hnot]; [|lia].
    apply full_ring_not_available in Hfull; [|lia..].
    rewrite Hfull, Z.eqb_refl in Havail. discriminate Havail. }
  rewrite NvU32_small by lia.
  unfold pending_count in Hlt.
  split; [exact (conj HN (conj Hlen (conj Hput Hget)))|]. split; [exact H2N|].
  split; [cbn [current_pushes_count set_current_pushes_count]; lia|].
  split; [unfold pending_count;
          cbn [current_pushes_count set_current_pushes_count numGpFifoEntries
               cpu_put gpu_get]; lia|].
  split; [exact Hpend | exact Htv].
Qed.

Lemma channel_inv_device c completed status :
  channel_inv c -> channel_inv (device_writes completed status c).
Proof.
  intros (Hwf & H2N & Hcnt & Hroom & Hpend & Htv).
  split; [exact Hwf|]. split; [exact H2N|]. split; [exact Hcnt|].
  split; [exact Hroom|]. split; [exact Hpend | exact Htv].
Qed.

Lemma channel_inv_begin_push c pushbuffer_status push status c' push' :
  channel_inv c ->
  uvm_channel_begin_push pushbuffer_status c push = Ok (status, c', push') ->
  channel_inv c'.
Proof.
  intros Hinv Hrun. unfold uvm_channel_begin_push in Hrun.
  assert (Hkeep : forall l, channel_inv (set_available_push_infos l c)).
  { intros l. destruct Hinv as (Hwf & H2N & Hcnt & Hroom & Hpend & Htv).
    split; [exact Hwf|]. split; [exact H2N|]. split; [exact Hcnt|].
    split; [exact Hroom|]. split; [exact Hpend | exact Htv]. }
  destruct pushbuffer_status; try (injection Hrun as <- <- <-; exact Hinv).
  unfold channel_get_available_push_info_index in Hrun.
  destruct (available_push_infos c) as [|info rest]; [discriminate Hrun|].
  cbn in Hrun. injection Hrun as <- <- <-. apply Hkeep.
Qed.

Lemma pending_bound c pend :
  tracking_values_ok c ->
  submitted (calls c) = retired (calls c) ++ pend ->
  Forall bound pend.
Proof.
  intros [_ Htv] Hsplit. apply Forall_lookup. intros i e Hi.
  apply (Htv (length (retired (calls c)) + i)%nat).
  rewrite Hsplit, lookup_app_r by lia.
  replace (length (retired (calls c)) + i - length (retired (calls c)))%nat with i by lia.
  exact Hi.
Qed.

Lemma channel_inv_update_progress c max_to_complete mode pending c' :
  channel_inv c ->
  uvm_channel_update_progress_with_max c max_to_complete mode = Ok (pending, c') ->
  channel_inv c'.
Proof.
  intros (Hwf & H2N & Hcnt & Hroom & (pend & Hpend & Hsplit) & Htv) Hrun.
  pose proof (pending_bound c pend Htv Hsplit) as Hbound.
  rewrite (update_progress_with_max_spec c pend) in Hrun by assumption.
  cbv zeta in Hrun. injection Hrun as _ <-.
  set (k := retire_count (Z.to_nat max_to_complete) mode
                         (completed_value (tracking_sem c)) pend).
  assert (Hk : (k <= length pend)%nat) by apply retire_count_le_length.
  destruct (pending_entries_after_retire c pend k Hwf Hpend Hk) as (Hwf' & Hpend' & Hpc).
  cbv zeta in Hwf', Hpend', Hpc.
  split; [exact Hwf'|]. split; [exact H2N|]. split; [exact Hcnt|].
  split; [rewrite Hpc; cbn; lia|].
  split.
  - exists (drop k pend). split; [exact Hpend'|].
    cbn [calls set_gpu_get retire_entries].
    rewrite submitted_app, retired_app, submitted_mark_completed, retired_mark_completed.
    rewrite app_nil_r, Hsplit, <- app_assoc, take_drop. reflexivity.
  - destruct Htv as [Hq Hall]. unfold tracking_values_ok.
    cbn [calls tracking_sem set_gpu_get retire_entries].
    rewrite submitted_app, submitted_mark_completed, app_nil_r.
    split; assumption.
Qed.

Lemma channel_inv_end_push c push c' push' :
  channel_inv c -> 0 < current_pushes_count c ->
  uvm_channel_end_push c push = Ok (c', push') ->
  channel_inv c'.
Proof.
  intros (Hwf & H2N & Hcnt & Hroom & (pend & Hpend & Hsplit) & Htv) Hclaimed Hrun.
  destruct Hwf as (HN & Hlen & Hput & Hget).
  destruct Hpend as (Hcount & Hwin). unfold pending_count in *.
  pose proof (Z.mod_pos_bound (cpu_put c - gpu_get c) (numGpFifoEntries c)
                ltac:(lia)) as Hp.
  rewrite end_push_spec in Hrun by lia. cbv zeta in Hrun.
  injection Hrun as <- _.
  rewrite (NvU32_small (cpu_put c + 1)), (NvU32_small (current_pushes_count c - 1))
    by lia.
  set (entry := mk_entry _ _ _ _).
  unfold channel_inv, ring_wf, pending_entries, tracking_values_ok, pending_count.
  cbn [numGpFifoEntries gpfifo_entries cpu_put gpu_get current_pushes_count calls
       tracking_sem queued_value].
  rewrite length_insert.
  rewrite pending_count_advance_put by lia.
  rewrite submitted_app, retired_app. cbn [submitted retired omap list_omap].
  rewrite !app_nil_r.
  split; [repeat split; try lia; apply Z.mod_pos_bound; lia|].
  split; [lia|]. split; [lia|]. split; [lia|].
  split.
  - exists (pend ++ [entry]). split; [split|].
    + rewrite length_app. cbn [length]. lia.
    + apply ring_window_insert_put; try lia. exact Hwin.
    + fold (submitted (calls c)). fold (retired (calls c)).
      rewrite Hsplit, app_assoc. reflexivity.
  - destruct Htv as [Hq Hall]. fold (submitted (calls c)).
    rewrite length_app. cbn [length].
    assert (Hnew : tracking_semaphore_value entry
                   = NvU64 (Z.of_nat (length (submitted (calls c))) + 1)).
    { unfold entry. cbn [tracking_semaphore_value]. rewrite Hq.
      unfold NvU64. rewrite Zplus_mod_idemp_l. reflexivity. }
    split.
    + unfold entry in Hnew. cbn [tracking_semaphore_value] in Hnew. rewrite Hnew.
      f_equal. lia.
    + intros i e Hi. apply lookup_app_Some in Hi as [Hi | [Hge Hi]].
      * apply Hall. exact Hi.
      * apply list_lookup_singleton_Some in Hi as [Hi <-].
        replace i with (length (submitted (calls c))) by lia.
        split; [exact Hnew | eexists; reflexivity].
Qed.

Lemma channel_inv_step c c' : channel_inv c -> step c c' -> channel_inv c'.
Proof.
  intros Hinv Hstep. destruct Hstep.
  - apply channel_inv_claim. exact Hinv.
  - eapply channel_inv_begin_push; eassumption.
  - eapply channel_inv_end_push; eassumption.
  - eapply channel_inv_update_progress; eassumption.
  - apply channel_inv_device. exact Hinv.
Qed.

Lemma step_numGpFifoEntries c c' :
  channel_inv c -> step c c' -> numGpFifoEntries c' = numGpFifoEntries c.
Proof.
  intros Hinv Hstep. destruct Hstep as [c | c st push status c' push' Hrun
                                        | c push c' push' Hcl Hrun
                                        | c m mode pending c' Hrun | c v s].
  - unfold try_claim_channel. destruct (is_channel_available c); reflexivity.
  - unfold uvm_channel_begin_push, channel_get_available_push_info_index in Hrun.
    destruct st; try (injection Hrun as <- <- <-; reflexivity).
    destruct (available_push_infos c); [discriminate Hrun|].
    cbn in Hrun. injection Hrun as <- <- <-. reflexivity.
  - destruct Hinv as ((HN & Hlen & Hput & Hget) & _).
    rewrite end_push_spec in Hrun by lia. injection Hrun as <- _. reflexivity.
  - destruct Hinv as (Hwf & _ & _ & _ & (pend & Hpend & Hsplit) & Htv).
    rewrite (update_progress_with_max_spec c pend) in Hrun;
      [| assumption | assumption | eapply pending_bound; eassumption].
    injection Hrun as _ <-. reflexivity.
  - reflexivity.
Qed.

Lemma reachable_inv type N c :
  reachable type N c -> channel_inv c /\ numGpFifoEntries c = N.
Proof.
  induction 1 as [HN H2N | c c' Hreach [IHinv IHN] Hstep].
  - split; [apply channel_inv_created; assumption | reflexivity].
  - split; [eapply channel_inv_step; eassumption|].
    rewrite (step_numGpFifoEntries c c') by assumption. exact IHN.
Qed.

Lemma submitted_tracking_value c i e :
  tracking_values_ok c ->
  Z.of_nat (length (submitted (calls c))) < 2^64 ->
  submitted (calls c) !! i = Some e ->
  tracking_semaphore_value e = Z.of_nat i + 1.
Proof.
  intros [_ Hall] Hn Hi.
  pose proof (lookup_lt_Some _ _ _ Hi) as Hlt.
  destruct (Hall i e Hi) as [Htv _]. rewrite Htv.
  apply NvU64_small. lia.
Qed.

Lemma retired_prefix_lookup c pend i e :
  submitted (calls c) = retired (calls c) ++ pend ->
  retired (calls c) !! i = Some e ->
  submitted (calls c) !! i = Some e.
Proof. intros -> Hi. apply lookup_app_l_Some. exact Hi. Qed.

(** ** Theorems on the ring protocol *)

(** C1. On a channel of capacity [N] whose claim arithmetic does not wrap,
    [try_claim_channel] succeeds exactly when
    [(cpu_put + current_pushes_count + 1) mod N <> gpu_get]; a successful
    attempt adds one to [current_pushes_count] and changes no other field
    (cursors and ring contents included); a failed attempt changes nothing. *)
Theorem try_claim_channel_spec (c : uvm_channel_t) :
  0 < numGpFifoEntries c ->
  0 <= cpu_put c -> 0 <= current_pushes_count c ->
  cpu_put c + current_pushes_count c + 1 < 2^32 ->
  (fst (try_claim_channel c) = true <->
   (cpu_put c + current_pushes_count c + 1) mod numGpFifoEntries c <> gpu_get c) /\
  (fst (try_claim_channel c) = true ->
   snd (try_claim_channel c)
   = set_current_pushes_count (current_pushes_count c + 1) c /\
   current_pushes_count (snd (try_claim_channel c)) = current_pushes_count c + 1 /\
   cpu_put (snd (try_claim_channel c)) = cpu_put c /\
   gpu_get (snd (try_claim_channel c)) = gpu_get c /\
   gpfifo_entries (snd (try_claim_channel c)) = gpfifo_entries c) /\
  (fst (try_claim_channel c) = false -> snd (try_claim_channel c) = c).
Proof.
  intros HN Hp Hc Hnw. unfold try_claim_channel.
  rewrite next_put_no_wrap by assumption.
  destruct (Z.eqb_spec ((cpu_put c + current_pushes_count c + 1) mod numGpFifoEntries c)
                       (gpu_get c)) as [Heq|Hne]; simpl.
  - split; [split; [discriminate | intros H; contradiction] |].
    split; [discriminate | reflexivity].
  - split; [split; [intros _; exact Hne | reflexivity] |].
    split; [| discriminate].
    intros _. rewrite NvU32_small by lia. repeat split.
Qed.

(** C3. In every state a channel of capacity [N] (at most [2^31], so that
    the claim arithmetic does not wrap) can reach from its creation by
    claims, begun pushes, pushes ended on a claimed channel, reclamations
    and device writes, the claimed slots plus the pending ring entries
    number at most [N - 1]; the pending count read off the cursors is the
    number of entries submitted and not yet retired; the cursors are equal
    exactly when nothing is pending; and every further operation keeps the
    bound. *)
Theorem reachable_ring_never_full
    (type : uvm_channel_type_t) (N : Z) (c : uvm_channel_t) :
  reachable type N c ->
  numGpFifoEntries c = N /\
  0 <= current_pushes_count c /\
  current_pushes_count c + pending_count c <= N - 1 /\
  pending_count c = Z.of_nat (length (submitted (calls c)))
                    - Z.of_nat (length (retired (calls c))) /\
  (cpu_put c = gpu_get c <-> submitted (calls c) = retired (calls c)) /\
  (forall c', step c c' ->
              current_pushes_count c' + pending_count c' <= N - 1).
Proof.
  intros Hreach.
  destruct (reachable_inv _ _ _ Hreach)
    as ((Hwf & H2N & Hcnt & Hroom & (pend & [Hcount Hwin] & Hsplit) & Htv) & HN).
  split; [exact HN|]. split; [exact Hcnt|]. split; [lia|].
  split; [rewrite Hsplit, length_app; lia|].
  split.
  - destruct Hwf as (HN' & _ & Hput & Hget). split.
    + intros Heq. assert (Hz : pending_count c = 0).
      { unfold pending_count. apply pending_count_zero; [lia..|]. symmetry. exact Heq. }
      rewrite Hz in Hcount. destruct pend; [|discriminate Hcount].
      rewrite Hsplit, app_nil_r. reflexivity.
    + intros Heq. rewrite Heq in Hsplit.
      assert (Hnil : pend = []).
      { apply (f_equal length) in Hsplit. rewrite length_app in Hsplit.
        destruct pend; [reflexivity | cbn in Hsplit; lia]. }
      subst pend. cbn in Hcount. symmetry in Hcount. unfold pending_count in Hcount.
      apply pending_count_zero in Hcount; [symmetry; exact Hcount | lia..].
  - intros c' Hstep.
    assert (Hreach' : reachable type N c') by (eapply reachable_step; eassumption).
    destruct (reachable_inv _ _ _ Hreach') as ((_ & _ & _ & Hroom' & _) & HN').
    lia.
Qed.

(** C4. On a reachable channel with an outstanding claim whose 64-bit
    counter is not about to wrap, [uvm_channel_end_push] returns normally;
    the tracking value it allocates is one more than [queued_value] and
    strictly greater than the value of every entry submitted before; the
    cell at [cpu_put] receives that value with the push's pushbuffer
    offset, size and push-info slot, the other cells are untouched;
    [cpu_put] advances by one modulo [N]; [current_pushes_count] drops by
    one; and the collaborator calls are, in order, the semaphore release,
    the GPFIFO entry write, a full barrier, the GPPUT (doorbell) write, the
    pushbuffer notification and a store barrier. *)
Theorem end_push_appends_entry
    (type : uvm_channel_type_t) (N : Z) (c : uvm_channel_t) (push : uvm_push_t) :
  reachable type N c ->
  0 < current_pushes_count c ->
  Z.of_nat (length (submitted (calls c))) + 1 < 2^64 ->
  exists c' push',
    let v := queued_value (tracking_sem c) + 1 in
    let entry := mk_entry v (uvm_pushbuffer_get_offset_for_push push)
                          (uvm_push_get_size push) (Some (push_info_index push)) in
    uvm_channel_end_push c push = Ok (c', push') /\
    queued_value (tracking_sem c') = v /\
    channel_tracking_value push' = v /\
    Forall (fun e => tracking_semaphore_value e < v) (submitted (calls c)) /\
    gpfifo_entries c' !! Z.to_nat (cpu_put c) = Some entry /\
    (forall i, i <> Z.to_nat (cpu_put c) ->
               gpfifo_entries c' !! i = gpfifo_entries c !! i) /\
    cpu_put c' = (cpu_put c + 1) mod N /\
    gpu_get c' = gpu_get c /\
    current_pushes_count c' = current_pushes_count c - 1 /\
    calls c' = calls c ++ [ce_semaphore_release (NvU32 v);
                           host_set_gpfifo_entry (cpu_put c)
                             (uvm_pushbuffer_get_gpu_va_for_push push)
                             (uvm_push_get_size push);
                           mb;
                           host_write_gpu_put ((cpu_put c + 1) mod N);
                           uvm_pushbuffer_end_push entry;
                           wmb].
Proof.
  intros Hreach Hclaimed Hnowrap.
  destruct (reachable_inv _ _ _ Hreach)
    as (((HN' & Hlen & Hput & Hget) & H2N & Hcnt & Hroom & _ & Htv) & HN).
  pose proof Htv as [Hq Hall].
  assert (Hqv : queued_value (tracking_sem c)
                = Z.of_nat (length (submitted (calls c)))).
  { rewrite Hq. apply NvU64_small. lia. }
  pose proof (Z.mod_pos_bound (cpu_put c - gpu_get c) (numGpFifoEntries c)
                ltac:(lia)) as Hp.
  unfold pending_count in Hroom.
  eexists _, _. cbv zeta.
  rewrite end_push_spec by lia. cbv zeta.
  rewrite (NvU64_small (queued_value (tracking_sem c) + 1)) by lia.
  rewrite (NvU32_small (cpu_put c + 1)) by lia.
  rewrite (NvU32_small (current_pushes_count c - 1)) by lia.
  rewrite HN.
  split; [reflexivity|].
  cbn [tracking_sem queued_value channel_tracking_value gpfifo_entries cpu_put gpu_get
       current_pushes_count calls].
  split; [reflexivity|]. split; [reflexivity|].
  split.
  { apply Forall_lookup. intros i e Hi.
    pose proof (lookup_lt_Some _ _ _ Hi) as Hlt.
    rewrite (submitted_tracking_value c i e) by (assumption || lia). lia. }
  split; [apply list_lookup_insert_eq; lia|].
  split; [intros i Hi; apply list_lookup_insert_ne; congruence|].
  repeat split.
Qed.

(** C7. On a reachable channel whose 64-bit counter has not wrapped, the
    entries retired so far are an initial segment of the entries submitted,
    in the same order; their tracking values increase strictly along the
    order of retirement; every entry still pending has a greater tracking
    value than every retired one; and a reclamation retires an initial
    segment of the pending entries, oldest first, moving [gpu_get] past
    exactly those. *)
Theorem retirement_in_submission_order
    (type : uvm_channel_type_t) (N : Z) (c : uvm_channel_t) :
  reachable type N c ->
  Z.of_nat (length (submitted (calls c))) < 2^64 ->
  exists pend,
    pending_entries c pend /\
    submitted (calls c) = retired (calls c) ++ pend /\
    (forall i j ei ej,
        (i < j)%nat ->
        retired (calls c) !! i = Some ei -> retired (calls c) !! j = Some ej ->
        tracking_semaphore_value ei < tracking_semaphore_value ej) /\
    (forall er ep,
        er ∈ retired (calls c) -> ep ∈ pend ->
        tracking_semaphore_value er < tracking_semaphore_value ep) /\
    (forall max_to_complete mode,
        exists k pending c',
          uvm_channel_update_progress_with_max c max_to_complete mode
          = Ok (pending, c') /\
          retired (calls c') = retired (calls c) ++ take k pend /\
          gpu_get c' = (gpu_get c + Z.of_nat k) mod N).
Proof.
  intros Hreach Hnowrap.
  destruct (reachable_inv _ _ _ Hreach)
    as ((Hwf & H2N & Hcnt & Hroom & (pend & Hpend & Hsplit) & Htv) & HN).
  exists pend. split; [exact Hpend|]. split; [exact Hsplit|].
  split; [|split].
  - intros i j ei ej Hij Hi Hj.
    rewrite (submitted_tracking_value c i ei), (submitted_tracking_value c j ej);
      try assumption; try (eapply retired_prefix_lookup; eassumption).
    lia.
  - intros er ep Hr Hp.
    apply list_elem_of_lookup in Hr as [i Hi].
    apply list_elem_of_lookup in Hp as [j Hj].
    pose proof (lookup_lt_Some _ _ _ Hi) as Hlt.
    rewrite (submitted_tracking_value c i er);
      try assumption; try (eapply retired_prefix_lookup; eassumption).
    rewrite (submitted_tracking_value c (length (retired (calls c)) + j) ep);
      try assumption; [lia|].
    rewrite Hsplit, lookup_app_r by lia.
    replace (length (retired (calls c)) + j - length (retired (calls c)))%nat
      with j by lia.
    exact Hj.
  - intros max_to_complete mode.
    pose proof (pending_bound c pend Htv Hsplit) as Hbound.
    eexists _, _, _.
    rewrite (update_progress_with_max_spec c pend) by assumption. cbv zeta.
    split; [reflexivity|].
    cbn [calls gpu_get set_gpu_get retire_entries].
    rewrite retired_app, retired_mark_completed, HN. split; reflexivity.
Qed.

Lemma example_claimed_reachable :
  reachable UVM_CHANNEL_TYPE_CPU_TO_GPU 4 example_claimed.
Proof.
  unfold example_claimed. eapply reachable_step.
  - apply reachable_created; lia.
  - apply step_claim.
Defined.

(** Witness of C1: the fresh channel of capacity 4. *)
Lemma try_claim_channel_spec_witness :
  fst (try_claim_channel (created_channel UVM_CHANNEL_TYPE_CPU_TO_GPU 4)) = true /\
  current_pushes_count example_claimed = 1.
Proof.
  destruct (try_claim_channel_spec (created_channel UVM_CHANNEL_TYPE_CPU_TO_GPU 4))
    as (Hiff & Hok & _); [simpl; lia ..|].
  split.
  - apply Hiff. vm_compute. discriminate.
  - reflexivity.
Defined.

(** Witness of C2: the ring of capacity 16 with ten complete entries. *)
Lemma update_progress_with_max_retires_witness :
  ring_wf example_ten /\ pending_entries example_ten example_ten_pending /\
  exists c1 c2,
    uvm_channel_update_progress example_ten = Ok (2, c1) /\
    uvm_channel_update_progress c1 = Ok (0, c2).
Proof.
  assert (Hwf : ring_wf example_ten) by (unfold ring_wf; simpl; lia).
  assert (Hpend : pending_entries example_ten example_ten_pending)
    by (split; reflexivity).
  assert (Hbound : Forall bound example_ten_pending).
  { unfold example_ten_pending. cbn [map seq].
    repeat (constructor; [eexists; reflexivity|]). constructor. }
  split; [exact Hwf|]. split; [exact Hpend|].
  destruct (update_progress_with_max_retires example_ten example_ten_pending 8
              UVM_CHANNEL_UPDATE_MODE_COMPLETED Hwf Hpend Hbound) as [_ Hscenario].
  destruct Hscenario as (c1 & c2 & H1 & _ & H2 & _).
  - reflexivity.
  - unfold example_ten_pending. cbn [map seq].
    repeat (constructor; [vm_compute; discriminate|]). constructor.
  - exists c1, c2. split; assumption.
Defined.

(** Witness of C3: one claim on a fresh channel of capacity 4. *)
Lemma reachable_ring_never_full_witness :
  reachable UVM_CHANNEL_TYPE_CPU_TO_GPU 4 example_claimed /\
  current_pushes_count example_claimed + pending_count example_claimed <= 4 - 1.
Proof.
  split; [exact example_claimed_reachable|].
  destruct (reachable_ring_never_full _ _ _ example_claimed_reachable)
    as (_ & _ & Hroom & _).
  exact Hroom.
Defined.

(** Witness of C4: ending a push on the claimed channel. *)
Lemma end_push_appends_entry_witness :
  reachable UVM_CHANNEL_TYPE_CPU_TO_GPU 4 example_claimed /\
  0 < current_pushes_count example_claimed /\
  exists c' push',
    uvm_channel_end_push example_claimed example_push = Ok (c', push') /\
    cpu_put c' = 1 /\ current_pushes_count c' = 0.
Proof.
  split; [exact example_claimed_reachable|]. split; [reflexivity|].
  destruct (end_push_appends_entry _ _ _ example_push example_claimed_reachable)
    as (c' & push' & Hrun & _ & _ & _ & _ & _ & Hput & _ & Hcnt & _).
  - reflexivity.
  - reflexivity.
  - exists c', push'. split; [exact Hrun|]. split; [exact Hput | exact Hcnt].
Defined.

Lemma example_retired_reachable :
  reachable UVM_CHANNEL_TYPE_CPU_TO_GPU 4 example_retired.
Proof.
  apply (reachable_step _ _ (device_writes 1 0 example_submitted));
    [| apply (step_update_progress _ 8 UVM_CHANNEL_UPDATE_MODE_COMPLETED 1);
       reflexivity].
  apply (reachable_step _ _ example_submitted); [| apply step_device].
  apply (reachable_step _ _ example_submitted_once);
    [| apply (step_end_push _ example_push _ (mk_push (-1) 2 16 0 4096));
       reflexivity].
  apply (reachable_step _ _ example_claimed_twice);
    [| apply (step_end_push _ example_push _ (mk_push (-1) 1 16 0 4096));
       reflexivity].
  apply (reachable_step _ _ example_claimed); [| apply step_claim].
  exact example_claimed_reachable.
Defined.

(** Witness of C7: two submissions, the first of them retired. *)
Lemma retirement_in_submission_order_witness :
  reachable UVM_CHANNEL_TYPE_CPU_TO_GPU 4 example_retired /\
  length (retired (calls example_retired)) = 1%nat /\
  exists pend, length pend = 1%nat /\
               submitted (calls example_retired)
               = retired (calls example_retired) ++ pend.
Proof.
  split; [exact example_retired_reachable|]. split; [reflexivity|].
  destruct (retirement_in_submission_order _ _ _ example_retired_reachable)
    as (pend & _ & Hsplit & _); [reflexivity|].
  exists pend. split; [|exact Hsplit].
  apply (f_equal length) in Hsplit. rewrite length_app in Hsplit.
  change (2 = 1 + length pend)%nat in Hsplit. lia.
Defined.

(** ** Health checks *)

(** C8. [uvm_channel_get_status] returns [NV_OK] exactly when the status
    field of the channel's error notifier is zero; with a nonzero field it
    returns [NV_ERR_ECC_ERROR] exactly when ECC is enabled and the ECC
    error notifier is set, and [NV_ERR_RC_ERROR] otherwise. *)
Theorem uvm_channel_get_status_spec (gpu : uvm_gpu_t) (channel : uvm_channel_t) :
  (uvm_channel_get_status gpu channel = NV_OK <-> errorNotifier_status channel = 0) /\
  (errorNotifier_status channel <> 0 ->
   (uvm_channel_get_status gpu channel = NV_ERR_ECC_ERROR <->
    ecc_enabled gpu = true /\ ecc_error_notifier gpu <> 0) /\
   (uvm_channel_get_status gpu channel = NV_ERR_RC_ERROR <->
    ~ (ecc_enabled gpu = true /\ ecc_error_notifier gpu <> 0))).
Proof.
  unfold uvm_channel_get_status.
  destruct (Z.eqb_spec (errorNotifier_status channel) 0) as [Hz|Hnz].
  - split; [split; [intros _; exact Hz | reflexivity] | intros H; contradiction].
  - split.
    + split; [|intros H; contradiction].
      destruct (ecc_enabled gpu && negb (ecc_error_notifier gpu =? 0)); discriminate.
    + intros _.
      assert (Hecc : ecc_enabled gpu && negb (ecc_error_notifier gpu =? 0) = true <->
                     ecc_enabled gpu = true /\ ecc_error_notifier gpu <> 0).
      { rewrite andb_true_iff, negb_true_iff, Z.eqb_neq. reflexivity. }
      destruct (ecc_enabled gpu && negb (ecc_error_notifier gpu =? 0)).
      * split; split.
        -- intros _. apply Hecc. reflexivity.
        -- reflexivity.
        -- discriminate.
        -- intros H. exfalso. apply H, Hecc. reflexivity.
      * split; split.
        -- discriminate.
        -- intros H. apply Hecc in H. discriminate H.
        -- intros _ H. apply Hecc in H. discriminate H.
        -- reflexivity.
Qed.

(** ** The global fatal status *)

Lemma uvm_global_set_fatal_error_sticky error fatal :
  fatal <> NV_OK -> uvm_global_set_fatal_error error fatal = fatal.
Proof. intros H. destruct fatal; [contradiction | reflexivity ..]. Qed.

Lemma check_errors_status gpu channel fatal status channel' fatal' :
  uvm_channel_check_errors gpu channel fatal = Ok (status, channel', fatal') ->
  status = uvm_channel_get_status gpu channel /\
  fatal' = match status with
           | NV_OK => fatal
           | _ => uvm_global_set_fatal_error status fatal
           end.
Proof.
  unfold uvm_channel_check_errors.
  destruct (uvm_channel_get_status gpu channel) eqn:Hst;
    try (intros H; injection H as <- <- <-; split; reflexivity);
    (destruct (uvm_channel_get_fatal_entry channel) as [[[entry|] c1]|f];
     cbn [mbind result_bind bind]; try discriminate;
     [destruct (push_info entry); try discriminate|];
     intros H; injection H as <- <- <-; split; reflexivity).
Qed.

Lemma check_errors_keeps_fatal gpu channel fatal status channel' fatal' :
  fatal <> NV_OK ->
  uvm_channel_check_errors gpu channel fatal = Ok (status, channel', fatal') ->
  fatal' = fatal.
Proof.
  intros Hf Hrun. apply check_errors_status in Hrun as [_ ->].
  destruct status; try reflexivity; apply uvm_global_set_fatal_error_sticky; exact Hf.
Qed.

Lemma reserve_loop_keeps_fatal fuel gpu : forall channel fatal status st channel' fatal',
  fatal <> NV_OK ->
  reserve_loop fuel gpu channel fatal status = Ok (st, channel', fatal') ->
  fatal' = fatal.
Proof.
  induction fuel as [|fuel IH]; intros channel fatal status st channel' fatal' Hf Hrun;
    cbn [reserve_loop] in Hrun;
    destruct (try_claim_channel channel) as [[|] c1];
    try (injection Hrun as _ _ <-; reflexivity).
  - destruct status; try discriminate Hrun; injection Hrun as _ _ <-; reflexivity.
  - destruct status; try (injection Hrun as _ _ <-; reflexivity).
    destruct (uvm_channel_check_errors gpu c1 fatal) as [[[st1 c2] f2]|] eqn:Hchk;
      cbn [mbind result_bind bind] in Hrun; [|discriminate Hrun].
    apply check_errors_keeps_fatal in Hchk; [|exact Hf]. subst f2.
    destruct (uvm_channel_update_progress c2) as [[n c3]|];
      cbn [mbind result_bind bind] in Hrun; [|discriminate Hrun].
    eapply IH; eassumption.
Qed.

(** Counterexample to C5. The device faults a channel; its health check
    returns [NV_ERR_RC_ERROR] and sets the global fatal status. After that,
    [uvm_channel_reserve] on that very channel returns [NV_OK] and takes a
    slot, [uvm_channel_reserve_type] returns [NV_OK] with a claim on it, the
    health check of the other channel returns [NV_OK], and
    [uvm_channel_update_progress] returns a count. *)
Lemma claim_succeeds_after_fatal_status :
  uvm_channel_check_errors example_gpu example_faulted NV_OK
  = Ok (NV_ERR_RC_ERROR, example_faulted, NV_ERR_RC_ERROR) /\
  uvm_channel_reserve 0 example_gpu example_faulted NV_ERR_RC_ERROR
  = Ok (NV_OK, set_current_pushes_count 1 example_faulted, NV_ERR_RC_ERROR) /\
  uvm_channel_reserve_type 0 example_manager UVM_CHANNEL_TYPE_CPU_TO_GPU NV_ERR_RC_ERROR
  = Ok (NV_OK, Some 0%nat,
        set_all_channels_list
          [set_current_pushes_count 1 example_faulted;
           created_channel UVM_CHANNEL_TYPE_GPU_TO_CPU 4] example_manager,
        NV_ERR_RC_ERROR) /\
  uvm_channel_check_errors example_gpu (created_channel UVM_CHANNEL_TYPE_GPU_TO_CPU 4)
                           NV_ERR_RC_ERROR
  = Ok (NV_OK, created_channel UVM_CHANNEL_TYPE_GPU_TO_CPU 4, NV_ERR_RC_ERROR) /\
  uvm_channel_update_progress example_faulted = Ok (0, example_faulted).
Proof. repeat split. Qed.

(** C5, amended. Once the global fatal status is set, no call replaces it,
    and [uvm_channel_manager_check_errors] returns that status without
    probing or changing any channel. The per-channel paths do not consult
    it: [uvm_channel_check_errors] returns the channel's own status,
    [uvm_channel_reserve] returns [NV_OK] with a claim whenever the ring
    has room at the first attempt, and so does [uvm_channel_reserve_type]
    when its first scan finds room. *)
Theorem fatal_status_seen_by_manager_check
    (manager : uvm_channel_manager_t) (gpu : uvm_gpu_t) (channel : uvm_channel_t)
    (fatal : NV_STATUS) (fuel : nat) :
  fatal <> NV_OK ->
  uvm_channel_manager_check_errors manager fatal = Ok (fatal, manager, fatal) /\
  (forall error, uvm_global_set_fatal_error error fatal = fatal) /\
  (forall status channel' fatal',
      uvm_channel_check_errors gpu channel fatal = Ok (status, channel', fatal') ->
      status = uvm_channel_get_status gpu channel /\ fatal' = fatal) /\
  (forall status channel' fatal',
      uvm_channel_reserve fuel gpu channel fatal = Ok (status, channel', fatal') ->
      fatal' = fatal) /\
  (is_channel_available channel = true ->
   uvm_channel_reserve fuel gpu channel fatal
   = Ok (NV_OK,
         set_current_pushes_count (NvU32 (current_pushes_count channel + 1)) channel,
         fatal)) /\
  (forall type index channels,
      reserve_type_scan type 0 (all_channels_list manager) = (Some index, channels) ->
      uvm_channel_reserve_type fuel manager type fatal
      = Ok (NV_OK, Some index, set_all_channels_list channels manager, fatal)).
Proof.
  intros Hf.
  split; [unfold uvm_channel_manager_check_errors, uvm_global_get_status;
          destruct fatal; [contradiction | reflexivity ..]|].
  split; [intros error; apply uvm_global_set_fatal_error_sticky; exact Hf|].
  split.
  { intros status channel' fatal' Hrun. split.
    - apply check_errors_status in Hrun as [H _]. exact H.
    - eapply check_errors_keeps_fatal; eassumption. }
  split.
  { intros status channel' fatal' Hrun. unfold uvm_channel_reserve in Hrun.
    destruct (try_claim_channel channel) as [[|] c1];
      [injection Hrun as _ _ <-; reflexivity|].
    destruct (uvm_channel_update_progress channel) as [[n c2]|];
      cbn [mbind result_bind bind] in Hrun; [|discriminate Hrun].
    eapply reserve_loop_keeps_fatal; eassumption. }
  split.
  { intros Havail. unfold uvm_channel_reserve, try_claim_channel.
    rewrite Havail. reflexivity. }
  intros type index channels Hscan. unfold uvm_channel_reserve_type.
  rewrite Hscan. reflexivity.
Qed.

(** Witness of the amended C5: the manager of the counterexample. *)
Lemma fatal_status_seen_by_manager_check_witness :
  NV_ERR_RC_ERROR <> NV_OK /\
  uvm_channel_manager_check_errors example_manager NV_ERR_RC_ERROR
  = Ok (NV_ERR_RC_ERROR, example_manager, NV_ERR_RC_ERROR).
Proof.
  split; [discriminate|].
  apply (fatal_status_seen_by_manager_check example_manager example_gpu
           example_faulted NV_ERR_RC_ERROR 0).
  discriminate.
Defined.

(** ** Engine ranking *)

Lemma lex_lt_trans a : forall b c, lex_lt a b -> lex_lt b c -> lex_lt a c.
Proof.
  induction a as [|x a IH]; intros [|y b] [|z c]; cbn [lex_lt]; try tauto.
  intros [Hxy | [Hxy Hab]] [Hyz | [Hyz Hbc]]; try (left; lia).
  right. split; [lia | eapply IH; eassumption].
Qed.

Lemma lex_lt_irrefl a : ~ lex_lt a a.
Proof.
  induction a as [|x a IH]; cbn [lex_lt]; [tauto|].
  intros [H | [_ H]]; [lia | exact (IH H)].
Qed.

Lemma winner_unique gpu type usage_count best best' :
  winner gpu type usage_count best -> winner gpu type usage_count best' ->
  best = best'.
Proof.
  intros [Hel Hwin] [Hel' Hwin'].
  destruct (Nat.eq_dec best best') as [Heq|Hne]; [exact Heq|].
  exfalso. apply (lex_lt_irrefl (ce_rank gpu type usage_count best)).
  eapply lex_lt_trans; [apply Hwin | apply Hwin']; congruence.
Qed.

Section Ranking.

Variable gpu : uvm_gpu_t.
Variable type : uvm_channel_type_t.
Variable usage_count : list Z.

Hypothesis type_not_any : type <> UVM_CHANNEL_TYPE_ANY.
Hypothesis indices_fit_int : Z.of_nat (UVM_COPY_ENGINE_COUNT_MAX gpu) <= 2^31.
Hypothesis usage_length : length usage_count = UVM_COPY_ENGINE_COUNT_MAX gpu.
Hypothesis usage_small : Forall (fun u => 0 <= u < 2^31) usage_count.

Lemma usage_lookup_small i :
  (i < UVM_COPY_ENGINE_COUNT_MAX gpu)%nat -> 0 <= usage_count !!! i < 2^31.
Proof.
  intros Hi. rewrite <- usage_length in Hi.
  destruct (lookup_lt_is_Some_2 _ _ Hi) as [u Hu].
  rewrite (list_lookup_total_correct _ _ _ Hu).
  exact (proj1 (Forall_lookup _ _) usage_small i u Hu).
Qed.

(** The comparator is negative exactly when the first engine ranks
    before the second. *)
Lemma compare_negative_iff_rank i j :
  (i < UVM_COPY_ENGINE_COUNT_MAX gpu)%nat ->
  (j < UVM_COPY_ENGINE_COUNT_MAX gpu)%nat ->
  i <> j ->
  compare_ce_for_channel_type gpu type i j usage_count < 0 <->
  lex_lt (ce_rank gpu type usage_count i) (ce_rank gpu type usage_count j).
Proof.
  intros Hi Hj Hne.
  pose proof (usage_lookup_small i Hi) as Hui.
  pose proof (usage_lookup_small j Hj) as Huj.
  unfold compare_ce_for_channel_type, compare_ce_default, ce_rank.
  set (cap1 := ce_caps gpu !!! i). set (cap2 := ce_caps gpu !!! j).
  set (u1 := usage_count !!! i) in *. set (u2 := usage_count !!! j) in *.
  set (h1 := hweight32 (cePceMask cap1)). set (h2 := hweight32 (cePceMask cap2)).
  destruct type; try contradiction;
    destruct (nvlinkP2p cap1), (nvlinkP2p cap2), (shared cap1), (shared cap2);
    try destruct (sysmemRead cap1), (sysmemRead cap2);
    try destruct (sysmemWrite cap1), (sysmemWrite cap2);
    cbn [eqb negb andb Z.b2z lex_lt];
    repeat match goal with
           | |- context [Z.eqb ?a ?b] => destruct (Z.eqb_spec a b)
           end;
    cbn [negb andb];
    rewrite ?int_of_NvU32_small by lia;
    lia.
Qed.

Lemma rank_total i j :
  i <> j ->
  lex_lt (ce_rank gpu type usage_count i) (ce_rank gpu type usage_count j) \/
  lex_lt (ce_rank gpu type usage_count j) (ce_rank gpu type usage_count i).
Proof.
  intros Hne. unfold ce_rank.
  destruct type; try contradiction; cbn [lex_lt];
    try destruct (nvlinkP2p (ce_caps gpu !!! i));
    try destruct (nvlinkP2p (ce_caps gpu !!! j));
    cbn [Z.b2z negb]; lia.
Qed.

Lemma scan_best_of_prefix n :
  (n <= UVM_COPY_ENGINE_COUNT_MAX gpu)%nat ->
  best_of_prefix gpu type usage_count n
    (fold_left (pick_ce_step gpu type usage_count) (seq 0 n)
               (UVM_COPY_ENGINE_COUNT_MAX gpu)).
Proof.
  induction n as [|n IH]; intros Hn.
  - left. split; [reflexivity | intros j Hj; lia].
  - rewrite seq_S, fold_left_app. cbn [fold_left Nat.add].
    specialize (IH ltac:(lia)).
    set (best := fold_left _ (seq 0 n) _) in *.
    unfold pick_ce_step.
    destruct (ce_usable_for_channel_type type (ce_caps gpu !!! n)) eqn:Hus;
      cbn [negb].
    + destruct IH as [[Hbest Hnone] | (Hbest & Hbus & Hwin)].
      * rewrite Hbest, Nat.eqb_refl. right.
        split; [lia|]. split; [exact Hus|].
        intros j Hj Hjus Hjn. rewrite Hnone in Hjus by lia. discriminate Hjus.
      * destruct (Nat.eqb_spec best (UVM_COPY_ENGINE_COUNT_MAX gpu)) as [|_]; [lia|].
        destruct (Z.ltb_spec (compare_ce_for_channel_type gpu type n best usage_count) 0)
          as [Hneg|Hnot].
        -- apply compare_negative_iff_rank in Hneg; [|lia..].
           right. split; [lia|]. split; [exact Hus|].
           intros j Hj Hjus Hjn.
           destruct (Nat.eq_dec j best) as [->|Hjb]; [exact Hneg|].
           eapply lex_lt_trans; [exact Hneg|]. apply Hwin; [lia | assumption..].
        -- right. split; [lia|]. split; [exact Hbus|].
           intros j Hj Hjus Hjb.
           destruct (Nat.eq_dec j n) as [->|Hjn]; [|apply Hwin; [lia | assumption..]].
           destruct (rank_total best n ltac:(lia)) as [H|H]; [exact H|].
           apply compare_negative_iff_rank in H; [lia | lia..].
    + destruct IH as [[Hbest Hnone] | (Hbest & Hbus & Hwin)].
      * left. split; [exact Hbest|].
        intros j Hj. destruct (Nat.eq_dec j n) as [->|Hjn];
          [exact Hus | apply Hnone; lia].
      * right. split; [lia|]. split; [exact Hbus|].
        intros j Hj Hjus Hjb. apply Hwin; [|assumption..].
        destruct (Nat.eq_dec j n) as [->|Hjn]; [congruence | lia].
Qed.

(** With an eligible engine, the scan ends on the winner. *)
Lemma pick_best_ce_winner :
  (exists i, eligible gpu type i) ->
  winner gpu type usage_count (pick_best_ce gpu type usage_count).
Proof.
  intros (i & Hi & Hus).
  destruct (scan_best_of_prefix (UVM_COPY_ENGINE_COUNT_MAX gpu) ltac:(lia))
    as [[_ Hnone] | (Hbest & Hbus & Hwin)].
  - rewrite Hnone in Hus by exact Hi. discriminate Hus.
  - split; [split; assumption|].
    intros j [Hj Hjus] Hjb. apply Hwin; assumption.
Qed.

End Ranking.

(** ** The scan without assumptions on the counters *)

Lemma scan_range gpu type usage_count n :
  (n <= UVM_COPY_ENGINE_COUNT_MAX gpu)%nat ->
  let best := fold_left (pick_ce_step gpu type usage_count) (seq 0 n)
                        (UVM_COPY_ENGINE_COUNT_MAX gpu) in
  (best = UVM_COPY_ENGINE_COUNT_MAX gpu /\
   forall j, (j < n)%nat ->
             ce_usable_for_channel_type type (ce_caps gpu !!! j) = false) \/
  ((best < n)%nat /\ ce_usable_for_channel_type type (ce_caps gpu !!! best) = true).
Proof.
  induction n as [|n IH]; intros Hn.
  - left. split; [reflexivity | intros j Hj; lia].
  - cbv zeta. rewrite seq_S, fold_left_app. cbn [fold_left Nat.add].
    specialize (IH ltac:(lia)). cbv zeta in IH.
    set (best := fold_left _ (seq 0 n) _) in *.
    unfold pick_ce_step.
    destruct (ce_usable_for_channel_type type (ce_caps gpu !!! n)) eqn:Hus; cbn [negb].
    + right. destruct IH as [[Hbest Hnone] | (Hbest & Hbus)].
      * rewrite Hbest, Nat.eqb_refl. split; [lia | exact Hus].
      * destruct (Nat.eqb_spec best (UVM_COPY_ENGINE_COUNT_MAX gpu)) as [|_]; [lia|].
        destruct (compare_ce_for_channel_type gpu type n best usage_count <? 0);
          split; (lia || assumption).
    + destruct IH as [[Hbest Hnone] | (Hbest & Hbus)].
      * left. split; [exact Hbest|].
        intros j Hj. destruct (Nat.eq_dec j n) as [->|Hjn];
          [exact Hus | apply Hnone; lia].
      * right. split; [lia | exact Hbus].
Qed.

Lemma pick_best_ce_none gpu type usage_count :
  (forall i, ~ eligible gpu type i) ->
  pick_best_ce gpu type usage_count = UVM_COPY_ENGINE_COUNT_MAX gpu.
Proof.
  intros Hnone.
  destruct (scan_range gpu type usage_count (UVM_COPY_ENGINE_COUNT_MAX gpu) ltac:(lia))
    as [[Hbest _] | (Hbest & Hbus)]; [exact Hbest|].
  exfalso. apply (Hnone _ (conj Hbest Hbus)).
Qed.

Lemma pick_best_ce_some gpu type usage_count :
  (exists i, eligible gpu type i) ->
  eligible gpu type (pick_best_ce gpu type usage_count).
Proof.
  intros (i & Hi & Hus).
  destruct (scan_range gpu type usage_count (UVM_COPY_ENGINE_COUNT_MAX gpu) ltac:(lia))
    as [[_ Hnone] | (Hbest & Hbus)].
  - rewrite Hnone in Hus by exact Hi. discriminate Hus.
  - split; assumption.
Qed.

Lemma pick_ce_without_eligible gpu ce_to_use type usage_count :
  length usage_count = UVM_COPY_ENGINE_COUNT_MAX gpu ->
  (forall i, ~ eligible gpu type i) ->
  pick_ce_for_channel_type gpu ce_to_use type usage_count
  = Fault (OutOfBounds (Z.of_nat (UVM_COPY_ENGINE_COUNT_MAX gpu))).
Proof.
  intros Hlen Hnone. unfold pick_ce_for_channel_type.
  rewrite pick_best_ce_none by exact Hnone.
  rewrite lookup_ge_None_2 by lia. reflexivity.
Qed.

Lemma pick_ce_with_eligible gpu ce_to_use type usage_count :
  length usage_count = UVM_COPY_ENGINE_COUNT_MAX gpu ->
  (exists i, eligible gpu type i) ->
  let best_ce := pick_best_ce gpu type usage_count in
  pick_ce_for_channel_type gpu ce_to_use type usage_count
  = Ok (set_ce_to_use type best_ce ce_to_use,
        <[best_ce := NvU32 (usage_count !!! best_ce + 1)]> usage_count).
Proof.
  intros Hlen Hsome best_ce. unfold pick_ce_for_channel_type. fold best_ce.
  destruct (pick_best_ce_some gpu type usage_count Hsome) as [Hbest _].
  fold best_ce in Hbest. rewrite <- Hlen in Hbest.
  destruct (lookup_lt_is_Some_2 _ _ Hbest) as [count Hcount].
  rewrite Hcount, (list_lookup_total_correct _ _ _ Hcount). reflexivity.
Qed.

(** Each pick either goes through, keeping the size of the counter array,
    or writes one past its end. *)
Lemma pick_ce_cases gpu ce_to_use type usage_count :
  length usage_count = UVM_COPY_ENGINE_COUNT_MAX gpu ->
  (exists ce_to_use' usage_count',
      pick_ce_for_channel_type gpu ce_to_use type usage_count
      = Ok (ce_to_use', usage_count') /\
      length usage_count' = UVM_COPY_ENGINE_COUNT_MAX gpu /\
      exists i, eligible gpu type i) \/
  (pick_ce_for_channel_type gpu ce_to_use type usage_count
   = Fault (OutOfBounds (Z.of_nat (UVM_COPY_ENGINE_COUNT_MAX gpu))) /\
   forall i, ~ eligible gpu type i).
Proof.
  intros Hlen.
  destruct (scan_range gpu type usage_count (UVM_COPY_ENGINE_COUNT_MAX gpu) ltac:(lia))
    as [[Hbest Hnone] | (Hbest & Hbus)].
  - right. assert (Hno : forall i, ~ eligible gpu type i).
    { intros i [Hi Hus]. rewrite Hnone in Hus by exact Hi. discriminate Hus. }
    split; [apply pick_ce_without_eligible; assumption | exact Hno].
  - left. assert (Hsome : exists i, eligible gpu type i).
    { eexists. split; eassumption. }
    eexists _, _. split; [apply pick_ce_with_eligible; assumption|].
    split; [rewrite length_insert; exact Hlen | exact Hsome].
Qed.

Lemma pick_all_without_eligible gpu types : forall ce_to_use usage_count type,
  length usage_count = UVM_COPY_ENGINE_COUNT_MAX gpu ->
  In type types ->
  (forall i, ~ eligible gpu type i) ->
  pick_all gpu types ce_to_use usage_count
  = Fault (OutOfBounds (Z.of_nat (UVM_COPY_ENGINE_COUNT_MAX gpu))).
Proof.
  induction types as [|t rest IH]; intros ce_to_use usage_count type Hlen Hin Hnone.
  - destruct Hin.
  - cbn [pick_all].
    destruct (pick_ce_cases gpu ce_to_use t usage_count Hlen)
      as [(ce' & usage' & Hrun & Hlen' & Hsome) | [Hrun _]];
      rewrite Hrun; cbn [mbind result_bind bind]; [|reflexivity].
    destruct Hin as [->|Hin].
    + destruct Hsome as [i Hi]. exfalso. exact (Hnone i Hi).
    + eapply IH; eassumption.
Qed.

(** ** Theorems on engine selection *)

(** C10 fails on the code. The index [best_ce] of the increment
    [++usage_count[best_ce]] is below [UVM_COPY_ENGINE_COUNT_MAX] when some
    engine is eligible for the type; when none is, [best_ce] is
    [UVM_COPY_ENGINE_COUNT_MAX] itself and the increment is a write one past
    the end of the counter array. *)
Theorem pick_ce_usage_index
    (gpu : uvm_gpu_t) (ce_to_use : uvm_channel_type_t -> nat)
    (type : uvm_channel_type_t) (usage_count : list Z) :
  length usage_count = UVM_COPY_ENGINE_COUNT_MAX gpu ->
  ((exists i, eligible gpu type i) ->
   (pick_best_ce gpu type usage_count < UVM_COPY_ENGINE_COUNT_MAX gpu)%nat /\
   exists ce_to_use' usage_count',
     pick_ce_for_channel_type gpu ce_to_use type usage_count
     = Ok (ce_to_use', usage_count')) /\
  ((forall i, ~ eligible gpu type i) ->
   pick_best_ce gpu type usage_count = UVM_COPY_ENGINE_COUNT_MAX gpu /\
   pick_ce_for_channel_type gpu ce_to_use type usage_count
   = Fault (OutOfBounds (Z.of_nat (UVM_COPY_ENGINE_COUNT_MAX gpu)))).
Proof.
  intros Hlen. split.
  - intros Hsome. split.
    + apply (pick_best_ce_some gpu type usage_count Hsome).
    + eexists _, _. apply pick_ce_with_eligible; assumption.
  - intros Hnone. split.
    + apply pick_best_ce_none. exact Hnone.
    + apply pick_ce_without_eligible; assumption.
Qed.

(** Witness of C10's failure: a table of two unsupported engines; the
    first pick writes [usage_count[2]] of a two-element array. *)
Lemma pick_ce_usage_index_witness :
  length [0; 0] = UVM_COPY_ENGINE_COUNT_MAX example_no_engine /\
  pick_best_ce example_no_engine UVM_CHANNEL_TYPE_CPU_TO_GPU [0; 0] = 2%nat /\
  pick_ce_for_channel_type example_no_engine (fun _ => 2%nat)
                           UVM_CHANNEL_TYPE_CPU_TO_GPU [0; 0]
  = Fault (OutOfBounds 2).
Proof.
  split; [reflexivity|].
  destruct (pick_ce_usage_index example_no_engine (fun _ => 2%nat)
              UVM_CHANNEL_TYPE_CPU_TO_GPU [0; 0] eq_refl) as [_ Hnone].
  apply Hnone. intros i [Hi Hus].
  destruct i as [|[|i]]; [discriminate Hus | discriminate Hus |].
  unfold UVM_COPY_ENGINE_COUNT_MAX, example_no_engine in Hi. cbn in Hi. lia.
Defined.

(** With bounds checked, the selection for a table on which one of the
    five types has no eligible engine stops at the increment of the first
    such type, before its final check, and so does the construction once
    the pushbuffer and the procfs directories were created. *)
Lemma pick_copy_engines_stops_at_increment
    (gpu : uvm_gpu_t) (type : uvm_channel_type_t)
    (env : construction_env) (with_procfs : bool) :
  In type pick_order ->
  (forall i, ~ eligible gpu type i) ->
  channel_manager_pick_copy_engines gpu
  = Fault (OutOfBounds (Z.of_nat (UVM_COPY_ENGINE_COUNT_MAX gpu))) /\
  (uvm_kvmalloc_zero_ok env = true ->
   uvm_pushbuffer_create_common env = NV_OK ->
   (with_procfs = true -> manager_create_procfs_dirs env = NV_OK) ->
   uvm_channel_manager_create_common env gpu with_procfs
   = Fault (OutOfBounds (Z.of_nat (UVM_COPY_ENGINE_COUNT_MAX gpu)))) /\
  (forall status manager,
      uvm_channel_manager_create_common env gpu with_procfs
      <> Ok (status, Some manager)).
Proof.
  intros Hin Hnone.
  assert (Hpick : channel_manager_pick_copy_engines gpu
                  = Fault (OutOfBounds (Z.of_nat (UVM_COPY_ENGINE_COUNT_MAX gpu)))).
  { unfold channel_manager_pick_copy_engines.
    rewrite (pick_all_without_eligible gpu pick_order _ _ type);
      [reflexivity | apply length_replicate | exact Hin | exact Hnone]. }
  split; [exact Hpick|]. split.
  - intros Halloc Hpb Hdirs. unfold uvm_channel_manager_create_common.
    rewrite Halloc, Hpb, Hpick. cbn [negb].
    destruct with_procfs; [rewrite Hdirs by reflexivity|]; reflexivity.
  - intros status manager. unfold uvm_channel_manager_create_common.
    rewrite Hpick.
    destruct (uvm_kvmalloc_zero_ok env); cbn [negb]; [|discriminate].
    destruct (uvm_pushbuffer_create_common env); try discriminate.
    destruct with_procfs; [destruct (manager_create_procfs_dirs env)|];
      discriminate.
Qed.


(** ** Usage counters along the picks *)

Lemma usage_after_length gpu assigned :
  length (usage_after gpu assigned) = UVM_COPY_ENGINE_COUNT_MAX gpu.
Proof. unfold usage_after. rewrite length_fmap, length_seq. reflexivity. Qed.

Lemma usage_after_lookup gpu assigned j :
  (j < UVM_COPY_ENGINE_COUNT_MAX gpu)%nat ->
  usage_after gpu assigned !! j = Some (Z.of_nat (count_occ Nat.eq_dec assigned j)).
Proof.
  intros Hj. unfold usage_after.
  rewrite list_lookup_fmap, lookup_seq_lt by exact Hj. reflexivity.
Qed.

Lemma usage_after_nil gpu :
  usage_after gpu [] = replicate (UVM_COPY_ENGINE_COUNT_MAX gpu) 0.
Proof.
  change (usage_after gpu [])
    with ((fun _ : nat => 0) <$> seq 0 (UVM_COPY_ENGINE_COUNT_MAX gpu)).
  generalize (UVM_COPY_ENGINE_COUNT_MAX gpu) as n. intros n.
  generalize 0%nat as start.
  induction n as [|n IH]; intros start; [reflexivity|].
  cbn [seq replicate fmap list_fmap]. f_equal. apply IH.
Qed.

Lemma usage_after_small gpu assigned :
  Z.of_nat (length assigned) < 2^31 ->
  Forall (fun u => 0 <= u < 2^31) (usage_after gpu assigned).
Proof.
  intros Hlen. apply Forall_lookup. intros j u Hj.
  pose proof (lookup_lt_Some _ _ _ Hj) as Hlt. rewrite usage_after_length in Hlt.
  rewrite usage_after_lookup in Hj by exact Hlt. injection Hj as <-.
  pose proof (count_occ_bound Nat.eq_dec j assigned). lia.
Qed.

Lemma usage_after_snoc gpu assigned best :
  (best < UVM_COPY_ENGINE_COUNT_MAX gpu)%nat ->
  Z.of_nat (length assigned) < 2^31 ->
  <[best := NvU32 (usage_after gpu assigned !!! best + 1)]> (usage_after gpu assigned)
  = usage_after gpu (assigned ++ [best]).
Proof.
  intros Hbest Hlen. apply list_eq. intros j.
  destruct (Nat.lt_ge_cases j (UVM_COPY_ENGINE_COUNT_MAX gpu)) as [Hj|Hj].
  - rewrite (usage_after_lookup gpu (assigned ++ [best])) by exact Hj.
    rewrite count_occ_app. cbn [count_occ].
    destruct (Nat.eq_dec best j) as [->|Hne].
    + rewrite list_lookup_insert_eq by (rewrite usage_after_length; exact Hj).
      rewrite (list_lookup_total_correct _ _ _ (usage_after_lookup gpu assigned j Hj)).
      pose proof (count_occ_bound Nat.eq_dec j assigned).
      rewrite NvU32_small by lia. f_equal. lia.
    + rewrite list_lookup_insert_ne by exact Hne.
      rewrite usage_after_lookup by exact Hj. f_equal. lia.
  - rewrite !lookup_ge_None_2;
      rewrite ?length_insert, ?usage_after_length; [reflexivity | lia | lia].
Qed.

(** One pick, on the counters left by the picks before it. *)
Lemma pick_ce_winner gpu ce_to_use type assigned :
  type <> UVM_CHANNEL_TYPE_ANY ->
  Z.of_nat (UVM_COPY_ENGINE_COUNT_MAX gpu) <= 2^31 ->
  Z.of_nat (length assigned) < 2^31 ->
  (exists i, eligible gpu type i) ->
  let best_ce := pick_best_ce gpu type (usage_after gpu assigned) in
  winner gpu type (usage_after gpu assigned) best_ce /\
  pick_ce_for_channel_type gpu ce_to_use type (usage_after gpu assigned)
  = Ok (set_ce_to_use type best_ce ce_to_use, usage_after gpu (assigned ++ [best_ce])).
Proof.
  intros Htype Hmax Hlen Hsome best_ce.
  assert (Hwin : winner gpu type (usage_after gpu assigned) best_ce).
  { apply pick_best_ce_winner; try assumption.
    - apply usage_after_length.
    - apply usage_after_small. exact Hlen. }
  split; [exact Hwin|].
  rewrite pick_ce_with_eligible by (apply usage_after_length || exact Hsome).
  cbv zeta. fold best_ce.
  rewrite usage_after_snoc by (apply Hwin || exact Hlen). reflexivity.
Qed.

(** Counterexample to C6. On a table of two engines fit for every type, of
    which engine 0 alone is NVLINK-capable, the first four picks leave the
    counters at [1; 3]. For MemOps the code takes engine 0, the less used
    one; the ranking of the specification, which places the preference
    against peer-capable engines before the usage count for every type,
    takes engine 1. *)
Lemma memops_pick_differs_from_spec_ranking :
  (exists ce_to_use,
      channel_manager_pick_copy_engines example_two_engines = Ok (NV_OK, ce_to_use) /\
      ce_to_use <$> pick_order = [1; 1; 1; 0; 0]%nat) /\
  usage_after example_two_engines [1; 1; 1; 0]%nat = [1; 3] /\
  pick_best_ce example_two_engines UVM_CHANNEL_TYPE_MEMOPS [1; 3] = 0%nat /\
  spec_pick_best_ce example_two_engines UVM_CHANNEL_TYPE_MEMOPS [1; 3] = 1%nat /\
  compare_ce_for_channel_type example_two_engines UVM_CHANNEL_TYPE_MEMOPS 0 1 [1; 3] < 0 /\
  0 < spec_compare_ce example_two_engines UVM_CHANNEL_TYPE_MEMOPS 0 1 [1; 3].
Proof.
  split; [eexists; split; reflexivity|].
  repeat split; reflexivity.
Qed.

(** C6, amended. Engine selection is a function of the capability table.
    When every type has an eligible engine it returns [NV_OK], and the
    engine of each type, taken in the order CpuToGpu, GpuToCpu,
    GpuInternal, GpuToGpu, MemOps, is the eligible engine whose rank
    vector [ce_rank] is lexicographically least under the usage counts of
    the engines given to the types before it; these conditions leave no
    choice, so any assignment that meets them is the one returned. The
    stages of [ce_rank] are
    those of the code: CpuToGpu and GpuToCpu rank by fast system-memory
    read (resp. write), then against NVLINK engines; GpuInternal by most
    physical copy engines, then against NVLINK engines; GpuToGpu by NVLINK
    and, among NVLINK engines, by most physical copy engines; MemOps has
    neither stage; all end with usage count, non-shared, lowest index. *)
Theorem pick_copy_engines_ranking (gpu : uvm_gpu_t) :
  Z.of_nat (UVM_COPY_ENGINE_COUNT_MAX gpu) <= 2^31 ->
  (forall type, In type pick_order -> exists i, eligible gpu type i) ->
  exists ce_to_use,
    channel_manager_pick_copy_engines gpu = Ok (NV_OK, ce_to_use) /\
    (forall n type,
        pick_order !! n = Some type ->
        winner gpu type (usage_after gpu (ce_to_use <$> take n pick_order))
               (ce_to_use type)) /\
    (forall ce_to_use',
        (forall n type,
            pick_order !! n = Some type ->
            winner gpu type (usage_after gpu (ce_to_use' <$> take n pick_order))
                   (ce_to_use' type)) ->
        forall type, In type pick_order -> ce_to_use' type = ce_to_use type).
Proof.
  intros Hmax Hsome.
  unfold channel_manager_pick_copy_engines. rewrite <- usage_after_nil.
  set (ce0 := fun _ : uvm_channel_type_t => UVM_COPY_ENGINE_COUNT_MAX gpu).
  unfold pick_order at 1. cbn [pick_all].
  destruct (pick_ce_winner gpu ce0 UVM_CHANNEL_TYPE_CPU_TO_GPU [])
    as [Hw1 Hr1];
    [discriminate | exact Hmax | cbn; lia | apply Hsome; cbn; tauto |].
  cbv zeta in Hw1, Hr1. rewrite Hr1. cbn [mbind result_bind bind app].
  set (b1 := pick_best_ce gpu UVM_CHANNEL_TYPE_CPU_TO_GPU (usage_after gpu [])) in *.
  set (ce1 := set_ce_to_use UVM_CHANNEL_TYPE_CPU_TO_GPU b1 ce0).
  destruct (pick_ce_winner gpu ce1 UVM_CHANNEL_TYPE_GPU_TO_CPU [b1])
    as [Hw2 Hr2];
    [discriminate | exact Hmax | cbn; lia | apply Hsome; cbn; tauto |].
  cbv zeta in Hw2, Hr2. rewrite Hr2. cbn [mbind result_bind bind app].
  set (b2 := pick_best_ce gpu UVM_CHANNEL_TYPE_GPU_TO_CPU (usage_after gpu [b1])) in *.
  set (ce2 := set_ce_to_use UVM_CHANNEL_TYPE_GPU_TO_CPU b2 ce1).
  destruct (pick_ce_winner gpu ce2 UVM_CHANNEL_TYPE_GPU_INTERNAL [b1; b2])
    as [Hw3 Hr3];
    [discriminate | exact Hmax | cbn; lia | apply Hsome; cbn; tauto |].
  cbv zeta in Hw3, Hr3. rewrite Hr3. cbn [mbind result_bind bind app].
  set (b3 := pick_best_ce gpu UVM_CHANNEL_TYPE_GPU_INTERNAL
                          (usage_after gpu [b1; b2])) in *.
  set (ce3 := set_ce_to_use UVM_CHANNEL_TYPE_GPU_INTERNAL b3 ce2).
  destruct (pick_ce_winner gpu ce3 UVM_CHANNEL_TYPE_GPU_TO_GPU [b1; b2; b3])
    as [Hw4 Hr4];
    [discriminate | exact Hmax | cbn; lia | apply Hsome; cbn; tauto |].
  cbv zeta in Hw4, Hr4. rewrite Hr4. cbn [mbind result_bind bind app].
  set (b4 := pick_best_ce gpu UVM_CHANNEL_TYPE_GPU_TO_GPU
                          (usage_after gpu [b1; b2; b3])) in *.
  set (ce4 := set_ce_to_use UVM_CHANNEL_TYPE_GPU_TO_GPU b4 ce3).
  destruct (pick_ce_winner gpu ce4 UVM_CHANNEL_TYPE_MEMOPS [b1; b2; b3; b4])
    as [Hw5 Hr5];
    [discriminate | exact Hmax | cbn; lia | apply Hsome; cbn; tauto |].
  cbv zeta in Hw5, Hr5. rewrite Hr5. cbn [mbind result_bind bind app].
  set (b5 := pick_best_ce gpu UVM_CHANNEL_TYPE_MEMOPS
                          (usage_after gpu [b1; b2; b3; b4])) in *.
  set (ce5 := set_ce_to_use UVM_CHANNEL_TYPE_MEMOPS b5 ce4).
  assert (Hneq : forall b type usage_count,
             winner gpu type usage_count b ->
             (b =? UVM_COPY_ENGINE_COUNT_MAX gpu)%nat = false).
  { intros b type usage_count [[Hb _] _]. apply Nat.eqb_neq. lia. }
  exists ce5. split.
  - unfold channel_types.
    cbn [forallb ce5 ce4 ce3 ce2 ce1 set_ce_to_use uvm_channel_type_eqb].
    rewrite (Hneq _ _ _ Hw1), (Hneq _ _ _ Hw2), (Hneq _ _ _ Hw3),
            (Hneq _ _ _ Hw4), (Hneq _ _ _ Hw5).
    reflexivity.
  - split.
    + intros n type Hn.
      destruct n as [|[|[|[|[|n]]]]]; cbn in Hn; try discriminate Hn;
        injection Hn as <-; assumption.
    + intros ce' Hce'.
      pose proof (Hce' 0%nat _ eq_refl) as H1. cbn [take fmap list_fmap] in H1.
      pose proof (winner_unique _ _ _ _ _ H1 Hw1) as E1.
      pose proof (Hce' 1%nat _ eq_refl) as H2.
      cbn [take fmap list_fmap pick_order] in H2. rewrite E1 in H2.
      pose proof (winner_unique _ _ _ _ _ H2 Hw2) as E2.
      pose proof (Hce' 2%nat _ eq_refl) as H3.
      cbn [take fmap list_fmap pick_order] in H3. rewrite E1, E2 in H3.
      pose proof (winner_unique _ _ _ _ _ H3 Hw3) as E3.
      pose proof (Hce' 3%nat _ eq_refl) as H4.
      cbn [take fmap list_fmap pick_order] in H4. rewrite E1, E2, E3 in H4.
      pose proof (winner_unique _ _ _ _ _ H4 Hw4) as E4.
      pose proof (Hce' 4%nat _ eq_refl) as H5.
      cbn [take fmap list_fmap pick_order] in H5. rewrite E1, E2, E3, E4 in H5.
      pose proof (winner_unique _ _ _ _ _ H5 Hw5) as E5.
      intros type Hin. cbn in Hin.
      destruct Hin as [<-|[<-|[<-|[<-|[<-|[]]]]]]; assumption.
Qed.

(** Witness of the amended C6: the table of the counterexample. *)
Lemma pick_copy_engines_ranking_witness :
  Z.of_nat (UVM_COPY_ENGINE_COUNT_MAX example_two_engines) <= 2^31 /\
  exists ce_to_use,
    channel_manager_pick_copy_engines example_two_engines = Ok (NV_OK, ce_to_use).
Proof.
  assert (Hmax : Z.of_nat (UVM_COPY_ENGINE_COUNT_MAX example_two_engines) <= 2^31)
    by (cbn; lia).
  split; [exact Hmax|].
  destruct (pick_copy_engines_ranking example_two_engines Hmax) as (ce & Hrun & _).
  - intros type Hin. exists 1%nat. split; [cbn; lia|].
    cbn in Hin. destruct Hin as [<-|[<-|[<-|[<-|[<-|[]]]]]]; reflexivity.
  - exists ce. exact Hrun.
Defined.

(** ** Scenarios *)

(** Capacity 4, three submissions pending: a fourth claim is refused, a
    waiter keeps polling while the channel is healthy, and returns the
    channel's error once its notifier is set. *)
Example full_ring_blocks_until_fault :
  fst (try_claim_channel example_full) = false /\
  uvm_channel_reserve 5 example_gpu example_full NV_OK = Fault OutOfFuel /\
  match uvm_channel_reserve 5 example_gpu (device_writes 0 1 example_full) NV_OK with
  | Ok (status, c, fatal) =>
    status = NV_ERR_RC_ERROR /\ fatal = NV_ERR_RC_ERROR /\ current_pushes_count c = 0
  | Fault _ => False
  end.
Proof. vm_compute. repeat split. Qed.

(** A forced drain with the completed value behind every submission
    empties the ring; a drain of completed entries leaves it as it is. *)
Example forced_drain_empties_ring :
  match channel_update_progress_all example_full UVM_CHANNEL_UPDATE_MODE_FORCE_ALL with
  | Ok (pending, c) =>
    pending = 0 /\ gpu_get c = cpu_put c /\ length (retired (calls c)) = 3%nat
  | Fault _ => False
  end /\
  uvm_channel_update_progress_all example_full = Ok (3, example_full).
Proof. vm_compute. repeat split. Qed.

(** Six engines, engine 2 alone fast at system-memory reads: CpuToGpu gets
    engine 2, and the later types see its usage count. *)
Example fast_read_engine_goes_to_cpu_to_gpu :
  match channel_manager_pick_copy_engines example_six_engines with
  | Ok (status, ce_to_use) =>
    status = NV_OK /\ ce_to_use <$> pick_order = [2; 0; 1; 3; 4]%nat
  | Fault _ => False
  end.
Proof. vm_compute. repeat split. Qed.

(** * Further properties of the code *)

(** ** What reclamation leaves alone *)

Lemma same_ring_refl c : same_ring c c.
Proof. repeat split. Qed.

Lemma same_ring_trans c1 c2 c3 : same_ring c1 c2 -> same_ring c2 c3 -> same_ring c1 c3.
Proof.
  unfold same_ring. intros (A1 & A2 & A3 & A4 & A5 & A6 & A7)
                           (B1 & B2 & B3 & B4 & B5 & B6 & B7).
  repeat split; congruence.
Qed.

Lemma update_progress_loop_frame budget mode completed put :
  forall get c get' c',
    update_progress_loop budget mode completed put get c = Ok (get', c') ->
    same_ring c c' /\ gpu_get c' = gpu_get c.
Proof.
  induction budget as [|b IH]; intros get c get' c' Hrun; cbn [update_progress_loop] in Hrun.
  - injection Hrun as _ <-. split; [apply same_ring_refl | reflexivity].
  - destruct (get =? put); [injection Hrun as _ <-; split;
                            [apply same_ring_refl | reflexivity]|].
    destruct (gpfifo_entries c !! Z.to_nat get) as [entry|]; [|discriminate Hrun].
    destruct (mode_is_completed mode && (completed <? tracking_semaphore_value entry));
      [injection Hrun as _ <-; split; [apply same_ring_refl | reflexivity]|].
    destruct (push_info entry) as [info|]; [|discriminate Hrun].
    apply IH in Hrun as [Hsame Hget]. split; [|exact Hget].
    eapply same_ring_trans; [|exact Hsame]. repeat split.
Qed.

Lemma update_progress_with_max_frame c max_to_complete mode pending c' :
  uvm_channel_update_progress_with_max c max_to_complete mode = Ok (pending, c') ->
  same_ring c c'.
Proof.
  unfold uvm_channel_update_progress_with_max. intros Hrun.
  destruct (update_progress_loop _ _ _ _ _ _) as [[get c1]|] eqn:Hloop;
    cbn [mbind result_bind bind] in Hrun; [|discriminate Hrun].
  injection Hrun as _ <-.
  apply update_progress_loop_frame in Hloop as [Hsame _].
  eapply same_ring_trans; [exact Hsame|]. repeat split.
Qed.

(** ** Room for a claim *)

Lemma claim_needs_room put get cnt N :
  0 < N -> 0 <= put < N -> 0 <= get < N -> 0 <= cnt ->
  cnt + (put - get) mod N < N - 1 ->
  (put + cnt + 1) mod N <> get.
Proof.
  intros HN Hp Hg Hc Hroom Heq.
  pose proof (Z.mod_pos_bound (put - get) N HN) as Hb.
  assert (H : ((put - get) mod N + (cnt + 1)) mod N = 0).
  { rewrite Zplus_mod_idemp_l.
    replace (put - get + (cnt + 1)) with (put + cnt + 1 - get) by lia.
    rewrite <- Zminus_mod_idemp_l, Heq, Z.sub_diag. apply Z.mod_0_l. lia. }
  rewrite Z.mod_small in H by lia. lia.
Qed.

Lemma available_iff_room c :
  channel_inv c ->
  is_channel_available c = true <->
  current_pushes_count c + pending_count c < numGpFifoEntries c - 1.
Proof.
  intros ((HN & Hlen & Hput & Hget) & H2N & Hcnt & Hroom & _).
  unfold pending_count in *.
  pose proof (Z.mod_pos_bound (cpu_put c - gpu_get c) (numGpFifoEntries c)
                ltac:(lia)) as Hp.
  rewrite next_put_no_wrap by lia. rewrite negb_true_iff, Z.eqb_neq. split.
  - intros Hne.
    destruct (Z.eq_dec (current_pushes_count c
                        + (cpu_put c - gpu_get c) mod numGpFifoEntries c)
                       (numGpFifoEntries c - 1)) as [Hfull|Hnot]; [|lia].
    apply full_ring_not_available in Hfull; [contradiction | lia..].
  - intros Hlt. apply claim_needs_room; lia.
Qed.

(** X1. On a reachable channel a claim attempt succeeds exactly when the
    claimed slots and the pending entries together number fewer than
    [N - 1]: the ring never hands out its last cell. *)
Theorem claim_succeeds_iff_room
    (type : uvm_channel_type_t) (N : Z) (c : uvm_channel_t) :
  reachable type N c ->
  fst (try_claim_channel c) = true <->
  current_pushes_count c + pending_count c < N - 1.
Proof.
  intros Hreach. destruct (reachable_inv _ _ _ Hreach) as [Hinv HN].
  rewrite <- HN, <- (available_iff_room c Hinv).
  unfold try_claim_channel. destruct (is_channel_available c); reflexivity.
Qed.

Lemma claim_succeeds_iff_room_witness :
  reachable UVM_CHANNEL_TYPE_CPU_TO_GPU 4 example_claimed /\
  fst (try_claim_channel example_claimed) = true.
Proof.
  split; [exact example_claimed_reachable|].
  apply (claim_succeeds_iff_room _ _ _ example_claimed_reachable).
  vm_compute. reflexivity.
Defined.

Lemma claim_times_reachable type N k :
  0 < N -> 2 * N <= 2^32 -> reachable type N (claim_times k (created_channel type N)).
Proof.
  intros HN H2N. induction k as [|k IH].
  - apply reachable_created; assumption.
  - unfold claim_times. cbn [Nat.iter]. eapply reachable_step; [exact IH|].
    apply step_claim.
Qed.

Lemma claim_times_cursors type N k :
  cpu_put (claim_times k (created_channel type N)) = 0 /\
  gpu_get (claim_times k (created_channel type N)) = 0.
Proof.
  induction k as [|k [IHp IHg]]; [split; reflexivity|].
  change (claim_times (S k) (created_channel type N))
    with (snd (try_claim_channel (claim_times k (created_channel type N)))).
  unfold try_claim_channel.
  destruct (is_channel_available (claim_times k (created_channel type N)));
    cbn [snd]; split; assumption.
Qed.

Lemma claim_times_count type N k :
  0 < N -> 2 * N <= 2^32 ->
  current_pushes_count (claim_times k (created_channel type N))
  = Z.min (Z.of_nat k) (N - 1).
Proof.
  intros HN H2N. induction k as [|k IH]; [cbn; lia|].
  pose proof (claim_times_reachable type N k HN H2N) as Hreach.
  destruct (reachable_inv _ _ _ Hreach) as [Hinv HNc].
  pose proof (available_iff_room _ Hinv) as Havail.
  destruct (claim_times_cursors type N k) as [Hp Hg].
  unfold pending_count in Havail. rewrite Hp, Hg, HNc, IH in Havail.
  rewrite Z.sub_diag, Z.mod_0_l in Havail by lia.
  change (claim_times (S k) (created_channel type N))
    with (snd (try_claim_channel (claim_times k (created_channel type N)))).
  unfold try_claim_channel.
  destruct (is_channel_available (claim_times k (created_channel type N))).
  - cbn [snd set_current_pushes_count current_pushes_count].
    pose proof (proj1 Havail eq_refl). rewrite IH, NvU32_small by lia. lia.
  - cbn [snd]. rewrite IH.
    assert (~ (Z.min (Z.of_nat k) (N - 1) + 0 < N - 1)).
    { intros H. apply Havail in H. discriminate H. }
    lia.
Qed.

(** X2. A freshly created channel of capacity [N] grants exactly [N - 1]
    claims in a row: the attempt after [k] earlier ones succeeds exactly
    when [k < N - 1], and the count then stays at [N - 1]. *)
Theorem fresh_channel_grants_all_but_one
    (type : uvm_channel_type_t) (N : Z) (k : nat) :
  0 < N -> 2 * N <= 2^32 ->
  (fst (try_claim_channel (claim_times k (created_channel type N))) = true <->
   Z.of_nat k < N - 1) /\
  current_pushes_count (claim_times k (created_channel type N))
  = Z.min (Z.of_nat k) (N - 1).
Proof.
  intros HN H2N. split; [|apply claim_times_count; assumption].
  pose proof (claim_times_reachable type N k HN H2N) as Hreach.
  destruct (reachable_inv _ _ _ Hreach) as [Hinv HNc].
  pose proof (available_iff_room _ Hinv) as Havail.
  destruct (claim_times_cursors type N k) as [Hp Hg].
  unfold pending_count in Havail.
  rewrite Hp, Hg, HNc, claim_times_count in Havail by assumption.
  rewrite Z.sub_diag, Z.mod_0_l in Havail by lia.
  unfold try_claim_channel.
  destruct (is_channel_available (claim_times k (created_channel type N)));
    cbn [fst]; split; intros H; try reflexivity; try discriminate H.
  - pose proof (proj1 Havail eq_refl). lia.
  - assert (Z.min (Z.of_nat k) (N - 1) + 0 < N - 1) as H' by lia.
    apply Havail in H'. discriminate H'.
Qed.

Lemma fresh_channel_grants_all_but_one_witness :
  fst (try_claim_channel (claim_times 2 (created_channel UVM_CHANNEL_TYPE_MEMOPS 4)))
  = true /\
  fst (try_claim_channel (claim_times 3 (created_channel UVM_CHANNEL_TYPE_MEMOPS 4)))
  = false.
Proof.
  destruct (fresh_channel_grants_all_but_one UVM_CHANNEL_TYPE_MEMOPS 4 2) as [H2 _];
    [lia | lia |].
  destruct (fresh_channel_grants_all_but_one UVM_CHANNEL_TYPE_MEMOPS 4 3) as [H3 _];
    [lia | lia |].
  split; [apply H2; lia|].
  destruct (fst (try_claim_channel
                   (claim_times 3 (created_channel UVM_CHANNEL_TYPE_MEMOPS 4))));
    [|reflexivity].
  pose proof (proj1 H3 eq_refl). lia.
Defined.

(** ** Full reclamation, the first pending entry, teardown *)

Lemma pending_fits_budget c pend :
  ring_wf c -> pending_entries c pend ->
  (length pend < Z.to_nat (numGpFifoEntries c))%nat.
Proof.
  intros (HN & _) [Hcount _]. unfold pending_count in Hcount.
  pose proof (Z.mod_pos_bound (cpu_put c - gpu_get c) (numGpFifoEntries c)
                ltac:(lia)). lia.
Qed.

Lemma inv_pending c :
  channel_inv c ->
  pending_entries c (drop (length (retired (calls c))) (submitted (calls c))) /\
  Forall bound (drop (length (retired (calls c))) (submitted (calls c))) /\
  (length (retired (calls c)) <= length (submitted (calls c)))%nat.
Proof.
  intros (_ & _ & _ & _ & (pend & Hpend & Hsplit) & Htv).
  rewrite Hsplit at 1 2 3. rewrite drop_app_length, length_app.
  split; [exact Hpend|]. split; [|lia].
  eapply pending_bound; eassumption.
Qed.

Lemma pending_tracking_values c i e :
  channel_inv c ->
  Z.of_nat (length (submitted (calls c))) < 2^64 ->
  drop (length (retired (calls c))) (submitted (calls c)) !! i = Some e ->
  tracking_semaphore_value e = Z.of_nat (length (retired (calls c))) + Z.of_nat i + 1.
Proof.
  intros (_ & _ & _ & _ & _ & Htv) Hn Hi. rewrite lookup_drop in Hi.
  rewrite (submitted_tracking_value c _ e Htv Hn Hi). lia.
Qed.

Lemma retire_count_consecutive pend : forall (r : Z) budget completed,
  (forall i e, pend !! i = Some e ->
               tracking_semaphore_value e = r + Z.of_nat i + 1) ->
  (length pend <= budget)%nat ->
  retire_count budget UVM_CHANNEL_UPDATE_MODE_COMPLETED completed pend
  = Z.to_nat (Z.min (Z.of_nat (length pend)) (Z.max 0 (completed - r))).
Proof.
  induction pend as [|e rest IH]; intros r budget completed Hval Hlen.
  - destruct budget; cbn; lia.
  - destruct budget as [|b]; [cbn in Hlen; lia|].
    cbn [retire_count mode_is_completed andb].
    pose proof (Hval 0%nat e eq_refl) as He. cbn in He.
    destruct (Z.ltb_spec completed (tracking_semaphore_value e)).
    + cbn [length]. lia.
    + rewrite (IH (r + 1)).
      * cbn [length]. lia.
      * intros i e' Hi. rewrite (Hval (S i) e' Hi). lia.
      * cbn [length] in Hlen. lia.
Qed.

Lemma first_pending_entry_spec c pend :
  ring_wf c -> pending_entries c pend -> Forall bound pend ->
  let k := retire_count (Z.to_nat (numGpFifoEntries c)) UVM_CHANNEL_UPDATE_MODE_COMPLETED
                        (completed_value (tracking_sem c)) pend in
  uvm_channel_get_first_pending_entry c
  = Ok (pend !! k,
        set_gpu_get ((gpu_get c + Z.of_nat k) mod numGpFifoEntries c)
                    (retire_entries (take k pend) c)).
Proof.
  intros Hwf Hpend Hbound k.
  unfold uvm_channel_get_first_pending_entry, channel_update_progress_all.
  rewrite (update_progress_with_max_spec c pend) by assumption.
  cbv zeta. fold k. cbn [mbind result_bind bind].
  assert (Hk : (k <= length pend)%nat) by apply retire_count_le_length.
  destruct (pending_entries_after_retire c pend k Hwf Hpend Hk)
    as ((HN & Hlen & Hput & Hget) & [Hcount Hwin] & Hpc).
  set (c' := set_gpu_get _ _) in *.
  destruct (Z.eqb_spec (Z.of_nat (length pend) - Z.of_nat k) 0) as [Hz|Hnz].
  - rewrite lookup_ge_None_2 by lia. reflexivity.
  - assert (Hne : gpu_get c' <> cpu_put c').
    { intros Heq. unfold pending_count in Hcount. rewrite Heq, Z.sub_diag in Hcount.
      rewrite Z.mod_0_l, length_drop in Hcount by lia. lia. }
    destruct (Z.eqb_spec (gpu_get c') (cpu_put c')) as [|_]; [contradiction|].
    cbn [negb].
    destruct (drop k pend) as [|e rest] eqn:Hdrop.
    { apply (f_equal length) in Hdrop. rewrite length_drop in Hdrop. cbn in Hdrop. lia. }
    cbn [length] in Hwin. rewrite ring_window_cons in Hwin. cbn [map] in Hwin.
    rewrite (Z.mod_small (gpu_get c')) in Hwin by exact Hget.
    assert (Hhead : gpfifo_entries c' !! Z.to_nat (gpu_get c') = Some e)
      by congruence.
    rewrite Hhead.
    assert (Hlook : pend !! k = Some e).
    { rewrite <- (Nat.add_0_r k), <- lookup_drop, Hdrop. reflexivity. }
    rewrite Hlook. reflexivity.
Qed.

Lemma full_reclaim_count r n completed :
  0 <= r <= n ->
  r + Z.of_nat (Z.to_nat (Z.min (n - r) (Z.max 0 (completed - r))))
  = Z.max r (Z.min completed n).
Proof. lia. Qed.

Lemma reachable_full_reclaim type N c mode :
  reachable type N c ->
  let pend := drop (length (retired (calls c))) (submitted (calls c)) in
  let k := retire_count (Z.to_nat (numGpFifoEntries c)) mode
                        (completed_value (tracking_sem c)) pend in
  let c' := set_gpu_get ((gpu_get c + Z.of_nat k) mod numGpFifoEntries c)
                        (retire_entries (take k pend) c) in
  channel_update_progress_all c mode = Ok (Z.of_nat (length pend) - Z.of_nat k, c') /\
  reachable type N c' /\
  submitted (calls c') = submitted (calls c) /\
  retired (calls c') = take (length (retired (calls c)) + k) (submitted (calls c)).
Proof.
  intros Hreach pend k c'.
  destruct (reachable_inv _ _ _ Hreach) as [Hinv HN].
  destruct (inv_pending c Hinv) as (Hpend & Hbound & Hle).
  pose proof Hinv as (Hwf & _ & _ & _ & (pend0 & _ & Hsplit) & _).
  assert (Hrun : channel_update_progress_all c mode
                 = Ok (Z.of_nat (length pend) - Z.of_nat k, c')).
  { unfold channel_update_progress_all.
    rewrite (update_progress_with_max_spec c pend) by assumption. reflexivity. }
  split; [exact Hrun|]. split; [|split].
  - eapply reachable_step; [exact Hreach|].
    eapply step_update_progress. exact Hrun.
  - unfold c'. cbn [calls set_gpu_get retire_entries].
    rewrite submitted_app, submitted_mark_completed, app_nil_r. reflexivity.
  - unfold c'. cbn [calls set_gpu_get retire_entries].
    rewrite retired_app, retired_mark_completed.
    assert (Hp : pend = pend0).
    { unfold pend. rewrite Hsplit, drop_app_length. reflexivity. }
    transitivity (take (length (retired (calls c)) + k) (retired (calls c) ++ pend0));
      [| rewrite <- Hsplit; reflexivity].
    rewrite take_app_add' by reflexivity. do 2 f_equal. exact Hp.
Qed.

(** X3. A full reclamation of completed entries
    ([uvm_channel_update_progress_all]) on a reachable channel whose 64-bit
    counter has not wrapped returns normally. With [n] entries submitted,
    [r] of them retired before and completed value [v], it leaves exactly
    the first [max r (min v n)] submissions retired and returns the number
    of the others, [n - max r (min v n)]: when [r <= v <= n], the number of
    submissions the device has not completed. *)
Theorem update_progress_all_reports_incomplete
    (type : uvm_channel_type_t) (N : Z) (c : uvm_channel_t) :
  reachable type N c ->
  Z.of_nat (length (submitted (calls c))) < 2^64 ->
  let n := Z.of_nat (length (submitted (calls c))) in
  let r := Z.of_nat (length (retired (calls c))) in
  let done := Z.max r (Z.min (uvm_channel_update_completed_value c) n) in
  exists c',
    uvm_channel_update_progress_all c = Ok (n - done, c') /\
    reachable type N c' /\
    retired (calls c') = take (Z.to_nat done) (submitted (calls c)) /\
    submitted (calls c') = submitted (calls c) /\
    same_ring c c'.
Proof.
  intros Hreach Hnowrap n r done.
  destruct (reachable_inv _ _ _ Hreach) as [Hinv HN].
  destruct (inv_pending c Hinv) as (Hpend & Hbound & Hle).
  pose proof Hinv as (Hwf & _).
  destruct (reachable_full_reclaim type N c UVM_CHANNEL_UPDATE_MODE_COMPLETED Hreach)
    as (Hrun & Hreach' & Hsub & Hret).
  cbv zeta in Hrun, Hreach', Hsub, Hret.
  set (pend := drop (length (retired (calls c))) (submitted (calls c))) in *.
  assert (Hk : retire_count (Z.to_nat (numGpFifoEntries c))
                 UVM_CHANNEL_UPDATE_MODE_COMPLETED (completed_value (tracking_sem c)) pend
               = Z.to_nat (Z.min (Z.of_nat (length pend))
                                 (Z.max 0 (completed_value (tracking_sem c) - r)))).
  { apply retire_count_consecutive.
    - intros i e Hi. apply pending_tracking_values; assumption.
    - pose proof (pending_fits_budget c pend Hwf Hpend). lia. }
  rewrite Hk in Hrun, Hreach', Hsub, Hret.
  assert (Hlen : Z.of_nat (length pend) = n - r).
  { unfold pend, n, r. rewrite length_drop. lia. }
  rewrite Hlen in Hrun, Hreach', Hsub, Hret.
  pose proof (full_reclaim_count r n (completed_value (tracking_sem c))
                ltac:(unfold r, n; lia)) as Hdone.
  unfold done, uvm_channel_update_completed_value.
  eexists. split; [|split; [exact Hreach'|split; [|split; [exact Hsub|]]]].
  - unfold uvm_channel_update_progress_all. rewrite Hrun. do 2 f_equal.
    rewrite <- Hdone. lia.
  - rewrite Hret. f_equal. rewrite <- Hdone. unfold r. lia.
  - eapply update_progress_with_max_frame. exact Hrun.
Qed.

Lemma update_progress_all_reports_incomplete_witness :
  reachable UVM_CHANNEL_TYPE_CPU_TO_GPU 4 example_retired /\
  exists c', uvm_channel_update_progress_all example_retired = Ok (1, c').
Proof.
  split; [exact example_retired_reachable|].
  destruct (update_progress_all_reports_incomplete _ _ _ example_retired_reachable)
    as (c' & Hrun & _); [reflexivity|].
  exists c'. exact Hrun.
Defined.

(** X4. [uvm_channel_get_first_pending_entry] on a reachable channel whose
    counter has not wrapped returns normally, and what it returns is the
    oldest submission that is neither retired nor completed: with [r]
    entries retired and completed value [v], the submission number
    [max r v + 1], whose tracking value is that number and exceeds [v]. It
    returns NULL exactly when no such submission exists. *)
Theorem first_pending_entry_is_oldest_incomplete
    (type : uvm_channel_type_t) (N : Z) (c : uvm_channel_t) :
  reachable type N c ->
  Z.of_nat (length (submitted (calls c))) < 2^64 ->
  let n := Z.of_nat (length (submitted (calls c))) in
  let r := Z.of_nat (length (retired (calls c))) in
  let v := uvm_channel_update_completed_value c in
  exists entry c',
    uvm_channel_get_first_pending_entry c = Ok (entry, c') /\
    entry = submitted (calls c) !! Z.to_nat (Z.max r (Z.min v n)) /\
    (entry = None <-> n <= Z.max r v) /\
    (forall e, entry = Some e ->
               tracking_semaphore_value e = Z.max r v + 1 /\
               v < tracking_semaphore_value e /\
               bound e).
Proof.
  intros Hreach Hnowrap n r v.
  subst n r v. unfold uvm_channel_update_completed_value.
  set (n := Z.of_nat (length (submitted (calls c)))) in *.
  set (r := Z.of_nat (length (retired (calls c)))).
  destruct (reachable_inv _ _ _ Hreach) as [Hinv HN].
  destruct (inv_pending c Hinv) as (Hpend & Hbound & Hle).
  pose proof Hinv as (Hwf & _ & _ & _ & _ & Htv).
  set (pend := drop (length (retired (calls c))) (submitted (calls c))) in *.
  pose proof (first_pending_entry_spec c pend Hwf Hpend Hbound) as Hrun.
  cbv zeta in Hrun.
  rewrite (retire_count_consecutive pend r) in Hrun;
    [| intros i e Hi; apply pending_tracking_values; assumption
     | pose proof (pending_fits_budget c pend Hwf Hpend); lia].
  assert (Hlen : Z.of_nat (length pend) = n - r).
  { unfold pend, n, r. rewrite length_drop. lia. }
  rewrite Hlen in Hrun.
  assert (Hrn : 0 <= r <= n) by (unfold r, n; lia).
  pose proof (full_reclaim_count r n (completed_value (tracking_sem c)) Hrn) as Hdone.
  set (k := Z.to_nat (Z.min (n - r) (Z.max 0 (completed_value (tracking_sem c) - r))))
    in *.
  assert (Hidx : pend !! k
                 = submitted (calls c)
                   !! Z.to_nat (Z.max r (Z.min (completed_value (tracking_sem c)) n))).
  { unfold pend. rewrite lookup_drop. f_equal. rewrite <- Hdone. unfold r. lia. }
  eexists _, _. split; [exact Hrun|]. split; [exact Hidx|].
  rewrite Hidx. split.
  - rewrite lookup_ge_None. fold n. lia.
  - intros e He.
    pose proof (lookup_lt_Some _ _ _ He) as Hlt. fold n in Hlt.
    rewrite (submitted_tracking_value c _ e Htv Hnowrap He).
    destruct Htv as [_ Hall]. destruct (Hall _ _ He) as [_ Hb].
    split; [|split; [|exact Hb]]; lia.
Qed.

Lemma first_pending_entry_is_oldest_incomplete_witness :
  reachable UVM_CHANNEL_TYPE_CPU_TO_GPU 4 example_retired /\
  exists c',
    uvm_channel_get_first_pending_entry example_retired
    = Ok (Some (mk_entry 2 0 16 (Some 0)), c').
Proof.
  split; [exact example_retired_reachable|].
  destruct (first_pending_entry_is_oldest_incomplete _ _ _ example_retired_reachable)
    as (entry & c' & Hrun & Hentry & _); [reflexivity|].
  exists c'. rewrite Hrun, Hentry. reflexivity.
Defined.

Lemma check_errors_unhealthy gpu channel fatal :
  uvm_channel_get_status gpu channel <> NV_OK ->
  uvm_channel_check_errors gpu channel fatal
  = ('(fatal_entry, channel') ← uvm_channel_get_fatal_entry channel;
     match fatal_entry with
     | Some entry =>
       match push_info entry with
       | Some _ =>
         Ok (uvm_channel_get_status gpu channel, channel',
             uvm_global_set_fatal_error (uvm_channel_get_status gpu channel) fatal)
       | None => Fault NullPointer
       end
     | None =>
       Ok (uvm_channel_get_status gpu channel, channel',
           uvm_global_set_fatal_error (uvm_channel_get_status gpu channel) fatal)
     end).
Proof.
  intros Hst. unfold uvm_channel_check_errors.
  destruct (uvm_channel_get_status gpu channel); [contradiction | reflexivity ..].
Qed.

(** X5. On a reachable channel [uvm_channel_check_errors] never goes wrong.
    On a healthy channel it returns [NV_OK] and changes neither the channel
    nor the global fatal status. On a faulted one it returns the channel's
    status, records it as the global fatal status unless one is already
    set, and touches nothing of the channel but what a reclamation of
    completed entries touches; the channel stays reachable. *)
Theorem check_errors_on_reachable
    (type : uvm_channel_type_t) (N : Z) (gpu : uvm_gpu_t) (c : uvm_channel_t)
    (fatal : NV_STATUS) :
  reachable type N c ->
  exists c',
    uvm_channel_check_errors gpu c fatal
    = Ok (uvm_channel_get_status gpu c, c',
          match uvm_channel_get_status gpu c with
          | NV_OK => fatal
          | status => uvm_global_set_fatal_error status fatal
          end) /\
    reachable type N c' /\
    same_ring c c' /\
    (uvm_channel_get_status gpu c = NV_OK -> c' = c).
Proof.
  intros Hreach.
  destruct (Z.eqb_spec (errorNotifier_status c) 0) as [Hz|Hnz].
  - assert (Hst : uvm_channel_get_status gpu c = NV_OK).
    { unfold uvm_channel_get_status. rewrite Hz. reflexivity. }
    exists c. unfold uvm_channel_check_errors. rewrite Hst.
    split; [reflexivity|]. split; [exact Hreach|].
    split; [apply same_ring_refl | reflexivity].
  - assert (Hst : uvm_channel_get_status gpu c <> NV_OK).
    { unfold uvm_channel_get_status.
      destruct (Z.eqb_spec (errorNotifier_status c) 0) as [|_]; [contradiction|].
      destruct (ecc_enabled gpu && negb (ecc_error_notifier gpu =? 0)); discriminate. }
    destruct (reachable_inv _ _ _ Hreach) as [Hinv HN].
    destruct (inv_pending c Hinv) as (Hpend & Hbound & Hle).
    pose proof Hinv as (Hwf & _).
    destruct (reachable_full_reclaim type N c UVM_CHANNEL_UPDATE_MODE_COMPLETED Hreach)
      as (Hall & Hreach' & _). cbv zeta in Hall, Hreach'.
    set (pend := drop (length (retired (calls c))) (submitted (calls c))) in *.
    pose proof (first_pending_entry_spec c pend Hwf Hpend Hbound) as Hrun.
    cbv zeta in Hrun.
    set (k := retire_count _ _ _ pend) in *.
    set (c' := set_gpu_get _ _) in *.
    exists c'. rewrite check_errors_unhealthy by exact Hst.
    unfold uvm_channel_get_fatal_entry. rewrite Hrun. cbn [mbind result_bind bind].
    assert (Hres : match pend !! k with
                   | Some entry =>
                     match push_info entry with
                     | Some _ =>
                       Ok (uvm_channel_get_status gpu c, c',
                           uvm_global_set_fatal_error (uvm_channel_get_status gpu c) fatal)
                     | None => Fault NullPointer
                     end
                   | None =>
                     Ok (uvm_channel_get_status gpu c, c',
                         uvm_global_set_fatal_error (uvm_channel_get_status gpu c) fatal)
                   end
                   = Ok (uvm_channel_get_status gpu c, c',
                         uvm_global_set_fatal_error (uvm_channel_get_status gpu c) fatal)).
    { destruct (pend !! k) as [e|] eqn:He; [|reflexivity].
      destruct (proj1 (Forall_lookup _ _) Hbound k e He) as [info Hinfo].
      rewrite Hinfo. reflexivity. }
    rewrite Hres.
    split; [destruct (uvm_channel_get_status gpu c); [contradiction | reflexivity ..]|].
    split; [exact Hreach'|].
    split; [eapply update_progress_with_max_frame; exact Hall | intros H; contradiction].
Qed.

Lemma check_errors_on_reachable_witness :
  reachable UVM_CHANNEL_TYPE_CPU_TO_GPU 4 (device_writes 0 1 example_retired) /\
  exists c',
    uvm_channel_check_errors example_gpu (device_writes 0 1 example_retired) NV_OK
    = Ok (NV_ERR_RC_ERROR, c', NV_ERR_RC_ERROR).
Proof.
  assert (Hreach : reachable UVM_CHANNEL_TYPE_CPU_TO_GPU 4
                             (device_writes 0 1 example_retired)).
  { eapply reachable_step; [exact example_retired_reachable | apply step_device]. }
  split; [exact Hreach|].
  destruct (check_errors_on_reachable _ _ example_gpu _ NV_OK Hreach) as (c' & Hrun & _).
  exists c'. exact Hrun.
Defined.

Lemma force_all_drains type N c :
  reachable type N c ->
  Z.of_nat (length (submitted (calls c))) < 2^64 ->
  exists pending c',
    channel_update_progress_all c UVM_CHANNEL_UPDATE_MODE_FORCE_ALL = Ok (pending, c') /\
    retired (calls c') = submitted (calls c) /\
    submitted (calls c') = submitted (calls c) /\
    gpu_get c' = cpu_put c' /\
    same_ring c c'.
Proof.
  intros Hreach Hnowrap.
  destruct (reachable_inv _ _ _ Hreach) as [Hinv HN].
  destruct (inv_pending c Hinv) as (Hpend & Hbound & Hle).
  pose proof Hinv as (Hwf & _).
  destruct (reachable_full_reclaim type N c UVM_CHANNEL_UPDATE_MODE_FORCE_ALL Hreach)
    as (Hrun & Hreach' & Hsub & Hret).
  cbv zeta in Hrun, Hreach', Hsub, Hret.
  set (pend := drop (length (retired (calls c))) (submitted (calls c))) in *.
  rewrite retire_count_force in Hrun, Hreach', Hsub, Hret.
  pose proof (pending_fits_budget c pend Hwf Hpend) as Hfit.
  rewrite Nat.min_r in Hrun, Hreach', Hsub, Hret by lia.
  do 2 eexists. split; [exact Hrun|]. split; [|split; [exact Hsub|split]].
  - rewrite Hret. apply take_ge. unfold pend. rewrite length_drop. lia.
  - destruct (pending_entries_after_retire c pend (length pend) Hwf Hpend (le_n _))
      as ((HN' & _ & Hput' & Hget') & _ & Hpc).
    cbv zeta in HN', Hput', Hget', Hpc.
    destruct Hpend as [Hcount _]. rewrite <- Hcount, Z.sub_diag in Hpc.
    unfold pending_count in Hpc.
    apply pending_count_zero in Hpc; [exact Hpc | lia..].
  - eapply update_progress_with_max_frame. exact Hrun.
Qed.

(** A channel that never queued a value has nothing submitted and an empty
    ring. *)
Lemma never_queued_empty type N c :
  reachable type N c ->
  Z.of_nat (length (submitted (calls c))) < 2^64 ->
  queued_value (tracking_sem c) <= 0 ->
  retired (calls c) = submitted (calls c) /\ gpu_get c = cpu_put c.
Proof.
  intros Hreach Hnowrap Hnone.
  destruct (reachable_inv _ _ _ Hreach) as [Hinv HN].
  destruct (inv_pending c Hinv) as (_ & _ & Hle).
  destruct Hinv as (Hwf & _ & _ & _ & (pend0 & Hpend0 & Hsplit) & [Hq _]).
  rewrite NvU64_small in Hq by lia.
  assert (Hnil : submitted (calls c) = []).
  { destruct (submitted (calls c)); [reflexivity | cbn in Hq; lia]. }
  assert (Hrnil : retired (calls c) = []).
  { rewrite Hnil in Hle. destruct (retired (calls c)); [reflexivity | cbn in Hle; lia]. }
  split; [rewrite Hnil, Hrnil; reflexivity|].
  destruct Hpend0 as [Hcount _].
  rewrite Hnil, Hrnil in Hsplit. destruct pend0; [|discriminate Hsplit].
  destruct Hwf as (HN' & _ & Hput & Hget).
  cbn in Hcount. symmetry in Hcount. unfold pending_count in Hcount.
  apply pending_count_zero in Hcount; [exact Hcount | lia..].
Qed.

(** X6. [destroy_channel] on a reachable channel whose counter has not
    wrapped returns normally and leaves nothing behind in the pushbuffer:
    when the structure is freed, every entry ever submitted has been
    reported to [uvm_pushbuffer_mark_completed] exactly once and in
    submission order, whatever the completed value, and the ring is empty. *)
Theorem destroy_channel_drains_ring
    (type : uvm_channel_type_t) (N : Z) (c : uvm_channel_t) :
  reachable type N c ->
  Z.of_nat (length (submitted (calls c))) < 2^64 ->
  exists c',
    destroy_channel (Some c) = Ok (Some c') /\
    retired (calls c') = submitted (calls c) /\
    submitted (calls c') = submitted (calls c) /\
    gpu_get c' = cpu_put c' /\
    same_ring c c'.
Proof.
  intros Hreach Hnowrap. unfold destroy_channel.
  destruct (Z.ltb_spec 0 (queued_value (tracking_sem c))) as [Hqueued|Hnone].
  - destruct (force_all_drains type N c Hreach Hnowrap)
      as (pending & c' & Hrun & Hret & Hsub & Hidle & Hsame).
    rewrite Hrun. cbn [mbind result_bind bind].
    exists c'. split; [reflexivity|]. split; [exact Hret|].
    split; [exact Hsub|]. split; [exact Hidle | exact Hsame].
  - destruct (never_queued_empty type N c Hreach Hnowrap Hnone) as [Hret Hidle].
    exists c. split; [reflexivity|]. split; [exact Hret|].
    split; [reflexivity|]. split; [exact Hidle | apply same_ring_refl].
Qed.

Lemma destroy_channel_drains_ring_witness :
  reachable UVM_CHANNEL_TYPE_CPU_TO_GPU 4 example_retired /\
  exists c',
    destroy_channel (Some example_retired) = Ok (Some c') /\
    length (retired (calls c')) = 2%nat.
Proof.
  split; [exact example_retired_reachable|].
  destruct (destroy_channel_drains_ring _ _ _ example_retired_reachable)
    as (c' & Hrun & Hret & _); [reflexivity|].
  exists c'. split; [exact Hrun|]. rewrite Hret. reflexivity.
Defined.

(** ** Waiting for a slot *)

Lemma first_pending_entry_frame c entry c' :
  uvm_channel_get_first_pending_entry c = Ok (entry, c') -> same_ring c c'.
Proof.
  unfold uvm_channel_get_first_pending_entry, channel_update_progress_all.
  destruct (uvm_channel_update_progress_with_max c _ _) as [[pending c1]|] eqn:Hrun;
    cbn [mbind result_bind bind]; [|discriminate].
  apply update_progress_with_max_frame in Hrun.
  destruct (pending =? 0); [intros H; injection H as _ <-; exact Hrun|].
  destruct (negb (gpu_get c1 =? cpu_put c1));
    [|intros H; injection H as _ <-; exact Hrun].
  destruct (gpfifo_entries c1 !! Z.to_nat (gpu_get c1)); [|discriminate].
  intros H. injection H as _ <-. exact Hrun.
Qed.

Lemma status_ok_dec (status : NV_STATUS) : {status = NV_OK} + {status <> NV_OK}.
Proof. destruct status; [left; reflexivity | right; discriminate ..]. Qed.




Lemma try_claim_cases c :
  (try_claim_channel c = (false, c)) \/
  (exists c', try_claim_channel c = (true, c') /\ claimed_on c c').
Proof.
  unfold try_claim_channel. destruct (is_channel_available c).
  - right. eexists. split; [reflexivity|]. repeat split.
  - left. reflexivity.
Qed.





Lemma set_gpu_get_same c : set_gpu_get (gpu_get c) c = c.
Proof. destruct c. reflexivity. Qed.

Lemma retire_count_head_incomplete budget mode completed pend :
  mode = UVM_CHANNEL_UPDATE_MODE_COMPLETED ->
  (forall e, pend !! 0%nat = Some e -> completed < tracking_semaphore_value e) ->
  retire_count budget mode completed pend = 0%nat.
Proof.
  intros -> Hhead. destruct budget, pend as [|e rest]; try reflexivity.
  cbn [retire_count mode_is_completed andb].
  pose proof (Hhead e eq_refl).
  destruct (Z.ltb_spec completed (tracking_semaphore_value e)); [reflexivity | lia].
Qed.

Lemma retire_count_head_complete budget mode completed e rest :
  tracking_semaphore_value e <= completed ->
  (1 <= retire_count (S budget) mode completed (e :: rest))%nat.
Proof.
  intros Hdone. cbn [retire_count].
  destruct (Z.ltb_spec completed (tracking_semaphore_value e)); [lia|].
  rewrite andb_false_r. lia.
Qed.

(** A reclamation that finds nothing completed returns the pending count
    and leaves the channel as it is. *)
Lemma update_progress_nothing_completed type N c max_to_complete :
  reachable type N c ->
  Z.of_nat (length (submitted (calls c))) < 2^64 ->
  Z.min (completed_value (tracking_sem c)) (Z.of_nat (length (submitted (calls c))))
  <= Z.of_nat (length (retired (calls c))) ->
  uvm_channel_update_progress_with_max c max_to_complete UVM_CHANNEL_UPDATE_MODE_COMPLETED
  = Ok (pending_count c, c).
Proof.
  intros Hreach Hnowrap Hnone.
  destruct (reachable_inv _ _ _ Hreach) as [Hinv HN].
  destruct (inv_pending c Hinv) as (Hpend & Hbound & Hle).
  pose proof Hinv as ((HN' & Hlen & Hput & Hget) & _).
  rewrite (update_progress_with_max_spec c _ _ _ (proj1 Hinv) Hpend Hbound).
  cbv zeta. rewrite retire_count_head_incomplete; [|reflexivity|].
  - rewrite take_0, retire_entries_nil, Z.add_0_r, Z.mod_small, set_gpu_get_same by lia.
    destruct Hpend as [Hcount _]. rewrite Hcount. do 2 f_equal. lia.
  - intros e He.
    rewrite (pending_tracking_values c 0 e Hinv Hnowrap He).
    apply lookup_lt_Some in He. rewrite length_drop in He. lia.
Qed.

(** X8. A claim that finds the ring full is never an error. On a reachable,
    healthy channel whose ring refuses a claim and on which nothing is
    completed and awaiting retirement, [uvm_channel_reserve] keeps polling
    for as long as it is let to: whatever the fuel, it does not return. *)
Theorem reserve_blocks_on_full_ring
    (type : uvm_channel_type_t) (N : Z) (gpu : uvm_gpu_t) (c : uvm_channel_t)
    (fatal : NV_STATUS) (fuel : nat) :
  reachable type N c ->
  Z.of_nat (length (submitted (calls c))) < 2^64 ->
  errorNotifier_status c = 0 ->
  fst (try_claim_channel c) = false ->
  Z.min (uvm_channel_update_completed_value c)
        (Z.of_nat (length (submitted (calls c))))
  <= Z.of_nat (length (retired (calls c))) ->
  uvm_channel_reserve fuel gpu c fatal = Fault OutOfFuel.
Proof.
  intros Hreach Hnowrap Hhealthy Hfull Hnone.
  unfold uvm_channel_update_completed_value in Hnone.
  assert (Hclaim : try_claim_channel c = (false, c)).
  { destruct (try_claim_cases c) as [H | (c1 & H & _)]; [exact H|].
    rewrite H in Hfull. discriminate Hfull. }
  assert (Hprog : uvm_channel_update_progress c = Ok (pending_count c, c)).
  { unfold uvm_channel_update_progress.
    eapply update_progress_nothing_completed; eassumption. }
  assert (Hchk : uvm_channel_check_errors gpu c fatal = Ok (NV_OK, c, fatal)).
  { unfold uvm_channel_check_errors, uvm_channel_get_status.
    rewrite Hhealthy. reflexivity. }
  unfold uvm_channel_reserve. rewrite Hclaim, Hprog. cbn [mbind result_bind bind].
  induction fuel as [|fuel IH]; cbn [reserve_loop]; rewrite Hclaim; [reflexivity|].
  rewrite Hchk. cbn [mbind result_bind bind]. rewrite Hprog.
  cbn [mbind result_bind bind]. exact IH.
Qed.

Lemma example_full_reachable : reachable UVM_CHANNEL_TYPE_CPU_TO_GPU 4 example_full.
Proof.
  set (claim := fun c => snd (try_claim_channel c)).
  set (c2 := claim (claim example_claimed)).
  assert (H2 : reachable UVM_CHANNEL_TYPE_CPU_TO_GPU 4 c2).
  { eapply reachable_step; [|apply step_claim].
    eapply reachable_step; [|apply step_claim]. exact example_claimed_reachable. }
  set (submit := fun c => match uvm_channel_end_push c example_push with
                          | Ok (c', _) => c'
                          | Fault _ => c
                          end).
  change example_full with (submit (submit (submit c2))).
  apply (reachable_step _ _ (submit (submit c2)));
    [| apply (step_end_push _ example_push _ (mk_push (-1) 3 16 0 4096));
       vm_compute; reflexivity].
  apply (reachable_step _ _ (submit c2));
    [| apply (step_end_push _ example_push _ (mk_push (-1) 2 16 0 4096));
       vm_compute; reflexivity].
  apply (reachable_step _ _ c2);
    [| apply (step_end_push _ example_push _ (mk_push (-1) 1 16 0 4096));
       vm_compute; reflexivity].
  exact H2.
Defined.

Lemma reserve_blocks_on_full_ring_witness :
  reachable UVM_CHANNEL_TYPE_CPU_TO_GPU 4 example_full /\
  uvm_channel_reserve 7 example_gpu example_full NV_OK = Fault OutOfFuel.
Proof.
  split; [exact example_full_reachable|].
  apply (reserve_blocks_on_full_ring _ _ _ _ _ _ example_full_reachable);
    first [reflexivity | vm_compute; discriminate].
Defined.

(** X9. The wait ends as soon as the device has made room. On a reachable
    channel on which a completed submission is still awaiting retirement,
    [uvm_channel_reserve] returns [NV_OK] with a claim without spending any
    fuel, full ring or not, and leaves the channel reachable. *)
Theorem reserve_succeeds_after_completion
    (type : uvm_channel_type_t) (N : Z) (gpu : uvm_gpu_t) (c : uvm_channel_t)
    (fatal : NV_STATUS) (fuel : nat) :
  reachable type N c ->
  Z.of_nat (length (submitted (calls c))) < 2^64 ->
  Z.of_nat (length (retired (calls c)))
  < Z.min (uvm_channel_update_completed_value c)
          (Z.of_nat (length (submitted (calls c)))) ->
  exists c',
    uvm_channel_reserve fuel gpu c fatal = Ok (NV_OK, c', fatal) /\
    reachable type N c' /\
    claimed_on c c'.
Proof.
  intros Hreach Hnowrap Hdone.
  unfold uvm_channel_update_completed_value in Hdone.
  unfold uvm_channel_reserve.
  destruct (try_claim_cases c) as [Hno | (c1 & Hyes & Hcl)].
  - rewrite Hno.
    destruct (reachable_inv _ _ _ Hreach) as [Hinv HN].
    destruct (inv_pending c Hinv) as (Hpend & Hbound & Hle).
    pose proof Hinv as (Hwf & H2N & Hcnt & Hroom & _).
    set (pend := drop (length (retired (calls c))) (submitted (calls c))) in *.
    pose proof (update_progress_with_max_spec c pend 8
                  UVM_CHANNEL_UPDATE_MODE_COMPLETED Hwf Hpend Hbound) as Hprog.
    cbv zeta in Hprog.
    set (k := retire_count (Z.to_nat 8) UVM_CHANNEL_UPDATE_MODE_COMPLETED
                           (completed_value (tracking_sem c)) pend) in *.
    assert (Hk1 : (1 <= k)%nat).
    { assert (Hlen : length pend
                     = (length (submitted (calls c)) - length (retired (calls c)))%nat)
        by apply length_drop.
      destruct (pend !! 0%nat) as [e|] eqn:He;
        [|apply lookup_ge_None in He; lia].
      pose proof (pending_tracking_values c 0 e Hinv Hnowrap He) as Htv.
      unfold k. change (Z.to_nat 8) with 8%nat.
      destruct pend as [|e' rest]; [discriminate He|].
      injection He as ->.
      apply retire_count_head_complete. lia. }
    assert (Hkl : (k <= length pend)%nat) by apply retire_count_le_length.
    set (c1 := set_gpu_get _ _) in Hprog.
    assert (Hreach1 : reachable type N c1).
    { eapply reachable_step; [exact Hreach|].
      eapply step_update_progress. exact Hprog. }
    destruct (pending_entries_after_retire c pend k Hwf Hpend Hkl) as (_ & _ & Hpc).
    cbv zeta in Hpc. fold c1 in Hpc.
    destruct (reachable_inv _ _ _ Hreach1) as [Hinv1 HN1].
    assert (Havail : is_channel_available c1 = true).
    { apply (available_iff_room c1 Hinv1). rewrite Hpc.
      change (current_pushes_count c1) with (current_pushes_count c).
      rewrite HN1, <- HN. lia. }
    unfold uvm_channel_update_progress. rewrite Hprog. cbn [mbind result_bind bind].
    assert (Hclaim : try_claim_channel c1
                     = (true, set_current_pushes_count
                                (NvU32 (current_pushes_count c1 + 1)) c1)).
    { unfold try_claim_channel. rewrite Havail. reflexivity. }
    exists (snd (try_claim_channel c1)).
    split; [destruct fuel; cbn [reserve_loop]; rewrite Hclaim; reflexivity|].
    split; [eapply reachable_step; [exact Hreach1 | apply step_claim]|].
    rewrite Hclaim. cbn [snd]. repeat split.
  - rewrite Hyes. exists c1. split; [reflexivity|]. split; [|exact Hcl].
    replace c1 with (snd (try_claim_channel c)) by (rewrite Hyes; reflexivity).
    eapply reachable_step; [exact Hreach | apply step_claim].
Qed.

Lemma reserve_succeeds_after_completion_witness :
  reachable UVM_CHANNEL_TYPE_CPU_TO_GPU 4 (device_writes 1 0 example_full) /\
  exists c',
    uvm_channel_reserve 0 example_gpu (device_writes 1 0 example_full) NV_OK
    = Ok (NV_OK, c', NV_OK).
Proof.
  assert (Hreach : reachable UVM_CHANNEL_TYPE_CPU_TO_GPU 4
                             (device_writes 1 0 example_full)).
  { eapply reachable_step; [exact example_full_reachable | apply step_device]. }
  split; [exact Hreach|].
  destruct (reserve_succeeds_after_completion _ _ example_gpu _ NV_OK 0%nat Hreach)
    as (c' & Hrun & _); [reflexivity | vm_compute; reflexivity |].
  exists c'. exact Hrun.
Defined.

(** ** The manager's health check *)

Lemma check_errors_healthy gpu c fatal :
  uvm_channel_get_status gpu c = NV_OK ->
  uvm_channel_check_errors gpu c fatal = Ok (NV_OK, c, fatal).
Proof. intros H. unfold uvm_channel_check_errors. rewrite H. reflexivity. Qed.

Lemma manager_check_errors_loop_healthy gpu fatal channels :
  Forall (fun c => uvm_channel_get_status gpu c = NV_OK) channels ->
  manager_check_errors_loop gpu channels fatal = Ok (NV_OK, channels, fatal).
Proof.
  induction 1 as [|c rest Hc _ IH]; [reflexivity|].
  cbn [manager_check_errors_loop]. rewrite check_errors_healthy by exact Hc.
  cbn [mbind result_bind bind]. rewrite IH. reflexivity.
Qed.

Lemma check_errors_reachable type N gpu c fatal :
  reachable type N c ->
  exists c',
    uvm_channel_check_errors gpu c fatal
    = Ok (uvm_channel_get_status gpu c, c',
          match uvm_channel_get_status gpu c with
          | NV_OK => fatal
          | status => uvm_global_set_fatal_error status fatal
          end) /\
    reachable type N c' /\ same_ring c c'.
Proof.
  intros Hreach.
  destruct (status_ok_dec (uvm_channel_get_status gpu c)) as [Hok|Hbad].
  - exists c. rewrite check_errors_healthy by exact Hok. rewrite Hok.
    split; [reflexivity|]. split; [exact Hreach | apply same_ring_refl].
  - destruct (reachable_inv _ _ _ Hreach) as [Hinv HN].
    destruct (inv_pending c Hinv) as (Hpend & Hbound & Hle).
    pose proof (reachable_full_reclaim type N c UVM_CHANNEL_UPDATE_MODE_COMPLETED Hreach)
      as (Hrun & Hreach' & _ & _).
    assert (Hwf : ring_wf c) by (destruct Hinv as (Hwf & _); exact Hwf).
    pose proof (first_pending_entry_spec c _ Hwf Hpend Hbound) as Hfirst.
    cbv zeta in Hfirst, Hreach'.
    eexists. rewrite check_errors_unhealthy by exact Hbad.
    unfold uvm_channel_get_fatal_entry. rewrite Hfirst.
    cbn [mbind result_bind bind].
    match goal with |- context [?l !! ?k] => destruct (l !! k) as [e|] eqn:He end.
    + assert (Hb : bound e).
      { eapply Forall_lookup_1; [exact Hbound | exact He]. }
      destruct Hb as [info Hinfo]. rewrite Hinfo.
      split; [destruct (uvm_channel_get_status gpu c); try reflexivity; contradiction|].
      split; [exact Hreach'|].
      eapply first_pending_entry_frame. exact Hfirst.
    + split; [destruct (uvm_channel_get_status gpu c); try reflexivity; contradiction|].
      split; [exact Hreach'|].
      eapply first_pending_entry_frame. exact Hfirst.
Qed.

Lemma set_all_channels_list_same m : set_all_channels_list (all_channels_list m) m = m.
Proof. destruct m. reflexivity. Qed.

Lemma manager_check_errors_loop_first_unhealthy gpu fatal type N c post :
  forall pre,
  Forall (fun c => uvm_channel_get_status gpu c = NV_OK) pre ->
  uvm_channel_get_status gpu c <> NV_OK ->
  reachable type N c ->
  exists c',
    manager_check_errors_loop gpu (pre ++ c :: post) fatal
    = Ok (uvm_channel_get_status gpu c, pre ++ c' :: post,
          uvm_global_set_fatal_error (uvm_channel_get_status gpu c) fatal) /\
    reachable type N c' /\ same_ring c c'.
Proof.
  intros pre Hpre Hbad Hreach.
  destruct (check_errors_reachable type N gpu c fatal Hreach) as (c' & Hrun & Hreach' & Hsame).
  exists c'. split; [|split; assumption].
  induction Hpre as [|d pre Hd _ IH].
  - cbn [app manager_check_errors_loop]. rewrite Hrun. cbn [mbind result_bind bind].
    destruct (uvm_channel_get_status gpu c); [contradiction | reflexivity ..].
  - cbn [app manager_check_errors_loop]. rewrite check_errors_healthy by exact Hd.
    cbn [mbind result_bind bind]. rewrite IH. reflexivity.
Qed.

(** X10. [uvm_channel_manager_check_errors], while no fatal error is
    recorded, walks the channels in list order. When every channel is healthy
    it returns [NV_OK] and changes nothing. Otherwise it stops at the first
    unhealthy channel: it returns that channel's status, records it as the
    global fatal status, and leaves every other channel, those after it
    included, exactly as it was; the unhealthy channel itself keeps its ring
    contents and remains a protocol state. *)
Theorem manager_check_errors_stops_at_first_unhealthy
    (m : uvm_channel_manager_t) :
  (Forall (fun c => uvm_channel_get_status (manager_gpu m) c = NV_OK)
          (all_channels_list m) ->
   uvm_channel_manager_check_errors m NV_OK = Ok (NV_OK, m, NV_OK)) /\
  (forall pre c post type N,
     all_channels_list m = pre ++ c :: post ->
     Forall (fun c => uvm_channel_get_status (manager_gpu m) c = NV_OK) pre ->
     uvm_channel_get_status (manager_gpu m) c <> NV_OK ->
     reachable type N c ->
     exists c',
       uvm_channel_manager_check_errors m NV_OK
       = Ok (uvm_channel_get_status (manager_gpu m) c,
             set_all_channels_list (pre ++ c' :: post) m,
             uvm_channel_get_status (manager_gpu m) c) /\
       reachable type N c' /\ same_ring c c').
Proof.
  split.
  - intros Hall. unfold uvm_channel_manager_check_errors, uvm_global_get_status.
    rewrite manager_check_errors_loop_healthy by exact Hall.
    cbn [mbind result_bind bind]. rewrite set_all_channels_list_same. reflexivity.
  - intros pre c post type N Hlist Hpre Hbad Hreach.
    destruct (manager_check_errors_loop_first_unhealthy
                (manager_gpu m) NV_OK type N c post pre Hpre Hbad Hreach)
      as (c' & Hrun & Hreach' & Hsame).
    exists c'. split; [|split; assumption].
    unfold uvm_channel_manager_check_errors, uvm_global_get_status.
    rewrite Hlist, Hrun. reflexivity.
Qed.

Lemma manager_check_errors_stops_at_first_unhealthy_witness :
  exists c',
    uvm_channel_manager_check_errors
      (mk_manager example_gpu
                  [created_channel UVM_CHANNEL_TYPE_MEMOPS 4;
                   device_writes 0 1 example_retired;
                   example_faulted]
                  (fun _ => 0%nat)) NV_OK
    = Ok (NV_ERR_RC_ERROR,
          mk_manager example_gpu
                     [created_channel UVM_CHANNEL_TYPE_MEMOPS 4; c'; example_faulted]
                     (fun _ => 0%nat),
          NV_ERR_RC_ERROR).
Proof.
  destruct (proj2 (manager_check_errors_stops_at_first_unhealthy
                     (mk_manager example_gpu
                                 [created_channel UVM_CHANNEL_TYPE_MEMOPS 4;
                                  device_writes 0 1 example_retired;
                                  example_faulted]
                                 (fun _ => 0%nat)))
                  [created_channel UVM_CHANNEL_TYPE_MEMOPS 4]
                  (device_writes 0 1 example_retired)
                  [example_faulted] UVM_CHANNEL_TYPE_CPU_TO_GPU 4)
    as (c' & Hrun & _).
  - reflexivity.
  - repeat constructor.
  - vm_compute. discriminate.
  - apply (reachable_step _ _ example_retired);
      [exact example_retired_reachable | apply step_device].
  - exists c'. exact Hrun.
Defined.

(** ** Reserving a channel of a type *)

Lemma uvm_channel_type_eqb_eq a b : uvm_channel_type_eqb a b = true <-> a = b.
Proof. destruct a, b; cbn; split; intros H; first [reflexivity | discriminate]. Qed.






(** The first scan claims on the first channel of the type that has room,
    and changes nothing when there is none. *)
Lemma reserve_type_scan_first_fit type : forall pre index c post,
  Forall (fun d => channel_type d = type -> is_channel_available d = false) pre ->
  channel_type c = type ->
  is_channel_available c = true ->
  reserve_type_scan type index (pre ++ c :: post)
  = (Some (index + length pre)%nat,
     pre ++ set_current_pushes_count (NvU32 (current_pushes_count c + 1)) c :: post).
Proof.
  induction pre as [|d pre IH]; intros index c post Hpre Hty Hav.
  - cbn [app reserve_type_scan length]. rewrite (proj2 (uvm_channel_type_eqb_eq _ _) Hty).
    unfold try_claim_channel. rewrite Hav. rewrite Nat.add_0_r. reflexivity.
  - apply Forall_cons in Hpre as [Hd Hpre].
    cbn [app reserve_type_scan length]. rewrite (IH (S index) c post Hpre Hty Hav).
    replace (S index + length pre)%nat with (index + S (length pre))%nat by lia.
    destruct (uvm_channel_type_eqb (channel_type d) type) eqn:Heq; [|reflexivity].
    apply uvm_channel_type_eqb_eq in Heq. unfold try_claim_channel.
    rewrite (Hd Heq). reflexivity.
Qed.







(** X12. [uvm_channel_reserve_type] is first fit: when some channel of the
    requested type has room, the claim goes to the first such channel in list
    order, at once and without any reclamation or health check, so that no
    other channel changes and the result does not depend on the global fatal
    status or on the health of any channel. *)
Theorem reserve_type_first_fit
    (fuel : nat) (m : uvm_channel_manager_t) (type : uvm_channel_type_t)
    (fatal : NV_STATUS) (pre : list uvm_channel_t) (c : uvm_channel_t)
    (post : list uvm_channel_t) :
  all_channels_list m = pre ++ c :: post ->
  Forall (fun d => channel_type d = type -> is_channel_available d = false) pre ->
  channel_type c = type ->
  is_channel_available c = true ->
  uvm_channel_reserve_type fuel m type fatal
  = Ok (NV_OK, Some (length pre),
        set_all_channels_list
          (pre ++ set_current_pushes_count (NvU32 (current_pushes_count c + 1)) c :: post)
          m,
        fatal).
Proof.
  intros Hlist Hpre Hty Hav. unfold uvm_channel_reserve_type.
  rewrite Hlist, (reserve_type_scan_first_fit type pre 0 c post Hpre Hty Hav).
  reflexivity.
Qed.

Lemma reserve_type_first_fit_witness :
  uvm_channel_reserve_type 0
    (mk_manager example_gpu
                [created_channel UVM_CHANNEL_TYPE_MEMOPS 4; example_full; example_faulted]
                (fun _ => 0%nat))
    UVM_CHANNEL_TYPE_CPU_TO_GPU NV_ERR_GENERIC
  = Ok (NV_OK, Some 2%nat,
        mk_manager example_gpu
                   [created_channel UVM_CHANNEL_TYPE_MEMOPS 4; example_full;
                    set_current_pushes_count 1 example_faulted]
                   (fun _ => 0%nat),
        NV_ERR_GENERIC).
Proof.
  apply (reserve_type_first_fit 0
           (mk_manager example_gpu
                       [created_channel UVM_CHANNEL_TYPE_MEMOPS 4; example_full;
                        example_faulted]
                       (fun _ => 0%nat))
           UVM_CHANNEL_TYPE_CPU_TO_GPU NV_ERR_GENERIC
           [created_channel UVM_CHANNEL_TYPE_MEMOPS 4; example_full]
           example_faulted []).
  - reflexivity.
  - constructor; [intros H; discriminate H|].
    constructor; [intros _; vm_compute; reflexivity | constructor].
  - reflexivity.
  - vm_compute. reflexivity.
Defined.




(** ** Waiting for the manager *)

Lemma update_progress_idle c max_to_complete mode :
  idle c ->
  uvm_channel_update_progress_with_max c max_to_complete mode = Ok (0, c).
Proof.
  unfold idle. intros Hidle. unfold uvm_channel_update_progress_with_max.
  assert (Hloop : update_progress_loop (Z.to_nat max_to_complete) mode
                    (uvm_channel_update_completed_value c) (cpu_put c) (gpu_get c) c
                  = Ok (gpu_get c, c)).
  { destruct (Z.to_nat max_to_complete); cbn [update_progress_loop]; [reflexivity|].
    rewrite Hidle, Z.eqb_refl. reflexivity. }
  rewrite Hloop. cbn [mbind result_bind bind]. rewrite set_gpu_get_same.
  rewrite Hidle. destruct (Z.geb_spec (cpu_put c) (cpu_put c)); [|lia].
  rewrite Z.sub_diag. reflexivity.
Qed.

Lemma manager_update_progress_loop_idle channels :
  Forall idle channels ->
  manager_update_progress_loop channels 0 = Ok (0, channels).
Proof.
  induction 1 as [|c rest Hc _ IH]; [reflexivity|].
  cbn [manager_update_progress_loop]. unfold uvm_channel_update_progress.
  rewrite update_progress_idle by exact Hc. cbn [mbind result_bind bind].
  change (NvU32 (0 + 0)) with 0. rewrite IH. reflexivity.
Qed.

(** X14. On a manager whose rings are all empty [uvm_channel_manager_wait]
    does not poll: the first reclamation finds nothing pending and changes
    nothing, and the call returns what
    [uvm_channel_manager_check_errors] returns. *)
Theorem manager_wait_on_idle_manager
    (fuel : nat) (m : uvm_channel_manager_t) (fatal : NV_STATUS) :
  Forall idle (all_channels_list m) ->
  uvm_channel_manager_update_progress m = Ok (0, m) /\
  uvm_channel_manager_wait fuel m fatal = uvm_channel_manager_check_errors m fatal.
Proof.
  intros Hidle.
  assert (Hpoll : uvm_channel_manager_update_progress m = Ok (0, m)).
  { unfold uvm_channel_manager_update_progress.
    rewrite manager_update_progress_loop_idle by exact Hidle.
    cbn [mbind result_bind bind]. rewrite set_all_channels_list_same. reflexivity. }
  split; [exact Hpoll|].
  unfold uvm_channel_manager_wait. rewrite Hpoll. reflexivity.
Qed.

Lemma manager_wait_on_idle_manager_witness :
  uvm_channel_manager_wait 0 example_manager NV_OK
  = uvm_channel_manager_check_errors example_manager NV_OK.
Proof.
  apply (manager_wait_on_idle_manager 0 example_manager NV_OK).
  repeat constructor.
Defined.

(** X15. [uvm_channel_manager_wait] can return [NV_OK] without having
    looked for errors: when the first reclamation leaves work pending and the
    second one leaves none, the loop is left before its first health check,
    whatever the global fatal status and the error notifiers hold. *)
Theorem manager_wait_returns_without_check
    (fuel : nat) (m : uvm_channel_manager_t) (fatal : NV_STATUS)
    (pending : Z) (m1 m2 : uvm_channel_manager_t) :
  uvm_channel_manager_update_progress m = Ok (pending, m1) ->
  pending <> 0 ->
  uvm_channel_manager_update_progress m1 = Ok (0, m2) ->
  uvm_channel_manager_wait fuel m fatal = Ok (NV_OK, m2, fatal).
Proof.
  intros Hfirst Hpending Hsecond. unfold uvm_channel_manager_wait.
  rewrite Hfirst. cbn [mbind result_bind bind].
  destruct (Z.eqb_spec pending 0) as [|_]; [contradiction|].
  destruct fuel; cbn [manager_wait_loop]; rewrite Hsecond; reflexivity.
Qed.

Lemma manager_wait_returns_without_check_witness :
  uvm_channel_get_status example_gpu (device_writes 10 1 example_ten) = NV_ERR_RC_ERROR /\
  exists m2,
    uvm_channel_manager_wait 0
      (mk_manager example_gpu [device_writes 10 1 example_ten] (fun _ => 0%nat))
      NV_ERR_ECC_ERROR
    = Ok (NV_OK, m2, NV_ERR_ECC_ERROR).
Proof.
  split; [reflexivity|].
  eexists.
  eapply (manager_wait_returns_without_check 0
            (mk_manager example_gpu [device_writes 10 1 example_ten] (fun _ => 0%nat))
            NV_ERR_ECC_ERROR 2).
  - vm_compute. reflexivity.
  - discriminate.
  - vm_compute. reflexivity.
Defined.

(** ** Push-info slots *)

Lemma bound_slots_length l :
  Forall bound l -> length (omap push_info l) = length l.
Proof.
  induction 1 as [|e l [slot He] _ IH]; [reflexivity|].
  cbn [omap list_omap]. rewrite He. cbn [length]. rewrite IH. reflexivity.
Qed.

Lemma pending_slots_length c :
  channel_inv c -> Z.of_nat (length (pending_slots c)) = pending_count c.
Proof.
  intros Hinv. destruct (inv_pending c Hinv) as ((Hcount & _) & Hbound & _).
  unfold pending_slots. rewrite bound_slots_length by exact Hbound. exact Hcount.
Qed.

Lemma protocol_inv type N c fl :
  protocol type N c fl ->
  reachable type N c /\
  Z.of_nat (length fl) <= current_pushes_count c /\
  available_push_infos c ++ fl ++ pending_slots c
  ≡ₚ map Z.of_nat (seq 0 (Z.to_nat N)).
Proof.
  induction 1 as [HN H2N
                 | c fl Hrun (Hreach & Hfl & Hperm)
                 | c fl push c' push' Hrun (Hreach & Hfl & Hperm) Hclaimed Hbegin
                 | c fl1 fl2 push c' push' Hrun (Hreach & Hfl & Hperm) Hend
                 | c fl max_to_complete mode pending c' Hrun (Hreach & Hfl & Hperm) Hup
                 | c fl completed status Hrun (Hreach & Hfl & Hperm)].
  - split; [apply reachable_created; assumption|]. split; [cbn; lia|].
    cbn [created_channel available_push_infos app]. unfold pending_slots.
    cbn [created_channel calls retired submitted omap list_omap length drop].
    rewrite app_nil_r. reflexivity.
  - split; [eapply reachable_step; [exact Hreach | apply step_claim]|].
    destruct (reachable_inv _ _ _ Hreach) as [Hinv HcN].
    destruct Hinv as (Hwf & H2N & Hcnt & Hroom & _).
    destruct Hwf as (HN & _ & Hput & Hget).
    pose proof (Z.mod_pos_bound (cpu_put c - gpu_get c) (numGpFifoEntries c)
                  ltac:(lia)) as Hp.
    unfold pending_count in Hroom.
    unfold try_claim_channel. destruct (is_channel_available c); cbn [snd].
    + split; [|exact Hperm].
      cbn [set_current_pushes_count current_pushes_count].
      rewrite NvU32_small by lia. lia.
    + split; assumption.
  - split; [eapply reachable_step; [exact Hreach | eapply step_begin_push; exact Hbegin]|].
    unfold uvm_channel_begin_push, channel_get_available_push_info_index in Hbegin.
    destruct (available_push_infos c) as [|slot rest] eqn:Hfree; [discriminate Hbegin|].
    cbn [mbind result_bind bind] in Hbegin. injection Hbegin as <- <-.
    cbn [push_info_index length]. split; [cbn; lia|].
    change (available_push_infos (set_available_push_infos rest c)) with rest.
    change (pending_slots (set_available_push_infos rest c)) with (pending_slots c).
    rewrite <- Hperm. cbn [app]. symmetry. apply Permutation_middle.
  - destruct (reachable_inv _ _ _ Hreach) as [Hinv HcN].
    rewrite length_app in Hfl. cbn [length] in Hfl.
    assert (Hclaimed : 0 < current_pushes_count c) by lia.
    split; [eapply reachable_step; [exact Hreach | eapply step_end_push; eassumption]|].
    destruct (inv_pending c Hinv) as (_ & _ & Hle).
    destruct Hinv as (Hwf & H2N & Hcnt & Hroom & _).
    destruct Hwf as (HN & Hlen & Hput & Hget).
    rewrite end_push_spec in Hend by lia. cbv zeta in Hend. injection Hend as <- _.
    cbn [current_pushes_count available_push_infos].
    pose proof (Z.mod_pos_bound (cpu_put c - gpu_get c) (numGpFifoEntries c)
                  ltac:(lia)) as Hp.
    unfold pending_count in Hroom.
    rewrite (NvU32_small (current_pushes_count c - 1)) by lia.
    split; [rewrite length_app; lia|].
    unfold pending_slots in *. cbn [calls].
    rewrite submitted_app, retired_app.
    cbn [submitted retired omap list_omap]. rewrite app_nil_r.
    rewrite drop_app_le by exact Hle. rewrite omap_app.
    cbn [omap list_omap push_info]. rewrite <- Hperm.
    rewrite !app_assoc. rewrite <- Permutation_cons_append.
    rewrite <- !app_assoc. cbn [app]. rewrite <- !Permutation_middle. reflexivity.
  - split; [eapply reachable_step; [exact Hreach | eapply step_update_progress; exact Hup]|].
    destruct (reachable_inv _ _ _ Hreach) as [Hinv HcN].
    destruct (inv_pending c Hinv) as (Hpend & Hbound & Hle).
    destruct Hinv as (Hwf & _).
    rewrite (update_progress_with_max_spec c _ _ _ Hwf Hpend Hbound) in Hup.
    cbv zeta in Hup. injection Hup as _ <-.
    set (pend := drop (length (retired (calls c))) (submitted (calls c))) in *.
    set (k := retire_count (Z.to_nat max_to_complete) mode
                           (completed_value (tracking_sem c)) pend).
    assert (Hk : (k <= length pend)%nat) by apply retire_count_le_length.
    split; [exact Hfl|].
    unfold pending_slots in *.
    cbn [set_gpu_get retire_entries available_push_infos calls].
    rewrite submitted_app, retired_app, submitted_mark_completed,
      retired_mark_completed, app_nil_r.
    rewrite length_app, length_take, Nat.min_l by exact Hk.
    rewrite <- drop_drop. fold pend.
    rewrite <- Hperm.
    replace (omap push_info pend)
      with (omap push_info (take k pend) ++ omap push_info (drop k pend))
      by (rewrite <- omap_app, take_drop; reflexivity).
    rewrite <- !app_assoc. apply Permutation_app_head.
    rewrite !app_assoc. apply Permutation_app_tail. apply Permutation_app_comm.
  - split; [eapply reachable_step; [exact Hreach | apply step_device]|].
    split; assumption.
Qed.

Lemma slots_nodup N : NoDup (map Z.of_nat (seq 0 (Z.to_nat N))).
Proof. apply (NoDup_fmap_2 Z.of_nat). apply NoDup_seq. Qed.

(** X16. Along the protocol no push-info slot is lost or duplicated: the
    free list, the slots of the pushes in flight and the slots of the
    pending ring entries together hold every slot index below the capacity
    exactly once, and the pushes in flight are never more than the claims
    outstanding. *)
Theorem push_info_slots_conserved
    (type : uvm_channel_type_t) (N : Z) (c : uvm_channel_t) (fl : list Z) :
  protocol type N c fl ->
  available_push_infos c ++ fl ++ pending_slots c
  ≡ₚ map Z.of_nat (seq 0 (Z.to_nat N)) /\
  NoDup (available_push_infos c ++ fl ++ pending_slots c) /\
  (forall slot, 0 <= slot < N <->
                slot ∈ available_push_infos c ++ fl ++ pending_slots c) /\
  Z.of_nat (length (available_push_infos c))
  = N - Z.of_nat (length fl) - pending_count c /\
  Z.of_nat (length fl) <= current_pushes_count c.
Proof.
  intros Hrun. destruct (protocol_inv _ _ _ _ Hrun) as (Hreach & Hfl & Hperm).
  destruct (reachable_inv _ _ _ Hreach) as [Hinv HcN].
  split; [exact Hperm|]. split; [rewrite Hperm; apply slots_nodup|].
  split; [|split; [|exact Hfl]].
  - intros slot. rewrite Hperm. rewrite list_elem_of_fmap. split.
    + intros Hslot. exists (Z.to_nat slot). split; [lia|].
      apply elem_of_seq. lia.
    + intros (i & -> & Hi). apply elem_of_seq in Hi. lia.
  - apply Permutation_length in Hperm.
    rewrite !length_app, length_map, length_seq in Hperm.
    pose proof (pending_slots_length c Hinv) as Hp.
    destruct Hinv as ((HN & _) & _). lia.
Qed.

Lemma push_info_slots_conserved_witness :
  protocol UVM_CHANNEL_TYPE_CPU_TO_GPU 4 example_busy [1] /\
  available_push_infos example_busy = [2; 3] /\
  pending_slots example_busy = [0] /\
  available_push_infos example_busy ++ [1] ++ pending_slots example_busy
  ≡ₚ [0; 1; 2; 3].
Proof.
  assert (Hrun : protocol UVM_CHANNEL_TYPE_CPU_TO_GPU 4 example_busy [1]).
  { apply (protocol_begin_push UVM_CHANNEL_TYPE_CPU_TO_GPU 4
             (example_ended (example_begun example_claimed_twice)) []
             example_push example_busy
             (snd (example_begun (example_ended (example_begun example_claimed_twice)))));
      [|vm_compute; reflexivity|vm_compute; reflexivity].
    apply (protocol_end_push UVM_CHANNEL_TYPE_CPU_TO_GPU 4
             (fst (example_begun example_claimed_twice)) [] []
             (snd (example_begun example_claimed_twice))
             (example_ended (example_begun example_claimed_twice))
             (mk_push (-1) 1 16 0 4096));
      [|vm_compute; reflexivity].
    apply (protocol_begin_push UVM_CHANNEL_TYPE_CPU_TO_GPU 4
             example_claimed_twice [] example_push
             (fst (example_begun example_claimed_twice))
             (snd (example_begun example_claimed_twice)));
      [|vm_compute; reflexivity|vm_compute; reflexivity].
    apply protocol_claim. apply protocol_claim. apply protocol_created; lia. }
  split; [exact Hrun|]. split; [reflexivity|]. split; [reflexivity|].
  apply (push_info_slots_conserved UVM_CHANNEL_TYPE_CPU_TO_GPU 4 example_busy [1] Hrun).
Defined.

(** X17. A push begun on a claimed slot always finds a free push-info slot:
    [uvm_channel_begin_push] does not run into an empty free list, and the
    slot it takes, the head of the free list, is held by no push in flight
    and by no pending ring entry. *)
Theorem begin_push_takes_free_slot
    (type : uvm_channel_type_t) (N : Z) (c : uvm_channel_t) (fl : list Z)
    (push : uvm_push_t) :
  protocol type N c fl ->
  Z.of_nat (length fl) < current_pushes_count c ->
  exists slot rest,
    available_push_infos c = slot :: rest /\
    uvm_channel_begin_push NV_OK c push
    = Ok (NV_OK, set_available_push_infos rest c,
          mk_push slot 0 (uvm_push_get_size push)
                  (uvm_pushbuffer_get_offset_for_push push)
                  (uvm_pushbuffer_get_gpu_va_for_push push)) /\
    0 <= slot < N /\
    (slot ∉ rest) /\ (slot ∉ fl) /\ (slot ∉ pending_slots c) /\
    protocol type N (set_available_push_infos rest c) (slot :: fl).
Proof.
  intros Hrun Hclaimed.
  destruct (protocol_inv _ _ _ _ Hrun) as (Hreach & Hfl & Hperm).
  destruct (reachable_inv _ _ _ Hreach) as [Hinv HcN].
  pose proof (pending_slots_length c Hinv) as Hp.
  pose proof (Permutation_length Hperm) as Hlen.
  rewrite !length_app, length_map, length_seq in Hlen.
  assert (Hroom : current_pushes_count c + pending_count c <= N - 1).
  { destruct Hinv as (_ & _ & _ & Hroom & _). lia. }
  destruct (available_push_infos c) as [|slot rest] eqn:Hfree.
  { cbn [length] in Hlen. lia. }
  assert (Hbegin : uvm_channel_begin_push NV_OK c push
                   = Ok (NV_OK, set_available_push_infos rest c,
                         mk_push slot 0 (uvm_push_get_size push)
                                 (uvm_pushbuffer_get_offset_for_push push)
                                 (uvm_pushbuffer_get_gpu_va_for_push push))).
  { unfold uvm_channel_begin_push, channel_get_available_push_info_index.
    rewrite Hfree. reflexivity. }
  assert (Hnodup : NoDup ((slot :: rest) ++ fl ++ pending_slots c)).
  { rewrite Hperm. apply slots_nodup. }
  cbn [app] in Hnodup. apply NoDup_cons in Hnodup as [Hfresh _].
  rewrite !elem_of_app in Hfresh.
  exists slot, rest. split; [reflexivity|]. split; [exact Hbegin|].
  split.
  { assert (Hin : slot ∈ map Z.of_nat (seq 0 (Z.to_nat N))).
    { rewrite <- Hperm. apply elem_of_cons. left. reflexivity. }
    apply list_elem_of_fmap in Hin as (i & -> & Hi). apply elem_of_seq in Hi. lia. }
  split; [tauto|]. split; [tauto|]. split; [tauto|].
  exact (protocol_begin_push type N c fl push _ _ Hrun Hclaimed Hbegin).
Qed.

Lemma begin_push_takes_free_slot_witness :
  exists rest,
    uvm_channel_begin_push NV_OK example_claimed example_push
    = Ok (NV_OK, set_available_push_infos rest example_claimed, mk_push 0 0 16 0 4096).
Proof.
  destruct (begin_push_takes_free_slot UVM_CHANNEL_TYPE_CPU_TO_GPU 4 example_claimed []
              example_push)
    as (slot & rest & Hfree & Hbegin & _).
  - apply protocol_claim. apply protocol_created; lia.
  - vm_compute. reflexivity.
  - exists rest. injection Hfree as <- _. exact Hbegin.
Defined.

(** ** The comparator as an order *)

Lemma compare_positive_iff_rank gpu type usage_count i j :
  type <> UVM_CHANNEL_TYPE_ANY ->
  Z.of_nat (UVM_COPY_ENGINE_COUNT_MAX gpu) <= 2^31 ->
  length usage_count = UVM_COPY_ENGINE_COUNT_MAX gpu ->
  Forall (fun u => 0 <= u < 2^31) usage_count ->
  (i < UVM_COPY_ENGINE_COUNT_MAX gpu)%nat ->
  (j < UVM_COPY_ENGINE_COUNT_MAX gpu)%nat ->
  i <> j ->
  0 < compare_ce_for_channel_type gpu type i j usage_count <->
  lex_lt (ce_rank gpu type usage_count j) (ce_rank gpu type usage_count i).
Proof.
  intros Hty Hmax Hlen Hsmall Hi Hj Hne.
  pose proof (usage_lookup_small gpu usage_count Hlen Hsmall i Hi) as Hui.
  pose proof (usage_lookup_small gpu usage_count Hlen Hsmall j Hj) as Huj.
  unfold compare_ce_for_channel_type, compare_ce_default, ce_rank.
  set (cap1 := ce_caps gpu !!! i). set (cap2 := ce_caps gpu !!! j).
  set (u1 := usage_count !!! i) in *. set (u2 := usage_count !!! j) in *.
  set (h1 := hweight32 (cePceMask cap1)). set (h2 := hweight32 (cePceMask cap2)).
  destruct type; try contradiction;
    destruct (nvlinkP2p cap1), (nvlinkP2p cap2), (shared cap1), (shared cap2);
    try destruct (sysmemRead cap1), (sysmemRead cap2);
    try destruct (sysmemWrite cap1), (sysmemWrite cap2);
    cbn [eqb negb andb Z.b2z lex_lt];
    repeat match goal with
           | |- context [Z.eqb ?a ?b] => destruct (Z.eqb_spec a b)
           end;
    cbn [negb andb];
    rewrite ?int_of_NvU32_small by lia;
    lia.
Qed.

(** X18. On the engines of the capability table, and for counters that fit
    a signed 32-bit integer, [compare_ce_for_channel_type] is a strict total
    order for every type but [UVM_CHANNEL_TYPE_ANY]: it is zero only when an
    engine is compared with itself, swapping the engines swaps the sign, and
    preference is transitive. The engine the scan ends on therefore does not
    depend on the order in which the engines are visited. *)
Theorem compare_ce_strict_total_order
    (gpu : uvm_gpu_t) (type : uvm_channel_type_t) (usage_count : list Z)
    (i j k : nat) :
  type <> UVM_CHANNEL_TYPE_ANY ->
  Z.of_nat (UVM_COPY_ENGINE_COUNT_MAX gpu) <= 2^31 ->
  length usage_count = UVM_COPY_ENGINE_COUNT_MAX gpu ->
  Forall (fun u => 0 <= u < 2^31) usage_count ->
  (i < UVM_COPY_ENGINE_COUNT_MAX gpu)%nat ->
  (j < UVM_COPY_ENGINE_COUNT_MAX gpu)%nat ->
  (k < UVM_COPY_ENGINE_COUNT_MAX gpu)%nat ->
  (compare_ce_for_channel_type gpu type i j usage_count = 0 <-> i = j) /\
  (compare_ce_for_channel_type gpu type i j usage_count < 0 <->
   0 < compare_ce_for_channel_type gpu type j i usage_count) /\
  (compare_ce_for_channel_type gpu type i j usage_count < 0 ->
   compare_ce_for_channel_type gpu type j k usage_count < 0 ->
   compare_ce_for_channel_type gpu type i k usage_count < 0).
Proof.
  intros Hty Hmax Hlen Hsmall Hi Hj Hk.
  assert (Hneg : forall a b, (a < UVM_COPY_ENGINE_COUNT_MAX gpu)%nat ->
                             (b < UVM_COPY_ENGINE_COUNT_MAX gpu)%nat -> a <> b ->
            compare_ce_for_channel_type gpu type a b usage_count < 0 <->
            lex_lt (ce_rank gpu type usage_count a) (ce_rank gpu type usage_count b)).
  { intros a b Ha Hb Hab. apply compare_negative_iff_rank; assumption. }
  assert (Hpos : forall a b, (a < UVM_COPY_ENGINE_COUNT_MAX gpu)%nat ->
                             (b < UVM_COPY_ENGINE_COUNT_MAX gpu)%nat -> a <> b ->
            0 < compare_ce_for_channel_type gpu type a b usage_count <->
            lex_lt (ce_rank gpu type usage_count b) (ce_rank gpu type usage_count a)).
  { intros a b Ha Hb Hab. apply compare_positive_iff_rank; assumption. }
  assert (Hself : forall a, (a < UVM_COPY_ENGINE_COUNT_MAX gpu)%nat ->
            compare_ce_for_channel_type gpu type a a usage_count = 0).
  { intros a Ha. unfold compare_ce_for_channel_type, compare_ce_default.
    rewrite !eqb_reflx, !Z.eqb_refl, !Z.sub_diag, Z.eqb_refl. cbn [negb andb].
    rewrite Bool.andb_false_r.
    destruct type; try contradiction; reflexivity. }
  split; [|split].
  - split.
    + intros Hzero. destruct (Nat.eq_dec i j) as [Heq|Hne]; [exact Heq|].
      assert (Htot : lex_lt (ce_rank gpu type usage_count i) (ce_rank gpu type usage_count j) \/
                     lex_lt (ce_rank gpu type usage_count j) (ce_rank gpu type usage_count i))
        by (apply rank_total; assumption).
      destruct Htot as [H|H].
      * apply (Hneg i j Hi Hj Hne) in H. lia.
      * apply (Hpos i j Hi Hj Hne) in H. lia.
    + intros <-. apply Hself. exact Hi.
  - destruct (Nat.eq_dec i j) as [<-|Hne].
    + rewrite (Hself i Hi). lia.
    + rewrite (Hneg i j Hi Hj Hne), (Hpos j i Hj Hi ltac:(congruence)). reflexivity.
  - intros Hij Hjk.
    destruct (Nat.eq_dec i j) as [->|Hne1]; [exact Hjk|].
    destruct (Nat.eq_dec j k) as [<-|Hne2]; [exact Hij|].
    apply (Hneg i j Hi Hj Hne1) in Hij. apply (Hneg j k Hj Hk Hne2) in Hjk.
    pose proof (lex_lt_trans _ _ _ Hij Hjk) as Hik.
    destruct (Nat.eq_dec i k) as [<-|Hne3].
    + exfalso. exact (lex_lt_irrefl _ Hik).
    + apply (Hneg i k Hi Hk Hne3). exact Hik.
Qed.

Lemma compare_ce_strict_total_order_witness :
  compare_ce_for_channel_type example_six_engines UVM_CHANNEL_TYPE_CPU_TO_GPU
                              2 0 [1; 0; 3; 0; 0; 0] < 0 <->
  0 < compare_ce_for_channel_type example_six_engines UVM_CHANNEL_TYPE_CPU_TO_GPU
                                  0 2 [1; 0; 3; 0; 0; 0].
Proof.
  apply (compare_ce_strict_total_order example_six_engines UVM_CHANNEL_TYPE_CPU_TO_GPU
           [1; 0; 3; 0; 0; 0] 2 0 1).
  - discriminate.
  - cbn. lia.
  - reflexivity.
  - repeat constructor; lia.
  - cbn. lia.
  - cbn. lia.
  - cbn. lia.
Defined.

(** X19. What the scan of [pick_ce_for_channel_type] guarantees for each
    type, whatever the usage counters (as long as they fit a signed 32-bit
    integer): the engine it ends on is usable for the type, and no usable
    engine beats it on the type's first criterion. A CPU-to-GPU channel gets
    a fast system-memory reader when one is usable, a GPU-to-CPU channel a
    fast writer, a GPU-to-GPU channel an NVLINK engine, a GPU-internal
    channel an engine with the most physical engines behind it, and a memops
    channel a least-used engine. *)
Theorem pick_best_ce_first_criterion
    (gpu : uvm_gpu_t) (type : uvm_channel_type_t) (usage_count : list Z) (j : nat) :
  Z.of_nat (UVM_COPY_ENGINE_COUNT_MAX gpu) <= 2^31 ->
  length usage_count = UVM_COPY_ENGINE_COUNT_MAX gpu ->
  Forall (fun u => 0 <= u < 2^31) usage_count ->
  eligible gpu type j ->
  let best := pick_best_ce gpu type usage_count in
  let cap := ce_caps gpu !!! best in
  let other := ce_caps gpu !!! j in
  eligible gpu type best /\
  match type with
  | UVM_CHANNEL_TYPE_CPU_TO_GPU => sysmemRead other = true -> sysmemRead cap = true
  | UVM_CHANNEL_TYPE_GPU_TO_CPU => sysmemWrite other = true -> sysmemWrite cap = true
  | UVM_CHANNEL_TYPE_GPU_TO_GPU => nvlinkP2p other = true -> nvlinkP2p cap = true
  | UVM_CHANNEL_TYPE_GPU_INTERNAL =>
    hweight32 (cePceMask other) <= hweight32 (cePceMask cap)
  | UVM_CHANNEL_TYPE_MEMOPS => usage_count !!! best <= usage_count !!! j
  | UVM_CHANNEL_TYPE_ANY => False
  end.
Proof.
  intros Hmax Hlen Hsmall Hj best cap other.
  assert (Hty : type <> UVM_CHANNEL_TYPE_ANY).
  { intros ->. destruct Hj as [_ Hus]. unfold ce_usable_for_channel_type in Hus.
    destruct (negb _ || _); discriminate Hus. }
  destruct (pick_best_ce_winner gpu type usage_count Hty Hmax Hlen Hsmall
              (ex_intro _ j Hj)) as [Hbest Hwin].
  fold best in Hbest, Hwin. split; [exact Hbest|].
  destruct (Nat.eq_dec j best) as [Heq|Hne].
  { unfold other, cap. rewrite Heq.
    destruct type; first [contradiction | tauto | lia]. }
  specialize (Hwin j Hj Hne). unfold ce_rank in Hwin. fold cap other in Hwin.
  destruct type; try contradiction; cbn [lex_lt] in Hwin.
  - destruct (sysmemRead other), (sysmemRead cap); cbn [negb Z.b2z] in Hwin;
      intros; first [reflexivity | discriminate | lia].
  - destruct (sysmemWrite other), (sysmemWrite cap); cbn [negb Z.b2z] in Hwin;
      intros; first [reflexivity | discriminate | lia].
  - lia.
  - lia.
  - destruct (nvlinkP2p other), (nvlinkP2p cap); cbn [negb Z.b2z] in Hwin;
      intros; first [reflexivity | discriminate | lia].
Qed.

Lemma pick_best_ce_first_criterion_witness :
  eligible example_six_engines UVM_CHANNEL_TYPE_CPU_TO_GPU 2 /\
  sysmemRead (ce_caps example_six_engines
              !!! pick_best_ce example_six_engines UVM_CHANNEL_TYPE_CPU_TO_GPU
                               [0; 0; 5; 0; 0; 0]) = true.
Proof.
  assert (Hel : eligible example_six_engines UVM_CHANNEL_TYPE_CPU_TO_GPU 2).
  { split; [cbn; lia | reflexivity]. }
  split; [exact Hel|].
  apply (pick_best_ce_first_criterion example_six_engines UVM_CHANNEL_TYPE_CPU_TO_GPU
           [0; 0; 5; 0; 0; 0] 2).
  - cbn. lia.
  - reflexivity.
  - repeat constructor; lia.
  - exact Hel.
  - reflexivity.
Defined.

(** ** What the selection returns *)

Lemma uvm_channel_type_eq_dec (a b : uvm_channel_type_t) : {a = b} + {a <> b}.
Proof. decide equality. Qed.

Lemma set_ce_to_use_same type ce ce_to_use : set_ce_to_use type ce ce_to_use type = ce.
Proof.
  unfold set_ce_to_use. rewrite (proj2 (uvm_channel_type_eqb_eq type type) eq_refl).
  reflexivity.
Qed.

Lemma set_ce_to_use_other type ce ce_to_use t :
  t <> type -> set_ce_to_use type ce ce_to_use t = ce_to_use t.
Proof.
  intros Hne. unfold set_ce_to_use.
  destruct (uvm_channel_type_eqb t type) eqn:Heq; [|reflexivity].
  apply uvm_channel_type_eqb_eq in Heq. contradiction.
Qed.

Lemma pick_all_eligible gpu types : forall ce_to_use usage_count ce_to_use' usage_count',
  length usage_count = UVM_COPY_ENGINE_COUNT_MAX gpu ->
  pick_all gpu types ce_to_use usage_count = Ok (ce_to_use', usage_count') ->
  (forall type, In type types -> eligible gpu type (ce_to_use' type)) /\
  (forall type, ~ In type types -> ce_to_use' type = ce_to_use type).
Proof.
  induction types as [|type rest IH]; intros ce usage ce' usage' Hlen Hrun.
  - cbn in Hrun. injection Hrun as <- <-. split; [intros t []|reflexivity].
  - cbn [pick_all] in Hrun.
    destruct (pick_ce_cases gpu ce type usage Hlen)
      as [(ce1 & usage1 & Hpick & Hlen1 & Hel) | (Hfault & _)];
      [|rewrite Hfault in Hrun; discriminate Hrun].
    pose proof (pick_ce_with_eligible gpu ce type usage Hlen Hel) as Hbest.
    cbv zeta in Hbest. rewrite Hpick in Hbest. injection Hbest as Hce1 _.
    rewrite Hpick in Hrun. cbn [mbind result_bind bind] in Hrun.
    destruct (IH _ _ _ _ Hlen1 Hrun) as [Hin Hout].
    split.
    + intros t Ht. destruct (in_dec uvm_channel_type_eq_dec t rest) as [Hr|Hr].
      * apply Hin. exact Hr.
      * destruct Ht as [<-|Ht]; [|contradiction].
        rewrite (Hout type Hr), Hce1, set_ce_to_use_same.
        apply pick_best_ce_some. exact Hel.
    + intros t Ht. rewrite Hout by (intros Hr; apply Ht; right; exact Hr).
      rewrite Hce1. apply set_ce_to_use_other. intros ->. apply Ht. left. reflexivity.
Qed.

Lemma pick_copy_engines_eligible gpu status ce_to_use :
  channel_manager_pick_copy_engines gpu = Ok (status, ce_to_use) ->
  status = NV_OK /\
  forall type, In type channel_types -> eligible gpu type (ce_to_use type).
Proof.
  unfold channel_manager_pick_copy_engines. intros Hrun.
  destruct (pick_all gpu pick_order _ _) as [[ce usage]|f] eqn:Hall;
    cbn [mbind result_bind bind] in Hrun; [|discriminate Hrun].
  apply pick_all_eligible in Hall as [Hel _]; [|apply length_replicate].
  assert (Hin : forall type, In type channel_types -> eligible gpu type (ce type)).
  { intros type Ht. apply Hel. cbn in Ht |- *. tauto. }
  assert (Hcheck : forallb (fun type => negb (ce type =? UVM_COPY_ENGINE_COUNT_MAX gpu)%nat)
                           channel_types = true).
  { apply forallb_forall. intros type Ht. destruct (Hin type Ht) as [Hlt _].
    destruct (Nat.eqb_spec (ce type) (UVM_COPY_ENGINE_COUNT_MAX gpu)); [lia|reflexivity]. }
  rewrite Hcheck in Hrun. injection Hrun as <- <-.
  split; [reflexivity | exact Hin].
Qed.

(** X20. Every run of [channel_manager_pick_copy_engines] that returns
    without having indexed [usage_count] out of bounds returns [NV_OK], and
    the engine stored for each channel type exists and is usable for that
    type: supported, not a GRCE, with system-memory access for the two
    CPU-facing types and peer access for GPU-to-GPU. Such a run never takes
    the [NV_ERR_NOT_SUPPORTED] exit of the final check. *)
Theorem pick_copy_engines_returns_usable_engines
    (gpu : uvm_gpu_t) (status : NV_STATUS) (ce_to_use : uvm_channel_type_t -> nat) :
  channel_manager_pick_copy_engines gpu = Ok (status, ce_to_use) ->
  status = NV_OK /\
  forall type, In type channel_types ->
    let cap := ce_caps gpu !!! ce_to_use type in
    (ce_to_use type < UVM_COPY_ENGINE_COUNT_MAX gpu)%nat /\
    supported cap = true /\ grce cap = false /\
    match type with
    | UVM_CHANNEL_TYPE_CPU_TO_GPU | UVM_CHANNEL_TYPE_GPU_TO_CPU => sysmem cap = true
    | UVM_CHANNEL_TYPE_GPU_TO_GPU => p2p cap = true
    | _ => True
    end.
Proof.
  intros Hrun. destruct (pick_copy_engines_eligible gpu status ce_to_use Hrun) as [-> Hin].
  split; [reflexivity|].
  intros type Ht cap. destruct (Hin type Ht) as [Hlt Hus]. fold cap in Hus.
  split; [exact Hlt|]. unfold ce_usable_for_channel_type in Hus.
  destruct (supported cap), (grce cap); cbn [negb orb] in Hus; try discriminate Hus.
  split; [reflexivity|]. split; [reflexivity|].
  destruct type; first [exact Hus | exact I].
Qed.

Lemma pick_copy_engines_returns_usable_engines_witness :
  exists ce_to_use,
    channel_manager_pick_copy_engines example_two_engines = Ok (NV_OK, ce_to_use) /\
    (ce_to_use UVM_CHANNEL_TYPE_MEMOPS < UVM_COPY_ENGINE_COUNT_MAX example_two_engines)%nat.
Proof.
  destruct (channel_manager_pick_copy_engines example_two_engines)
    as [[status ce_to_use]|f] eqn:Hrun; [|vm_compute in Hrun; discriminate Hrun].
  destruct (pick_copy_engines_returns_usable_engines example_two_engines status ce_to_use
              Hrun) as [-> Hall].
  exists ce_to_use. split; [reflexivity|].
  apply (Hall UVM_CHANNEL_TYPE_MEMOPS). cbn. tauto.
Defined.

(** ** Construction of the manager *)

Ltac construction_failed Hrun :=
  injection Hrun as <- <-;
  split; [split; [discriminate | intros [? H]; discriminate H]
         | intros ? H; discriminate H].

(** X21. [uvm_channel_manager_create_common] hands out a manager exactly
    when it returns [NV_OK], and only when every step succeeded: the
    allocation, the pushbuffer, the procfs entries when they are asked for,
    the engine selection, the creation of every pool and the initialisation
    of the channels. The manager handed out is for the GPU given, holds the
    engines the selection chose, each usable for its type, and the channels
    the pools created, as initialised. *)
Theorem manager_create_outcome
    (env : construction_env) (gpu : uvm_gpu_t) (with_procfs : bool)
    (status : NV_STATUS) (out : option uvm_channel_manager_t) :
  uvm_channel_manager_create_common env gpu with_procfs = Ok (status, out) ->
  (status = NV_OK <-> is_Some out) /\
  (forall m, out = Some m ->
     manager_gpu m = gpu /\
     uvm_kvmalloc_zero_ok env = true /\
     uvm_pushbuffer_create_common env = NV_OK /\
     (with_procfs = true ->
      manager_create_procfs_dirs env = NV_OK /\ manager_create_procfs env = NV_OK) /\
     channel_manager_pick_copy_engines gpu = Ok (NV_OK, ce_to_use_by_type m) /\
     (forall type, In type channel_types ->
                   eligible gpu type (ce_to_use_by_type m type)) /\
     exists channels,
       create_pools env channel_types (ce_to_use_by_type m) [] = (NV_OK, channels) /\
       init_channels env channels = (NV_OK, all_channels_list m)).
Proof.
  unfold uvm_channel_manager_create_common. intros Hrun.
  destruct (uvm_kvmalloc_zero_ok env) eqn:Halloc; cbn [negb] in Hrun;
    [|construction_failed Hrun].
  destruct (uvm_pushbuffer_create_common env) eqn:Hpb; try construction_failed Hrun.
  destruct (if with_procfs then manager_create_procfs_dirs env else NV_OK) eqn:Hdirs;
    try construction_failed Hrun.
  destruct (channel_manager_pick_copy_engines gpu) as [[st ce]|f] eqn:Hpick;
    cbn [mbind result_bind bind] in Hrun; [|discriminate Hrun].
  destruct (pick_copy_engines_eligible gpu st ce Hpick) as [-> Hel].
  destruct (create_pools env channel_types ce []) as [st1 channels] eqn:Hpools.
  destruct st1; try construction_failed Hrun.
  destruct (init_channels env channels) as [st2 channels'] eqn:Hinit.
  destruct st2; try construction_failed Hrun.
  destruct (if with_procfs then manager_create_procfs env else NV_OK) eqn:Hprocfs;
    try construction_failed Hrun.
  injection Hrun as <- <-.
  split; [split; [intros _; eexists; reflexivity | reflexivity]|].
  intros m Hm. injection Hm as <-. cbn [manager_gpu ce_to_use_by_type all_channels_list].
  split; [reflexivity|]. split; [reflexivity|]. split; [reflexivity|].
  split; [intros ->; split; assumption|].
  split; [reflexivity|]. split; [exact Hel|].
  exists channels. split; assumption.
Qed.

Lemma manager_create_outcome_witness :
  exists m,
    uvm_channel_manager_create_common example_env example_two_engines true
    = Ok (NV_OK, Some m) /\
    manager_gpu m = example_two_engines.
Proof.
  destruct (uvm_channel_manager_create_common example_env example_two_engines true)
    as [[status [m|]]|f] eqn:Hrun;
    [|vm_compute in Hrun; discriminate Hrun..].
  destruct (manager_create_outcome example_env example_two_engines true status (Some m) Hrun)
    as [Hok Hm].
  exists m. rewrite (proj2 Hok (ex_intro _ m eq_refl)).
  split; [reflexivity|]. apply (Hm m eq_refl).
Defined.

(** ** Listing pushes *)

Lemma print_pushes_loop_spec completed count put c :
  forall pend get fuel,
    0 < numGpFifoEntries c < 2^32 ->
    0 <= put < numGpFifoEntries c ->
    0 <= get < numGpFifoEntries c ->
    Z.of_nat (length pend) = (put - get) mod numGpFifoEntries c ->
    ring_window (gpfifo_entries c) (numGpFifoEntries c) get (length pend)
    = map Some pend ->
    Forall bound pend ->
    Forall (fun e => 0 <= tracking_semaphore_value e + count < 2^64) pend ->
    (length pend <= fuel)%nat ->
    print_pushes_loop fuel completed count put get c
    = Ok (printed_lines completed count pend).
Proof.
  induction pend as [|e rest IH]; intros get fuel HN Hput Hget Hlen Hwin Hbound Hsmall Hfuel.
  - simpl in Hlen. symmetry in Hlen.
    apply pending_count_zero in Hlen; [|lia..]. subst put.
    destruct fuel; cbn [print_pushes_loop]; rewrite Z.eqb_refl; reflexivity.
  - assert (Hne : get <> put).
    { intros ->. rewrite Z.sub_diag, Z.mod_0_l in Hlen by lia.
      simpl in Hlen. lia. }
    cbn [length] in Hwin, Hfuel. rewrite ring_window_cons in Hwin.
    cbn [map] in Hwin. injection Hwin as Hhead Hwin.
    rewrite Z.mod_small in Hhead by lia.
    destruct fuel as [|fuel]; [lia|]. cbn [print_pushes_loop].
    destruct (Z.eqb_spec get put) as [|_]; [contradiction|].
    rewrite Hhead.
    apply Forall_cons in Hbound as [[info Hinfo] Hbound].
    apply Forall_cons in Hsmall as [He Hsmall].
    rewrite NvU64_small by lia. rewrite NvU32_small by lia.
    rewrite (IH ((get + 1) mod numGpFifoEntries c) fuel); try assumption.
    + unfold printed_lines. cbn [List.filter].
      destruct (tracking_semaphore_value e + count <=? completed); cbn [negb];
        [reflexivity|].
      rewrite Hinfo. cbn [mbind result_bind bind map]. unfold print_line at 2.
      rewrite Hinfo. reflexivity.
    + apply Z.mod_pos_bound. lia.
    + rewrite pending_count_advance_get by lia. cbn [length] in Hlen. lia.
    + rewrite ring_window_mod. exact Hwin.
    + lia.
Qed.

Lemma printed_lines_consecutive v count : forall pend a,
  (forall i e, pend !! i = Some e -> tracking_semaphore_value e = a + Z.of_nat i + 1) ->
  printed_lines v count pend
  = map (print_line v) (drop (Z.to_nat (v - count - a)) pend).
Proof.
  induction pend as [|e rest IH]; intros a Hval.
  - rewrite drop_nil. reflexivity.
  - pose proof (Hval 0%nat e eq_refl) as He. cbn in He.
    assert (Hrest : forall i e', rest !! i = Some e' ->
                                 tracking_semaphore_value e' = (a + 1) + Z.of_nat i + 1).
    { intros i e' Hi. rewrite (Hval (S i) e' Hi). lia. }
    specialize (IH (a + 1) Hrest). unfold printed_lines in *. cbn [List.filter].
    destruct (Z.leb_spec (tracking_semaphore_value e + count) v) as [Hle|Hgt]; cbn [negb].
    + rewrite IH. replace (Z.to_nat (v - count - a)) with (S (Z.to_nat (v - count - (a + 1))))
        by lia. reflexivity.
    + cbn [map]. rewrite IH.
      replace (Z.to_nat (v - count - (a + 1))) with 0%nat by lia.
      replace (Z.to_nat (v - count - a)) with 0%nat by lia. reflexivity.
Qed.

Lemma finished_lines_count v : forall lines lo,
  (forall i line, lines !! i = Some line ->
                  printed_value line = lo + Z.of_nat i + 1 /\
                  printed_finished line = (printed_value line <=? v)) ->
  Z.of_nat (length (List.filter printed_finished lines)) <= Z.max 0 (v - lo).
Proof.
  induction lines as [|line rest IH]; intros lo Hval; [cbn; lia|].
  destruct (Hval 0%nat line eq_refl) as [Hv Hf]. cbn in Hv.
  assert (Hrest : forall i l, rest !! i = Some l ->
                              printed_value l = (lo + 1) + Z.of_nat i + 1 /\
                              printed_finished l = (printed_value l <=? v)).
  { intros i l Hi. destruct (Hval (S i) l Hi) as [Hv' Hf']. split; [lia | exact Hf']. }
  specialize (IH (lo + 1) Hrest). cbn [List.filter]. rewrite Hf.
  destruct (Z.leb_spec (printed_value line) v); cbn [length]; lia.
Qed.

(** X22. On a protocol state [channel_print_pushes] lists, oldest first,
    the submitted entries that are not yet retired and whose value is more
    than the completed value less [finished_pushes_count]: the values listed
    are consecutive, an entry is labelled finished exactly when its value is
    at most the completed value, and at most [finished_pushes_count]
    finished entries are listed. With a count of zero
    ([uvm_channel_print_pending_pushes]) no finished entry is listed. *)
Theorem print_pushes_lists_unretired
    (type : uvm_channel_type_t) (N : Z) (c : uvm_channel_t)
    (finished_pushes_count : Z) (fuel : nat) :
  reachable type N c ->
  0 <= finished_pushes_count ->
  Z.of_nat (length (submitted (calls c))) + finished_pushes_count < 2^64 ->
  pending_count c <= Z.of_nat fuel ->
  let r := Z.of_nat (length (retired (calls c))) in
  let v := uvm_channel_update_completed_value c in
  let lo := Z.max r (v - finished_pushes_count) in
  let lines := map (print_line v) (drop (Z.to_nat lo) (submitted (calls c))) in
  channel_print_pushes fuel c finished_pushes_count = Ok lines /\
  (forall i line, lines !! i = Some line ->
                  printed_value line = lo + Z.of_nat i + 1 /\
                  printed_finished line = (printed_value line <=? v)) /\
  Z.of_nat (length (List.filter printed_finished lines)) <= finished_pushes_count.
Proof.
  intros Hreach Hcount Hn Hfuel r v lo lines.
  destruct (reachable_inv _ _ _ Hreach) as [Hinv HcN].
  destruct (inv_pending c Hinv) as (Hpend & Hbound & Hle).
  assert (Htv : tracking_values_ok c) by (destruct Hinv as (_ & _ & _ & _ & _ & H); exact H).
  destruct Hinv as ((HN & Hlen & Hput & Hget) & _).
  destruct Hpend as (Hpc & Hwin).
  set (pend := drop (length (retired (calls c))) (submitted (calls c))) in *.
  assert (Hvals : forall i e, pend !! i = Some e ->
                              tracking_semaphore_value e = r + Z.of_nat i + 1).
  { intros i e Hi. unfold pend in Hi. rewrite lookup_drop in Hi.
    rewrite (submitted_tracking_value c _ e Htv ltac:(lia) Hi). unfold r. lia. }
  assert (Hlines : forall i line, lines !! i = Some line ->
                     printed_value line = lo + Z.of_nat i + 1 /\
                     printed_finished line = (printed_value line <=? v)).
  { intros i line Hi. unfold lines in Hi. rewrite list_lookup_fmap in Hi.
    rewrite lookup_drop in Hi.
    destruct (submitted (calls c) !! (Z.to_nat lo + i)%nat) as [e|] eqn:He;
      [|discriminate Hi].
    cbn in Hi. injection Hi as <-. cbn [print_line printed_value printed_finished].
    rewrite (submitted_tracking_value c _ e Htv ltac:(lia) He).
    split; [unfold lo, r; lia | reflexivity]. }
  split; [|split; [exact Hlines|]].
  - unfold channel_print_pushes. fold v.
    rewrite (print_pushes_loop_spec v finished_pushes_count (cpu_put c) c pend);
      try assumption.
    + rewrite (printed_lines_consecutive v finished_pushes_count pend r Hvals).
      unfold lines, pend. rewrite drop_drop. do 3 f_equal. unfold lo, r. lia.
    + apply Forall_lookup. intros i e Hi. rewrite (Hvals i e Hi).
      apply lookup_lt_Some in Hi. unfold pend in Hi. rewrite length_drop in Hi.
      unfold r. lia.
    + lia.
  - pose proof (finished_lines_count v lines lo Hlines). unfold lo in *. lia.
Qed.

Lemma print_pushes_lists_unretired_witness :
  uvm_channel_print_pending_pushes 3 example_retired
  = Ok [mk_printed false 0 2] /\
  nv_procfs_read_channel_pushes 3 example_retired
  = Ok [mk_printed false 0 2].
Proof.
  split.
  - apply (print_pushes_lists_unretired UVM_CHANNEL_TYPE_CPU_TO_GPU 4 example_retired 0 3);
      [exact example_retired_reachable | lia | vm_compute; reflexivity
       | vm_compute; discriminate].
  - apply (print_pushes_lists_unretired UVM_CHANNEL_TYPE_CPU_TO_GPU 4 example_retired 5 3);
      [exact example_retired_reachable | lia | vm_compute; reflexivity
       | vm_compute; discriminate].
Defined.

(** ** Probing and tearing down the manager *)

Lemma find_available_channel_spec : forall channels index,
  Forall reachable_channel channels ->
  match find_available_channel index channels with
  | Some k =>
    exists i c, k = (index + i)%nat /\ channels !! i = Some c /\
      current_pushes_count c + pending_count c < numGpFifoEntries c - 1 /\
      forall j d, (j < i)%nat -> channels !! j = Some d ->
                  current_pushes_count d + pending_count d = numGpFifoEntries d - 1
  | None =>
    forall d, d ∈ channels ->
              current_pushes_count d + pending_count d = numGpFifoEntries d - 1
  end.
Proof.
  induction channels as [|c rest IH]; intros index Hall.
  - cbn. intros d Hd. apply elem_of_nil in Hd. contradiction.
  - apply Forall_cons in Hall as [(type & N & Hreach) Hrest].
    destruct (reachable_inv _ _ _ Hreach) as [Hinv _].
    pose proof (available_iff_room c Hinv) as Hroom.
    assert (Hle : current_pushes_count c + pending_count c <= numGpFifoEntries c - 1).
    { destruct Hinv as (_ & _ & _ & H & _). exact H. }
    cbn [find_available_channel].
    destruct (is_channel_available c) eqn:Hav.
    + exists 0%nat, c. split; [lia|]. split; [reflexivity|].
      split; [apply Hroom; reflexivity | intros j d Hj; lia].
    + assert (Hfull : current_pushes_count c + pending_count c = numGpFifoEntries c - 1).
      { destruct (Z.eq_dec (current_pushes_count c + pending_count c)
                           (numGpFifoEntries c - 1)) as [H|H]; [exact H|].
        assert (Htrue : false = true) by (apply Hroom; lia). discriminate Htrue. }
      specialize (IH (S index) Hrest).
      destruct (find_available_channel (S index) rest) as [k|].
      * destruct IH as (i & d & -> & Hd & Hdroom & Hbefore).
        exists (S i), d. split; [lia|]. split; [exact Hd|]. split; [exact Hdroom|].
        intros [|j] e Hj He; cbn in He.
        -- injection He as <-. exact Hfull.
        -- apply (Hbefore j e); [lia | exact He].
      * intros d Hd. apply elem_of_cons in Hd as [->|Hd]; [exact Hfull | apply IH; exact Hd].
Qed.

(** X23. On a manager of protocol states
    [uvm_channel_manager_find_available_channel] returns the first channel,
    in list order, on which a claim would succeed, that is, whose claimed
    and pending slots leave a cell free besides the one the ring always
    keeps empty; every channel before it is full. It returns no channel
    exactly when every channel is full. *)
Theorem find_available_channel_first_with_room (m : uvm_channel_manager_t) :
  Forall reachable_channel (all_channels_list m) ->
  match uvm_channel_manager_find_available_channel m with
  | Some i =>
    exists c, all_channels_list m !! i = Some c /\
      fst (try_claim_channel c) = true /\
      current_pushes_count c + pending_count c < numGpFifoEntries c - 1 /\
      forall j d, (j < i)%nat -> all_channels_list m !! j = Some d ->
                  current_pushes_count d + pending_count d = numGpFifoEntries d - 1
  | None =>
    forall d, d ∈ all_channels_list m ->
              current_pushes_count d + pending_count d = numGpFifoEntries d - 1 /\
              fst (try_claim_channel d) = false
  end.
Proof.
  intros Hall. unfold uvm_channel_manager_find_available_channel.
  pose proof (find_available_channel_spec (all_channels_list m) 0 Hall) as Hspec.
  assert (Hclaim : forall c, c ∈ all_channels_list m ->
            (fst (try_claim_channel c) = true <->
             current_pushes_count c + pending_count c < numGpFifoEntries c - 1)).
  { intros c Hc. apply (proj1 (Forall_forall _ _) Hall) in Hc as (type & N & Hreach).
    destruct (reachable_inv _ _ _ Hreach) as [Hinv _].
    rewrite <- (available_iff_room c Hinv). unfold try_claim_channel.
    destruct (is_channel_available c); reflexivity. }
  destruct (find_available_channel 0 (all_channels_list m)) as [k|].
  - destruct Hspec as (i & c & -> & Hc & Hroom & Hbefore). exists c.
    split; [exact Hc|].
    split; [apply Hclaim; [eapply list_elem_of_lookup_2; exact Hc | exact Hroom]|].
    split; [exact Hroom | exact Hbefore].
  - intros d Hd. split; [apply Hspec; exact Hd|].
    destruct (fst (try_claim_channel d)) eqn:Hf; [|reflexivity].
    apply (Hclaim d Hd) in Hf. rewrite (Hspec d Hd) in Hf. lia.
Qed.

Lemma find_available_channel_first_with_room_witness :
  uvm_channel_manager_find_available_channel
    (mk_manager example_gpu [example_full; example_claimed] (fun _ => 0%nat))
  = Some 1%nat /\
  current_pushes_count example_full + pending_count example_full
  = numGpFifoEntries example_full - 1.
Proof.
  pose proof (find_available_channel_first_with_room
                (mk_manager example_gpu [example_full; example_claimed] (fun _ => 0%nat)))
    as Hfound.
  assert (Hrun : uvm_channel_manager_find_available_channel
                   (mk_manager example_gpu [example_full; example_claimed] (fun _ => 0%nat))
                 = Some 1%nat) by (vm_compute; reflexivity).
  rewrite Hrun in Hfound. split; [reflexivity|].
  destruct Hfound as (c & _ & _ & _ & Hbefore).
  - repeat constructor.
    + exists UVM_CHANNEL_TYPE_CPU_TO_GPU, 4. exact example_full_reachable.
    + exists UVM_CHANNEL_TYPE_CPU_TO_GPU, 4. exact example_claimed_reachable.
  - apply (Hbefore 0%nat example_full); [lia | reflexivity].
Defined.

(** X24. [uvm_channel_manager_destroy] on a manager of protocol states
    whose counters have not wrapped frees every channel, in list order, with
    its ring drained: each channel's submitted entries have all been
    reported to [uvm_pushbuffer_mark_completed], in submission order, and
    its ring is empty. For the NULL manager it does nothing. *)
Theorem manager_destroy_drains_every_ring (m : uvm_channel_manager_t) :
  Forall (fun c => reachable_channel c /\
                   Z.of_nat (length (submitted (calls c))) < 2^64)
         (all_channels_list m) ->
  uvm_channel_manager_destroy None = Ok [] /\
  exists freed,
    uvm_channel_manager_destroy (Some m) = Ok freed /\
    Forall2 (fun c c' => same_ring c c' /\
                         retired (calls c') = submitted (calls c) /\
                         submitted (calls c') = submitted (calls c) /\
                         idle c')
            (all_channels_list m) freed.
Proof.
  intros Hall. split; [reflexivity|]. unfold uvm_channel_manager_destroy.
  induction Hall as [|c rest [(type & N & Hreach) Hn] _ (freed & Hrun & Hfreed)].
  - exists []. split; [reflexivity | constructor].
  - cbn [manager_destroy_loop]. unfold destroy_channel.
    destruct (Z.ltb_spec 0 (queued_value (tracking_sem c))) as [Hqueued|Hnone].
    + destruct (force_all_drains type N c Hreach Hn)
        as (pending & c' & Hone & Hret & Hsub & Hidle & Hsame).
      exists (c' :: freed). rewrite Hone. cbn [mbind result_bind bind]. rewrite Hrun.
      split; [reflexivity|]. constructor; [|exact Hfreed].
      split; [exact Hsame|]. split; [exact Hret|]. split; [exact Hsub | exact Hidle].
    + destruct (never_queued_empty type N c Hreach Hn Hnone) as [Hret Hidle].
      exists (c :: freed). cbn [mbind result_bind bind]. rewrite Hrun.
      split; [reflexivity|]. constructor; [|exact Hfreed].
      split; [apply same_ring_refl|]. split; [exact Hret|].
      split; [reflexivity | exact Hidle].
Qed.

Lemma manager_destroy_drains_every_ring_witness :
  exists freed,
    uvm_channel_manager_destroy
      (Some (mk_manager example_gpu [example_full; example_retired] (fun _ => 0%nat)))
    = Ok freed /\
    length freed = 2%nat.
Proof.
  destruct (manager_destroy_drains_every_ring
              (mk_manager example_gpu [example_full; example_retired] (fun _ => 0%nat)))
    as (_ & freed & Hrun & Hall).
  - repeat constructor.
    + exists UVM_CHANNEL_TYPE_CPU_TO_GPU, 4. exact example_full_reachable.
    + exists UVM_CHANNEL_TYPE_CPU_TO_GPU, 4. exact example_retired_reachable.
  - exists freed. split; [exact Hrun|].
    apply Forall2_length in Hall. symmetry. exact Hall.
Defined.

(** ** The manager's reclamation *)







(** * Construction without an eligible engine *)




(** Where the bounds-checked selection returns, the unchecked one returns
    the same. *)
Lemma pick_all_unchecked_agrees gpu past_end :
  forall types ce_to_use usage_count ce_to_use' usage_count',
  pick_all gpu types ce_to_use usage_count = Ok (ce_to_use', usage_count') ->
  pick_all_unchecked gpu types ce_to_use usage_count past_end
  = (ce_to_use', usage_count', past_end).
Proof.
  induction types as [|type rest IH]; intros ce usage ce' usage' Hrun.
  - cbn in Hrun. injection Hrun as <- <-. reflexivity.
  - cbn [pick_all] in Hrun. cbn [pick_all_unchecked].
    unfold pick_ce_for_channel_type in Hrun. unfold pick_ce_for_channel_type_unchecked.
    destruct (usage !! pick_best_ce gpu type usage) as [count|];
      cbn [mbind result_bind bind] in Hrun; [|discriminate Hrun].
    apply IH. exact Hrun.
Qed.

Lemma pick_copy_engines_unchecked_agrees gpu past_end status ce_to_use :
  channel_manager_pick_copy_engines gpu = Ok (status, ce_to_use) ->
  channel_manager_pick_copy_engines_unchecked gpu past_end = (status, ce_to_use).
Proof.
  unfold channel_manager_pick_copy_engines, channel_manager_pick_copy_engines_unchecked.
  intros Hrun.
  destruct (pick_all gpu pick_order _ _) as [[ce usage]|f] eqn:Hall;
    cbn [mbind result_bind bind] in Hrun; [|discriminate Hrun].
  rewrite (pick_all_unchecked_agrees gpu past_end _ _ _ _ _ Hall).
  destruct (forallb _ channel_types); injection Hrun as <- <-; reflexivity.
Qed.



